(** * japanese-text-utils: a shallow embedding of [src/index.ts]

    The library is a set of pure functions over JavaScript strings.  A
    JavaScript string is a sequence of UTF-16 code units, and the source
    mixes three views of it:
    - [charCodeAt], [text[i]], [text.length] and regular expressions
      without the [u] flag work on code units;
    - the spread [[...text]] iterates code points (a well-formed
      surrogate pair is one element);
    - the object literals used as lookup tables are keyed by one-unit
      strings.
    The embedding keeps the three views apart, since several properties
    of the library depend on which one a function uses.

    The validators and formatters of [src/utils/validation.ts] and
    [src/utils/formatting.ts] that are built on string operations are
    embedded after the library, with the primitives they add ([trim],
    [test], [slice]). *)

From Stdlib Require Import ZArith List Bool Lia.
From stdpp Require Import base option list strings gmap.

Local Open Scope Z_scope.

(** ** JavaScript strings and the primitives the source calls *)

Module JS.

(** A string is the list of its UTF-16 code units, each in [0, 0xFFFF]. *)
Abbreviation jsstring := (list Z) (only parsing).

(** [s.charCodeAt(i)]; [None] stands for [NaN] (index out of range). *)
Definition charCodeAt (s : jsstring) (i : nat) : option Z := s !! i.

(** [String.fromCharCode(n)]: the argument is truncated to 16 bits, and
    [NaN] becomes code unit 0. *)
Definition fromCharCode (n : option Z) : jsstring :=
  match n with
  | Some v => [v mod 0x10000]
  | None => [0]
  end.

(** Comparisons of a possibly-[NaN] number with a constant. *)
Definition num_ge (n : option Z) (k : Z) : bool :=
  match n with Some v => k <=? v | None => false end.
Definition num_le (n : option Z) (k : Z) : bool :=
  match n with Some v => v <=? k | None => false end.
Definition num_gt (n : option Z) (k : Z) : bool :=
  match n with Some v => k <? v | None => false end.
Definition num_add (n : option Z) (k : Z) : option Z :=
  match n with Some v => Some (v + k) | None => None end.

(** [!s] on a string: true exactly for the empty string. *)
Definition falsy (s : jsstring) : bool :=
  match s with [] => true | _ => false end.

Definition is_high_surrogate (u : Z) : bool := (0xD800 <=? u) && (u <=? 0xDBFF).
Definition is_low_surrogate (u : Z) : bool := (0xDC00 <=? u) && (u <=? 0xDFFF).

(** [[...s]]: the string iterator.  It yields one string per code point:
    a high surrogate directly followed by a low surrogate forms one
    two-unit element, every other code unit is an element of its own. *)
Fixpoint spread (s : jsstring) : list jsstring :=
  match s with
  | [] => []
  | c :: tl =>
      match tl with
      | d :: tl' =>
          if is_high_surrogate c && is_low_surrogate d
          then [c; d] :: spread tl'
          else [c] :: spread tl
      | [] => [[c]]
      end
  end.

(** [arr.join('')]. *)
Definition join (l : list jsstring) : jsstring := concat l.

(** *** Unicode scalar values and their UTF-16 encoding *)

Definition is_scalar (cp : Z) : Prop :=
  (0 <= cp <= 0xD7FF) \/ (0xE000 <= cp <= 0x10FFFF).

Definition utf16 (cp : Z) : jsstring :=
  if cp <? 0x10000 then [cp]
  else [0xD800 + (cp - 0x10000) / 0x400; 0xDC00 + (cp - 0x10000) mod 0x400].

Definition utf16_string (cps : list Z) : jsstring := concat (map utf16 cps).

(** *** Regular expressions

    The fragment of the regular-expression language the source uses:
    alternatives of sequences of anchors, one-character classes and
    greedy [+] repetitions of a class.  No [u] flag: a class tests one
    code unit. *)

Inductive atom :=
| Bol                               (* ^ *)
| Eol                               (* $ *)
| Class (p : Z -> bool)             (* [...] *)
| ClassPlus (p : Z -> bool).        (* [...]+ *)

Abbreviation regex := (list (list atom)) (only parsing).

(** Length of the longest prefix of [s] whose units all satisfy [p]. *)
Fixpoint class_run (p : Z -> bool) (s : jsstring) : nat :=
  match s with
  | c :: tl => if p c then S (class_run p tl) else O
  | [] => O
  end.

(** A greedy [+] that matched [k] units tries the rest of the sequence
    after them and, when that fails, gives one unit back; it needs at
    least one unit.  [continue k] is the match of the rest after [k]
    units. *)
Fixpoint give_back (continue : nat -> option nat) (k : nat) : option nat :=
  match k with
  | O => None
  | S k' =>
      match continue k with
      | Some m => Some (k + m)%nat
      | None => give_back continue k'
      end
  end.

(** Backtracking match of a sequence at offset [pos], [rest] being the
    input from [pos] on; the result is the length of the match. *)
Fixpoint match_seq (atoms : list atom) (pos : nat) (rest : jsstring)
  {struct atoms} : option nat :=
  match atoms with
  | [] => Some O
  | a :: atoms' =>
      match a with
      | Bol => if Nat.eqb pos 0 then match_seq atoms' pos rest else None
      | Eol => match rest with
               | [] => match_seq atoms' pos rest
               | _ :: _ => None
               end
      | Class p =>
          match rest with
          | c :: tl =>
              if p c
              then match match_seq atoms' (S pos) tl with
                   | Some m => Some (S m)
                   | None => None
                   end
              else None
          | [] => None
          end
      | ClassPlus p =>
          give_back (fun k => match_seq atoms' (pos + k)%nat (drop k rest))
            (class_run p rest)
      end
  end.

(** Alternatives are tried left to right. *)
Fixpoint match_at (re : regex) (pos : nat) (rest : jsstring) : option nat :=
  match re with
  | [] => None
  | alt :: re' =>
      match match_seq alt pos rest with
      | Some m => Some m
      | None => match_at re' pos rest
      end
  end.

(** [s.replace(/re/g, f)]: scan from the left; at each offset not inside
    an earlier match try the expression, replace the match by [f] of the
    matched text and resume after it (after one more unit when the match
    is empty).  [skip] counts the units of the current match still to be
    dropped. *)
Fixpoint replace_from (re : regex) (f : jsstring -> jsstring)
  (pos skip : nat) (s : jsstring) : jsstring :=
  match s with
  | [] =>
      match skip, match_at re pos [] with
      | O, Some _ => f []
      | _, _ => []
      end
  | c :: tl =>
      match skip with
      | S k => replace_from re f (S pos) k tl
      | O =>
          match match_at re pos s with
          | Some (S n) => f (take (S n) s) ++ replace_from re f (S pos) n tl
          | Some O => f [] ++ c :: replace_from re f (S pos) O tl
          | None => c :: replace_from re f (S pos) O tl
          end
      end
  end.

Definition replace_global (re : regex) (f : jsstring -> jsstring)
  (s : jsstring) : jsstring :=
  replace_from re f O O s.

(** The class escape [\s]: WhiteSpace and LineTerminator of ECMAScript,
    that is TAB, LF, VT, FF, CR, the byte-order mark U+FEFF and the
    Unicode space separators. *)
Definition class_s (u : Z) : bool :=
  ((0x0009 <=? u) && (u <=? 0x000D))
  || (u =? 0x0020) || (u =? 0x00A0) || (u =? 0x1680)
  || ((0x2000 <=? u) && (u <=? 0x200A))
  || (u =? 0x2028) || (u =? 0x2029) || (u =? 0x202F) || (u =? 0x205F)
  || (u =? 0x3000) || (u =? 0xFEFF).

Definition class_range (lo hi : Z) (u : Z) : bool := (lo <=? u) && (u <=? hi).

End JS.

Import JS.

(** ** Character type detection *)

(** [isHiragana]: first code unit in [0x3040, 0x309f]. *)
Definition isHiragana (char : jsstring) : bool :=
  if falsy char || Nat.eqb (length char) 0 then false
  else
    let code := charCodeAt char 0 in
    num_ge code 0x3040 && num_le code 0x309f.

Definition isKatakana (char : jsstring) : bool :=
  if falsy char || Nat.eqb (length char) 0 then false
  else
    let code := charCodeAt char 0 in
    num_ge code 0x30a0 && num_le code 0x30ff.

Definition isKanji (char : jsstring) : bool :=
  if falsy char || Nat.eqb (length char) 0 then false
  else
    let code := charCodeAt char 0 in
    (num_ge code 0x4e00 && num_le code 0x9faf)
    || (num_ge code 0x3400 && num_le code 0x4dbf)
    || (num_ge code 0x20000 && num_le code 0x2a6df).

Definition isFullWidth (char : jsstring) : bool :=
  if falsy char || Nat.eqb (length char) 0 then false
  else
    let code := charCodeAt char 0 in
    num_gt code 0xff.

Definition isHalfWidth (char : jsstring) : bool :=
  if falsy char || Nat.eqb (length char) 0 then false
  else negb (isFullWidth char).

Definition isAllHiragana (text : jsstring) : bool :=
  if falsy text || Nat.eqb (length text) 0 then false
  else forallb isHiragana (spread text).

Definition isAllKatakana (text : jsstring) : bool :=
  if falsy text || Nat.eqb (length text) 0 then false
  else forallb isKatakana (spread text).

Definition isAllKanji (text : jsstring) : bool :=
  if falsy text || Nat.eqb (length text) 0 then false
  else forallb isKanji (spread text).

(** ** Character conversion *)

(** [/[\u3041-\u3096]/g], each match replaced by the unit 0x60 above. *)
Definition hiraganaToKatakana (text : jsstring) : jsstring :=
  replace_global [[Class (class_range 0x3041 0x3096)]]
    (fun char => fromCharCode (num_add (charCodeAt char 0) 0x60)) text.

Definition katakanaToHiragana (text : jsstring) : jsstring :=
  replace_global [[Class (class_range 0x30a1 0x30f6)]]
    (fun char => fromCharCode (num_add (charCodeAt char 0) (- 0x60))) text.

(** The three object literals.  Every key and every value is a string of
    one code unit and is represented by that unit; a lookup that finds
    nothing is [undefined], here [None]. *)
Definition halfToFull : gmap Z Z :=
  list_to_map
    [ (0xFF71, 0x30A2); (0xFF72, 0x30A4); (0xFF73, 0x30A6); (0xFF74, 0x30A8); (0xFF75, 0x30AA);
      (0xFF76, 0x30AB); (0xFF77, 0x30AD); (0xFF78, 0x30AF); (0xFF79, 0x30B1); (0xFF7A, 0x30B3);
      (0xFF7B, 0x30B5); (0xFF7C, 0x30B7); (0xFF7D, 0x30B9); (0xFF7E, 0x30BB); (0xFF7F, 0x30BD);
      (0xFF80, 0x30BF); (0xFF81, 0x30C1); (0xFF82, 0x30C4); (0xFF83, 0x30C6); (0xFF84, 0x30C8);
      (0xFF85, 0x30CA); (0xFF86, 0x30CB); (0xFF87, 0x30CC); (0xFF88, 0x30CD); (0xFF89, 0x30CE);
      (0xFF8A, 0x30CF); (0xFF8B, 0x30D2); (0xFF8C, 0x30D5); (0xFF8D, 0x30D8); (0xFF8E, 0x30DB);
      (0xFF8F, 0x30DE); (0xFF90, 0x30DF); (0xFF91, 0x30E0); (0xFF92, 0x30E1); (0xFF93, 0x30E2);
      (0xFF94, 0x30E4); (0xFF95, 0x30E6); (0xFF96, 0x30E8);
      (0xFF97, 0x30E9); (0xFF98, 0x30EA); (0xFF99, 0x30EB); (0xFF9A, 0x30EC); (0xFF9B, 0x30ED);
      (0xFF9C, 0x30EF); (0xFF66, 0x30F2); (0xFF9D, 0x30F3);
      (0xFF67, 0x30A1); (0xFF68, 0x30A3); (0xFF69, 0x30A5); (0xFF6A, 0x30A7); (0xFF6B, 0x30A9);
      (0xFF6C, 0x30E3); (0xFF6D, 0x30E5); (0xFF6E, 0x30E7); (0xFF6F, 0x30C3);
      (0xFF70, 0x30FC); (0xFF61, 0x3002); (0xFF62, 0x300C); (0xFF63, 0x300D); (0xFF64, 0x3001);
      (0xFF65, 0x30FB);
      (0xFF9E, 0x309B); (0xFF9F, 0x309C) ].

Definition dakutenMap : gmap Z Z :=
  list_to_map
    [ (0x30AB, 0x30AC); (0x30AD, 0x30AE); (0x30AF, 0x30B0); (0x30B1, 0x30B2); (0x30B3, 0x30B4);
      (0x30B5, 0x30B6); (0x30B7, 0x30B8); (0x30B9, 0x30BA); (0x30BB, 0x30BC); (0x30BD, 0x30BE);
      (0x30BF, 0x30C0); (0x30C1, 0x30C2); (0x30C4, 0x30C5); (0x30C6, 0x30C7); (0x30C8, 0x30C9);
      (0x30CF, 0x30D0); (0x30D2, 0x30D3); (0x30D5, 0x30D6); (0x30D8, 0x30D9); (0x30DB, 0x30DC) ].

Definition handakutenMap : gmap Z Z :=
  list_to_map
    [ (0x30CF, 0x30D1); (0x30D2, 0x30D4); (0x30D5, 0x30D7); (0x30D8, 0x30DA); (0x30DB, 0x30DD) ].

(** The half-width voiced and semi-voiced sound marks. *)
Definition DAKUTEN : Z := 0xFF9E.
Definition HANDAKUTEN : Z := 0xFF9F.

(** [map[char] || char]. *)
Definition lookup_or (m : gmap Z Z) (char : Z) : Z := default char (m !! char).

Definition addDakuten (char : Z) : Z := lookup_or dakutenMap char.
Definition addHandakuten (char : Z) : Z := lookup_or handakutenMap char.

(** [nextChar === mark], [nextChar] being [undefined] past the end. *)
Definition is_char (nextChar : option Z) (mark : Z) : bool :=
  match nextChar with Some u => u =? mark | None => false end.

(** The body of the [for] loop at cursor [i], where [char] is [text[i]]:
    the cursor as the body leaves it and the output with what the body
    appended. *)
Definition loop_body (text : jsstring) (i : nat) (char : Z) (result : jsstring)
  : nat * jsstring :=
  let nextChar := text !! (i + 1)%nat in
  if is_char nextChar DAKUTEN || is_char nextChar HANDAKUTEN then
    let base := lookup_or halfToFull char in
    let result' :=
      if is_char nextChar DAKUTEN
      then result ++ [addDakuten base]
      else result ++ [addHandakuten base] in
    ((i + 1)%nat, result')
  else
    (i, result ++ [lookup_or halfToFull char]).

(** The [for] loop of [halfToFullKatakana], from cursor [i] with the
    output built so far.  The loop has no bound of its own: [fuel] limits
    the number of iterations, and [None] means it was used up before the
    loop condition [i < text.length] failed. *)
Fixpoint halfToFullKatakana_loop (fuel : nat) (text : jsstring) (i : nat)
  (result : jsstring) : option jsstring :=
  match text !! i with
  | None => Some result
  | Some char =>
      match fuel with
      | O => None
      | S fuel' =>
          let '(i', result') := loop_body text i char result in
          halfToFullKatakana_loop fuel' text (i' + 1)%nat result'
      end
  end.

(** The cursor and the output after [k] iterations (fewer when the loop
    ends before). *)
Fixpoint loop_state (k : nat) (text : jsstring) (i : nat) (result : jsstring)
  : nat * jsstring :=
  match k with
  | O => (i, result)
  | S k' =>
      match text !! i with
      | None => (i, result)
      | Some char =>
          let '(i', result') := loop_body text i char result in
          loop_state k' text (i' + 1)%nat result'
      end
  end.

(** One iteration per code unit is always enough (see
    [halfToFullKatakana_terminates]). *)
Definition halfToFullKatakana (text : jsstring) : option jsstring :=
  halfToFullKatakana_loop (length text) text O [].

(** [/[Ａ-Ｚａ-ｚ０-９]/g] and [/[A-Za-z0-9]/g]. *)
Definition class_fullwidth_alnum (u : Z) : bool :=
  class_range 0xFF21 0xFF3A u || class_range 0xFF41 0xFF5A u || class_range 0xFF10 0xFF19 u.
Definition class_ascii_alnum (u : Z) : bool :=
  class_range 0x41 0x5A u || class_range 0x61 0x7A u || class_range 0x30 0x39 u.

Definition fullToHalfAlphanumeric (text : jsstring) : jsstring :=
  replace_global [[Class class_fullwidth_alnum]]
    (fun char => fromCharCode (num_add (charCodeAt char 0) (- 0xfee0))) text.

Definition halfToFullAlphanumeric (text : jsstring) : jsstring :=
  replace_global [[Class class_ascii_alnum]]
    (fun char => fromCharCode (num_add (charCodeAt char 0) 0xfee0)) text.

(** ** Text analysis *)

Definition getDisplayWidth (text : jsstring) : nat :=
  fold_left (fun width char => (width + (if isFullWidth char then 2 else 1))%nat)
    (spread text) O.

Record CharacterStats := {
  total : nat;
  hiragana : nat;
  katakana : nat;
  kanji : nat;
  fullWidth : nat;
  halfWidth : nat;
  displayWidth : nat
}.

Definition getCharacterStats (text : jsstring) : CharacterStats :=
  let chars := spread text in
  {| total := length chars;
     hiragana := length (List.filter isHiragana chars);
     katakana := length (List.filter isKatakana chars);
     kanji := length (List.filter isKanji chars);
     fullWidth := length (List.filter isFullWidth chars);
     halfWidth := length (List.filter isHalfWidth chars);
     displayWidth := getDisplayWidth text |}.

Definition extractHiragana (text : jsstring) : jsstring :=
  join (List.filter isHiragana (spread text)).
Definition extractKatakana (text : jsstring) : jsstring :=
  join (List.filter isKatakana (spread text)).
Definition extractKanji (text : jsstring) : jsstring :=
  join (List.filter isKanji (spread text)).

(** ** Utility functions *)

(** The class [[\s\u3000]]. *)
Definition class_space (u : Z) : bool := class_s u || (u =? 0x3000).

Definition removeAllWhitespace (text : jsstring) : jsstring :=
  replace_global [[Class class_space]] (fun _ => []) text.

Definition normalizeWhitespace (text : jsstring) : jsstring :=
  replace_global [[Class (fun u => u =? 0x3000)]] (fun _ => [0x20]) text.

(** [/^[p]+|[p]+$/]: a run of the class at the start of the input, or a
    run that ends it. *)
Definition trim_re (p : Z -> bool) : list (list atom) :=
  [[Bol; ClassPlus p]; [ClassPlus p; Eol]].

(** [/^[\s\u3000]+|[\s\u3000]+$/g]. *)
Definition trimJapanese (text : jsstring) : jsstring :=
  replace_global (trim_re class_space) (fun _ => []) text.

(** ** Definitions used to state the properties *)

(** The entry of the combining table that [mark] selects. *)
Definition combining_entry (mark base : Z) : option Z :=
  if mark =? DAKUTEN then dakutenMap !! base else handakutenMap !! base.

Definition is_mark (u : Z) : bool := (u =? DAKUTEN) || (u =? HANDAKUTEN).

(** What one iteration appends for [char] followed by the mark [mark]. *)
Definition combine (char mark : Z) : Z :=
  if mark =? DAKUTEN then addDakuten (lookup_or halfToFull char)
  else addHandakuten (lookup_or halfToFull char).

(** The output of the loop of [halfToFullKatakana] as a function of the
    input still to be read (see [halfToFullKatakana_loop_scan]). *)
Fixpoint scan (s : jsstring) : jsstring :=
  match s with
  | [] => []
  | char :: tl =>
      match tl with
      | nextChar :: tl' =>
          if is_mark nextChar then combine char nextChar :: scan tl'
          else lookup_or halfToFull char :: scan tl
      | [] => [lookup_or halfToFull char]
      end
  end.

(** [cursor_at s n]: the cursor of the loop takes the value [n] on input
    [s].  It starts at 0 and moves one unit past a unit that no mark
    follows, two units past a unit that a mark follows.  That these are
    the cursors of [loop_state], and no others, is
    [cursor_at_loop_state] and [loop_state_cursor_at]. *)
Fixpoint cursor_at (s : jsstring) (n : nat) {struct n} : bool :=
  match n with
  | O => true
  | S n' =>
      match s with
      | [] => false
      | _ :: tl =>
          match tl with
          | nextChar :: tl' =>
              if is_mark nextChar
              then match n' with O => false | S n'' => cursor_at tl' n'' end
              else cursor_at tl n'
          | [] => cursor_at tl n'
          end
      end
  end.

(** The unit [c] at the end of prefix [p], followed by the mark [m],
    contributes exactly [out] to the output: what precedes and what
    follows the pair is converted around it. *)
Definition pair_emits (p : jsstring) (c m : Z) (r : jsstring) (out : Z) : Prop :=
  exists o_p o_r,
    halfToFullKatakana r = Some o_r /\
    halfToFullKatakana (p ++ c :: m :: r) = Some (o_p ++ out :: o_r).

(** The same, and what precedes the pair is converted as it would be on
    its own. *)
Definition converts_around (p : jsstring) (c m : Z) (r : jsstring) (out : Z) : Prop :=
  exists o_p o_r,
    halfToFullKatakana p = Some o_p /\
    halfToFullKatakana r = Some o_r /\
    halfToFullKatakana (p ++ c :: m :: r) = Some (o_p ++ out :: o_r).

(** Removing a trailing run of units of the class [p]. *)
Fixpoint strip_end (p : Z -> bool) (s : jsstring) : jsstring :=
  match s with
  | [] => []
  | c :: tl => if forallb p s then [] else c :: strip_end p tl
  end.

(** Whitespace as the specification words it: the six ASCII whitespace
    characters and the full-width space. *)
Definition spec_whitespace (u : Z) : bool :=
  (u =? 0x20) || (u =? 0x09) || (u =? 0x0A) || (u =? 0x0D) || (u =? 0x0C)
  || (u =? 0x0B) || (u =? 0x3000).

(** ** The unit-level reading of the predicates

    Every single-character predicate tests the first code unit of its
    argument. *)

Definition on_first (f : Z -> bool) (char : jsstring) : bool :=
  match char with
  | u :: _ => f u
  | [] => false
  end.

Definition hiragana_unit (u : Z) : bool := class_range 0x3040 0x309f u.
Definition katakana_unit (u : Z) : bool := class_range 0x30a0 0x30ff u.
Definition kanji_unit (u : Z) : bool :=
  class_range 0x4e00 0x9faf u || class_range 0x3400 0x4dbf u
  || class_range 0x20000 0x2a6df u.

Definition japanese_unit (u : Z) : bool :=
  hiragana_unit u || katakana_unit u || kanji_unit u.

Definition is_surrogate (u : Z) : bool := is_high_surrogate u || is_low_surrogate u.

(** The half-width katakana block, marks and punctuation included. *)
Definition half_width_kana (u : Z) : bool := class_range 0xFF61 0xFF9F u.

(** ** More string primitives, for [utils/validation.ts] and
    [utils/formatting.ts] *)

(** [s.trim()]: the white space and line terminators at both ends are
    removed; they are the units of [\s]. *)
Definition trim (s : jsstring) : jsstring :=
  strip_end class_s (drop (class_run class_s s) s).

(** [a === b] on strings. *)
Definition str_eqb (a b : jsstring) : bool := bool_decide (a = b).

(** [re.test(s)] for an expression without the [g] flag: the expression
    matches at some offset, the leftmost being tried first. *)
Fixpoint test_from (re : list (list atom)) (pos : nat) (s : jsstring) : bool :=
  match match_at re pos s with
  | Some _ => true
  | None =>
      match s with
      | [] => false
      | _ :: tl => test_from re (S pos) tl
      end
  end.

Definition test (re : list (list atom)) (s : jsstring) : bool := test_from re O s.

(** [s.slice(start, end)]: a negative index counts from the end, both
    are clamped to the string, and [end] defaults to the length. *)
Definition slice_index (len : nat) (k : Z) : nat :=
  if k <? 0 then Z.to_nat (Z.max (Z.of_nat len + k) 0)
  else Nat.min (Z.to_nat k) len.

Definition slice (s : jsstring) (start : Z) (finish : option Z) : jsstring :=
  let len := length s in
  let from := slice_index len start in
  let to := match finish with Some e => slice_index len e | None => len end in
  take (to - from) (drop from s).

(** [arr.includes(x)] on an array of strings. *)
Definition includes (arr : list jsstring) (x : jsstring) : bool :=
  existsb (fun a => str_eqb a x) arr.

(** The classes [\d], [[-\s]] and [[-\s()]], and a class of one
    character. *)
Definition class_d (u : Z) : bool := class_range 0x30 0x39 u.
Definition class_hyphen_space (u : Z) : bool := (u =? 0x2D) || class_s u.
Definition class_hyphen_space_paren (u : Z) : bool :=
  (u =? 0x2D) || class_s u || (u =? 0x28) || (u =? 0x29).
Definition class_char (c : Z) (u : Z) : bool := u =? c.

(** ** [utils/validation.ts] *)

Module NameResult.
Record t := { valid : bool; errors : list string }.
End NameResult.

Module Result.
Record t := { valid : bool; error : option string }.
End Result.

Module PostalCodeResult.
Record t := { valid : bool; formatted : option jsstring; error : option string }.
End PostalCodeResult.

Inductive PhoneType := mobile | landline | unknown.

Module PhoneNumberResult.
Record t := {
  valid : bool;
  formatted : option jsstring;
  type : option PhoneType;
  error : option string
}.
End PhoneNumberResult.

(** [if (cond) errors.push(msg)]. *)
Definition push_if (cond : bool) (msg : string) (errors : list string) : list string :=
  if cond then errors ++ [msg] else errors.

Definition validateJapaneseName (familyName givenName : jsstring) : NameResult.t :=
  let errors := [] in
  let errors :=
    push_if (falsy familyName || str_eqb (trim familyName) [])
      "Family name is required" errors in
  let errors :=
    push_if (falsy givenName || str_eqb (trim givenName) [])
      "Given name is required" errors in
  let familyStats := getCharacterStats familyName in
  let givenStats := getCharacterStats givenName in
  let isFamilyJapanese :=
    Nat.eqb (hiragana familyStats + katakana familyStats + kanji familyStats)
      (total familyStats) in
  let isGivenJapanese :=
    Nat.eqb (hiragana givenStats + katakana givenStats + kanji givenStats)
      (total givenStats) in
  let errors :=
    push_if (negb isFamilyJapanese)
      "Family name must contain only Japanese characters" errors in
  let errors :=
    push_if (negb isGivenJapanese)
      "Given name must contain only Japanese characters" errors in
  let errors :=
    push_if (Nat.ltb 20 (getDisplayWidth familyName))
      "Family name is too long (max 10 characters)" errors in
  let errors :=
    push_if (Nat.ltb 20 (getDisplayWidth givenName))
      "Given name is too long (max 10 characters)" errors in
  {| NameResult.valid := Nat.eqb (length errors) 0; NameResult.errors := errors |}.

Definition validateFurigana (kanjiText furigana : jsstring) : Result.t :=
  if negb (isAllHiragana furigana) then
    {| Result.valid := false; Result.error := Some "Furigana must be hiragana only" |}
  else
    let kanjiStats := getCharacterStats kanjiText in
    if Nat.ltb (length furigana) (kanji kanjiStats) then
      {| Result.valid := false;
         Result.error := Some "Furigana seems too short for the kanji text" |}
    else {| Result.valid := true; Result.error := None |}.

(** The class [[ァ-ヴー・]]: U+30A1 to U+30F4, U+30FC and U+30FB. *)
Definition class_katakana_name (u : Z) : bool :=
  class_range 0x30A1 0x30F4 u || (u =? 0x30FC) || (u =? 0x30FB).

Definition validateKatakanaName (name : jsstring) : Result.t :=
  if falsy name || str_eqb (trim name) [] then
    {| Result.valid := false; Result.error := Some "Name is required" |}
  else
    let validPattern := [[Bol; ClassPlus class_katakana_name; Eol]] in
    if negb (test validPattern name) then
      {| Result.valid := false;
         Result.error := Some "Name must contain only katakana characters" |}
    else if Nat.ltb 40 (getDisplayWidth name) then
      {| Result.valid := false;
         Result.error := Some "Name is too long (max 20 characters)" |}
    else {| Result.valid := true; Result.error := None |}.

(** [/^\d{n}$/]. *)
Definition digits_re (n : nat) : list (list atom) :=
  [Bol :: repeat (Class class_d) n ++ [Eol]].

Definition validatePostalCode (postalCode : jsstring) : PostalCodeResult.t :=
  let cleaned := replace_global [[Class class_hyphen_space]] (fun _ => []) postalCode in
  if negb (test (digits_re 7) cleaned) then
    {| PostalCodeResult.valid := false;
       PostalCodeResult.formatted := None;
       PostalCodeResult.error := Some "Postal code must be 7 digits" |}
  else
    let formatted := slice cleaned 0 (Some 3) ++ [0x2D] ++ slice cleaned 3 None in
    {| PostalCodeResult.valid := true;
       PostalCodeResult.formatted := Some formatted;
       PostalCodeResult.error := None |}.

(** The class [[\x00-\x08\x0B\x0C\x0E-\x1F\x7F]]. *)
Definition class_control (u : Z) : bool :=
  class_range 0x00 0x08 u || (u =? 0x0B) || (u =? 0x0C)
  || class_range 0x0E 0x1F u || (u =? 0x7F).

Definition sanitizeInput (input : jsstring) : jsstring :=
  let sanitized := replace_global [[Class class_control]] (fun _ => []) input in
  let sanitized := replace_global [[Class (class_char 0x3000)]] (fun _ => [0x20]) sanitized in
  let sanitized := trim sanitized in
  sanitized.

(** A unit that [sanitizeInput] neither removes nor replaces. *)
Definition sanitized_unit (u : Z) : bool :=
  negb (class_control u) && negb (u =? 0x3000).

(** The class [[789]], [/^0[789]0\d{8}$/] and [/^0\d{9}$/]. *)
Definition class_789 (u : Z) : bool := class_range 0x37 0x39 u.

Definition mobile_re : list (list atom) :=
  [Bol :: Class (class_char 0x30) :: Class class_789 :: Class (class_char 0x30)
       :: repeat (Class class_d) 8 ++ [Eol]].

Definition landline_re : list (list atom) :=
  [Bol :: Class (class_char 0x30) :: repeat (Class class_d) 9 ++ [Eol]].

(** The strings the two expressions accept. *)
Definition mobile_shape (s : jsstring) : bool :=
  match s with
  | a :: b :: c :: rest =>
      (a =? 0x30) && class_789 b && (c =? 0x30)
      && Nat.eqb (length rest) 8 && forallb class_d rest
  | _ => false
  end.

Definition landline_shape (s : jsstring) : bool :=
  match s with
  | a :: rest => (a =? 0x30) && Nat.eqb (length rest) 9 && forallb class_d rest
  | [] => false
  end.

(** [s] cut at [i] and [j], the three parts joined by hyphens. *)
Definition hyphenated (i j : nat) (s : jsstring) : jsstring :=
  take i s ++ [0x2D] ++ take (j - i) (drop i s) ++ [0x2D] ++ drop j s.

(** [['03', '04', '06']]. *)
Definition short_area_codes : list jsstring :=
  [[0x30; 0x33]; [0x30; 0x34]; [0x30; 0x36]].

Definition validatePhoneNumber (phoneNumber : jsstring) : PhoneNumberResult.t :=
  let cleaned :=
    replace_global [[Class class_hyphen_space_paren]] (fun _ => []) phoneNumber in
  if negb (test [[Bol; ClassPlus class_d; Eol]] cleaned) then
    {| PhoneNumberResult.valid := false;
       PhoneNumberResult.formatted := None;
       PhoneNumberResult.type := None;
       PhoneNumberResult.error := Some "Phone number must contain only digits" |}
  else if test mobile_re cleaned then
    let formatted :=
      slice cleaned 0 (Some 3) ++ [0x2D] ++ slice cleaned 3 (Some 7)
      ++ [0x2D] ++ slice cleaned 7 None in
    {| PhoneNumberResult.valid := true;
       PhoneNumberResult.formatted := Some formatted;
       PhoneNumberResult.type := Some mobile;
       PhoneNumberResult.error := None |}
  else if test landline_re cleaned then
    if includes short_area_codes (slice cleaned 0 (Some 2)) then
      let formatted :=
        slice cleaned 0 (Some 2) ++ [0x2D] ++ slice cleaned 2 (Some 6)
        ++ [0x2D] ++ slice cleaned 6 None in
      {| PhoneNumberResult.valid := true;
         PhoneNumberResult.formatted := Some formatted;
         PhoneNumberResult.type := Some landline;
         PhoneNumberResult.error := None |}
    else
      let formatted :=
        slice cleaned 0 (Some 3) ++ [0x2D] ++ slice cleaned 3 (Some 6)
        ++ [0x2D] ++ slice cleaned 6 None in
      {| PhoneNumberResult.valid := true;
         PhoneNumberResult.formatted := Some formatted;
         PhoneNumberResult.type := Some landline;
         PhoneNumberResult.error := None |}
  else
    {| PhoneNumberResult.valid := false;
       PhoneNumberResult.formatted := None;
       PhoneNumberResult.type := None;
       PhoneNumberResult.error := Some "Invalid phone number format" |}.

(** ** [utils/formatting.ts] *)

(** The parameter [type: 'mobile' | 'landline' | 'auto'] of
    [formatPhoneNumber]. *)
Module PhoneFormat.
Inductive t := mobile | landline | auto.
Definition eqb (a b : t) : bool :=
  match a, b with
  | mobile, mobile | landline, landline | auto, auto => true
  | _, _ => false
  end.
End PhoneFormat.

(** [formatPhoneNumber(phoneNumber, type = 'auto')]; the two [if]
    blocks fall through to the final [return] when the length does not
    fit. *)
Definition formatPhoneNumber (phoneNumber : jsstring) (type : PhoneFormat.t) : jsstring :=
  let cleaned :=
    replace_global [[Class class_hyphen_space_paren]] (fun _ => []) phoneNumber in
  let as_mobile :=
    if PhoneFormat.eqb type PhoneFormat.mobile
       || (PhoneFormat.eqb type PhoneFormat.auto
           && test [[Bol; Class (class_char 0x30); Class class_789;
                     Class (class_char 0x30)]] cleaned)
    then
      if Nat.eqb (length cleaned) 11
      then Some (slice cleaned 0 (Some 3) ++ [0x2D] ++ slice cleaned 3 (Some 7)
                 ++ [0x2D] ++ slice cleaned 7 None)
      else None
    else None in
  match as_mobile with
  | Some formatted => formatted
  | None =>
      let as_landline :=
        if PhoneFormat.eqb type PhoneFormat.landline
           || (PhoneFormat.eqb type PhoneFormat.auto
               && test [[Bol; Class (class_char 0x30); Class class_d]] cleaned)
        then
          if Nat.eqb (length cleaned) 10
          then
            if includes short_area_codes (slice cleaned 0 (Some 2))
            then Some (slice cleaned 0 (Some 2) ++ [0x2D] ++ slice cleaned 2 (Some 6)
                       ++ [0x2D] ++ slice cleaned 6 None)
            else Some (slice cleaned 0 (Some 3) ++ [0x2D] ++ slice cleaned 3 (Some 6)
                       ++ [0x2D] ++ slice cleaned 6 None)
          else None
        else None in
      match as_landline with
      | Some formatted => formatted
      | None => phoneNumber
      end
  end.


Definition formatPostalCode (postalCode : jsstring) : jsstring :=
  let cleaned := replace_global [[Class class_hyphen_space]] (fun _ => []) postalCode in
  if Nat.eqb (length cleaned) 7
  then slice cleaned 0 (Some 3) ++ [0x2D] ++ slice cleaned 3 None
  else postalCode.

(** [truncateText(text, maxLength, ellipsis = '...')], for an integer
    [maxLength]; [None] is the omitted third argument. *)
Definition truncateText (text : jsstring) (maxLength : Z) (ellipsis : option jsstring)
  : jsstring :=
  let ellipsis := default [0x2E; 0x2E; 0x2E] ellipsis in
  if Z.of_nat (length text) <=? maxLength then text
  else slice text 0 (Some (maxLength - Z.of_nat (length ellipsis))) ++ ellipsis.

Definition normalizeForStorage (text : jsstring) : jsstring :=
  let normalized := trimJapanese text in
  let normalized :=
    replace_global [[Class (class_char 0x3000)]] (fun _ => [0x20]) normalized in
  let normalized :=
    replace_global [[ClassPlus class_s]] (fun _ => [0x20]) normalized in
  normalized.

(** Each run of units of the class [p] replaced by one space; [in_run]
    tells that the unit before was of the class. *)
Fixpoint collapse (p : Z -> bool) (in_run : bool) (s : jsstring) : jsstring :=
  match s with
  | [] => []
  | c :: tl =>
      if p c
      then if in_run then collapse p true tl else 0x20 :: collapse p true tl
      else c :: collapse p false tl
  end.

(** No two neighbouring units are both of the class [p]. *)
Fixpoint no_adjacent (p : Z -> bool) (s : jsstring) : bool :=
  match s with
  | [] => true
  | c :: tl => negb (p c && on_first p tl) && no_adjacent p tl
  end.

(** [toJapaneseNumerals(num)], for an integer [num].  The loops have no
    bound of their own; [fuel] limits the iterations and [None] means it
    was used up.  [arr[i]] past the end of an array is [undefined], which
    string concatenation renders as the text "undefined".

    The numbers of the function are IEEE 754 doubles.  [num] and
    [tempNum] hold positive integers wherever they are divided; on
    integers [%] and the comparisons are exact, and the quotient [a / b]
    is rounded to 53 significant bits, ties to even, before
    [Math.floor] is applied to it. *)
Module Numerals.

Definition digits : list jsstring :=
  [[0x3007]; [0x4E00]; [0x4E8C]; [0x4E09]; [0x56DB];
   [0x4E94]; [0x516D]; [0x4E03]; [0x516B]; [0x4E5D]].
Definition units : list jsstring := [[]; [0x5341]; [0x767E]; [0x5343]].
Definition bigUnits : list jsstring := [[]; [0x4E07]; [0x5104]; [0x5146]].

Definition undefined_text : jsstring :=
  [0x75; 0x6E; 0x64; 0x65; 0x66; 0x69; 0x6E; 0x65; 0x64].

Definition index (arr : list jsstring) (i : nat) : jsstring :=
  default undefined_text (arr !! i).

(** The integer nearest to [n / d], the even one of two that are equally
    near. *)
Definition round_half_even (n d : Z) : Z :=
  let q := n / d in
  let r := n mod d in
  if 2 * r <? d then q
  else if d <? 2 * r then q + 1
  else if Z.even q then q else q + 1.

(** The exponent [e] of the quotient: [2^e <= a / b < 2^(e+1)]. *)
Definition quotient_exponent (a b : Z) : Z :=
  let e := Z.log2 a - Z.log2 b in
  if a * 2 ^ Z.max 0 (- e) <? b * 2 ^ Z.max 0 e then e - 1 else e.

(** [Math.floor(a / b)] for positive integers [a] and [b]: the double
    [a / b] is [m * 2^s] with [m] of at most 53 bits. *)
Definition floor_div (a b : Z) : Z :=
  let s := quotient_exponent a b - 52 in
  let m := round_half_even (a * 2 ^ Z.max 0 (- s)) (b * 2 ^ Z.max 0 s) in
  if 0 <=? s then m * 2 ^ s else m / 2 ^ (- s).

(** Iterations that are enough for [num]: more than its binary length. *)
Definition loop_bound (num : Z) : nat := S (Z.to_nat (Z.log2 num)).

(** The inner [while (tempNum > 0)]. *)
Fixpoint segment_loop (fuel : nat) (tempNum : Z) (localUnitIndex : nat)
  (segmentStr : jsstring) : option jsstring :=
  if 0 <? tempNum then
    match fuel with
    | O => None
    | S fuel' =>
        let digit := tempNum mod 10 in
        let segmentStr :=
          if 0 <? digit then
            if (digit =? 1) && Nat.ltb 0 localUnitIndex
            then index units localUnitIndex ++ segmentStr
            else index digits (Z.to_nat digit) ++ index units localUnitIndex
                 ++ segmentStr
          else segmentStr in
        segment_loop fuel' (floor_div tempNum 10) (S localUnitIndex) segmentStr
    end
  else Some segmentStr.

(** The outer [while (num > 0)]. *)
Fixpoint number_loop (fuel : nat) (num : Z) (unitIndex : nat) (result : jsstring)
  : option jsstring :=
  if 0 <? num then
    match fuel with
    | O => None
    | S fuel' =>
        let segment := num mod 10000 in
        let result :=
          if 0 <? segment then
            match segment_loop (loop_bound segment) segment O [] with
            | Some segmentStr => Some (segmentStr ++ index bigUnits unitIndex ++ result)
            | None => None
            end
          else Some result in
        match result with
        | Some result => number_loop fuel' (floor_div num 10000) (S unitIndex) result
        | None => None
        end
    end
  else Some result.

(** The body after the tests for zero and for a negative number. *)
Definition positive (num : Z) : option jsstring :=
  if num <? 10 then Some (index digits (Z.to_nat num))
  else number_loop (loop_bound num) num O [].

End Numerals.

Definition toJapaneseNumerals (num : Z) : option jsstring :=
  if num =? 0 then Some [0x3007]
  else if num <? 0 then
    match Numerals.positive (- num) with
    | Some s => Some (0x2D :: s)
    | None => None
    end
  else Numerals.positive num.

(** *** Reading a Japanese numeral

    A numeral is 〇, or groups of up to four digits, each closed by 兆,
    億 or 万 in this order, the last group being closed by the end of
    the text.  Within a group 千, 百 and 十 come in this order, each
    alone (counting once) or after one of the digits 二 to 九, and a
    digit 一 to 九 for the ones may end the group.  A group is never
    empty before 兆, 億 or 万.

    The reader goes through the text from the left.  Its state is the
    sum of the closed groups, the index below which 万, 億 or 兆 may
    still come, the sum within the open group, the index below which
    十, 百 or 千 may still come, and the pending digit (0 for none).  It
    stops with [None] at the first unit that the rules above exclude. *)
Definition place (base : Z) (k : nat) : Z := base ^ Z.of_nat k.

Definition digit_value (u : Z) : option Z :=
  if u =? 0x3007 then Some 0 else if u =? 0x4E00 then Some 1
  else if u =? 0x4E8C then Some 2 else if u =? 0x4E09 then Some 3
  else if u =? 0x56DB then Some 4 else if u =? 0x4E94 then Some 5
  else if u =? 0x516D then Some 6 else if u =? 0x4E03 then Some 7
  else if u =? 0x516B then Some 8 else if u =? 0x4E5D then Some 9
  else None.

(** 十, 百, 千 stand for 10^1, 10^2, 10^3. *)
Definition unit_index (u : Z) : option nat :=
  if u =? 0x5341 then Some 1%nat else if u =? 0x767E then Some 2%nat
  else if u =? 0x5343 then Some 3%nat else None.

(** 万, 億, 兆 stand for 10000^1, 10000^2, 10000^3. *)
Definition big_unit_index (u : Z) : option nat :=
  if u =? 0x4E07 then Some 1%nat else if u =? 0x5104 then Some 2%nat
  else if u =? 0x5146 then Some 3%nat else None.

Definition reading : Type := Z * nat * Z * nat * Z.

Definition numeral_step (st : reading) (u : Z) : option reading :=
  let '(closed, big, group, small, pending) := st in
  match digit_value u, unit_index u, big_unit_index u with
  | Some d, _, _ =>
      if (0 <? d) && (pending =? 0)
      then Some (closed, big, group, small, d)
      else None
  | None, Some l, _ =>
      if Nat.ltb l small && negb (pending =? 1)
      then Some (closed, big,
                 group + (if pending =? 0 then 1 else pending) * place 10 l, l, 0)
      else None
  | None, None, Some i =>
      if Nat.ltb i big && (0 <? group + pending)
      then Some (closed + (group + pending) * place 10000 i, i, 0, 4%nat, 0)
      else None
  | None, None, None => None
  end.

Fixpoint numeral_read (s : jsstring) (st : reading) : option reading :=
  match s with
  | [] => Some st
  | u :: tl =>
      match numeral_step st u with
      | Some st' => numeral_read tl st'
      | None => None
      end
  end.

Definition numeral_sum (st : reading) : Z :=
  let '(closed, _, group, _, pending) := st in closed + group + pending.

(** The number that [s] denotes, [None] when [s] is no numeral. *)
Definition numeral_value (s : jsstring) : option Z :=
  if str_eqb s [0x3007] then Some 0
  else if falsy s then None
  else option_map numeral_sum (numeral_read s (0, 4%nat, 0, 4%nat, 0)).

(** [str] reads as the part of one group below 10^[l], worth [v], and
    [str] reads as the groups below 10000^[i], worth [v], whatever was
    read before. *)
Definition reads_group (str : jsstring) (v : Z) (l : nat) : Prop :=
  exists hi lo,
    hi + lo = v /\
    forall closed big group small,
      (l <= small)%nat ->
      exists small',
        numeral_read str (closed, big, group, small, 0)
        = Some (closed, big, group + hi, small', lo).

Definition reads_number (str : jsstring) (v : Z) (i : nat) : Prop :=
  forall closed big,
    (i <= big)%nat ->
    exists st,
      numeral_read str (closed, big, 0, 4%nat, 0) = Some st /\
      numeral_sum st = closed + v.

Example test_toJapaneseNumerals_12345 :
  toJapaneseNumerals 12345
  = Some [0x4E00; 0x4E07; 0x4E8C; 0x5343; 0x4E09; 0x767E; 0x56DB; 0x5341; 0x4E94].
Proof. vm_compute. reflexivity. Qed.

Example test_toJapaneseNumerals_110 :
  toJapaneseNumerals 110 = Some [0x767E; 0x5341].
Proof. vm_compute. reflexivity. Qed.

Example test_toJapaneseNumerals_negative :
  toJapaneseNumerals (-20) = Some [0x2D; 0x4E8C; 0x5341].
Proof. vm_compute. reflexivity. Qed.

Example test_toJapaneseNumerals_large :
  toJapaneseNumerals 9007199254740991
  = Some [0x4E5D; 0x5343; 0x4E03; 0x5146;
          0x5343; 0x4E5D; 0x767E; 0x4E5D; 0x5341; 0x4E8C; 0x5104;
          0x4E94; 0x5343; 0x56DB; 0x767E; 0x4E03; 0x5341; 0x56DB; 0x4E07;
          0x4E5D; 0x767E; 0x4E5D; 0x5341; 0x4E00].
Proof. vm_compute. reflexivity. Qed.

(** Above 2^53 the quotient by 10000 is rounded: the exact quotient of
    the number below ends in 4416, the double in 4417; [bigUnits[4]] is
    [undefined]. *)
Example test_toJapaneseNumerals_rounding :
  toJapaneseNumerals 175921860444169984
  = Some ([0x5341; 0x4E03] ++ Numerals.undefined_text ++
          [0x4E94; 0x5343; 0x4E5D; 0x767E; 0x4E8C; 0x5341; 0x4E00; 0x5146;
           0x516B; 0x5343; 0x516D; 0x767E; 0x56DB; 0x5104;
           0x56DB; 0x5343; 0x56DB; 0x767E; 0x5341; 0x4E03; 0x4E07;
           0x4E5D; 0x5343; 0x4E5D; 0x767E; 0x516B; 0x5341; 0x56DB]).
Proof. vm_compute. reflexivity. Qed.

(** 一万二千三百四十五, 千一 and 〇 are numerals. *)
Example test_numeral_value :
  numeral_value [0x4E00; 0x4E07; 0x4E8C; 0x5343; 0x4E09; 0x767E; 0x56DB; 0x5341; 0x4E94]
  = Some 12345 /\
  numeral_value [0x5343; 0x4E00] = Some 1001 /\
  numeral_value [0x3007] = Some 0.
Proof. repeat split; vm_compute; reflexivity. Qed.

(** The empty text, 一十, 九一十, 十百, 一億万, 万, 〇一 and a
    numeral around other text are not. *)
Example test_numeral_value_rejects :
  numeral_value [] = None /\
  numeral_value [0x4E00; 0x5341] = None /\
  numeral_value [0x4E5D; 0x4E00; 0x5341] = None /\
  numeral_value [0x5341; 0x767E] = None /\
  numeral_value [0x4E00; 0x5104; 0x4E07] = None /\
  numeral_value [0x4E07] = None /\
  numeral_value [0x3007; 0x4E00] = None /\
  numeral_value (Numerals.undefined_text ++ [0x5341; 0x41; 0x42]) = None.
Proof. repeat split; vm_compute; reflexivity. Qed.

(** ** Test vectors of the repository, as code units *)

Example test_hiraganaToKatakana :
  hiraganaToKatakana [0x306B; 0x307B; 0x3093; 0x3054] = [0x30CB; 0x30DB; 0x30F3; 0x30B4].
Proof. reflexivity. Qed.

Example test_halfToFullKatakana_plain :
  halfToFullKatakana [0xFF71; 0xFF72; 0xFF73; 0x41; 0x42; 0x43]
  = Some [0x30A2; 0x30A4; 0x30A6; 0x41; 0x42; 0x43].
Proof. vm_compute. reflexivity. Qed.

Example test_halfToFullKatakana_katakana :
  halfToFullKatakana [0xFF76; 0xFF80; 0xFF76; 0xFF85]
  = Some [0x30AB; 0x30BF; 0x30AB; 0x30CA].
Proof. vm_compute. reflexivity. Qed.

Example test_getCharacterStats :
  getCharacterStats [0x3042; 0x30A2; 0x41; 0x6F22]
  = {| total := 4; hiragana := 1; katakana := 1; kanji := 1;
       fullWidth := 3; halfWidth := 1; displayWidth := 7 |}.
Proof. reflexivity. Qed.

Example test_trimJapanese :
  trimJapanese [0x3000; 0x3000; 0x3042; 0x3044; 0x3046; 0x3000; 0x3000]
  = [0x3042; 0x3044; 0x3046].
Proof. reflexivity. Qed.

Example test_trimJapanese_interior :
  trimJapanese [0x20; 0x20; 0x61; 0x20; 0x62; 0x20; 0x63; 0x20; 0x20]
  = [0x61; 0x20; 0x62; 0x20; 0x63].
Proof. reflexivity. Qed.

Example test_extractKanji :
  extractKanji [0x3042; 0x30A2; 0x6F22; 0x5B57; 0x41] = [0x6F22; 0x5B57].
Proof. reflexivity. Qed.

Example test_removeAllWhitespace :
  removeAllWhitespace [0x61; 0x09; 0x62; 0x0A; 0x63] = [0x61; 0x62; 0x63].
Proof. reflexivity. Qed.

(** ** Facts about the string primitives *)

(** Induction that follows the one-or-two-unit steps of [spread] and
    [scan]. *)
Lemma list_pair_ind {A : Type} (P : list A -> Prop) :
  P [] ->
  (forall c, P [c]) ->
  (forall c d tl, P tl -> P (d :: tl) -> P (c :: d :: tl)) ->
  forall s, P s.
Proof.
  intros Hnil Hone Hstep s.
  assert (H : P s /\ forall c, P (c :: s)).
  { induction s as [|d tl [IH1 IH2]].
    - split; [exact Hnil | exact Hone].
    - split; [apply IH2 | intros c; apply Hstep; [exact IH1 | apply IH2]]. }
  exact (proj1 H).
Qed.

Section Spread.

Lemma spread_nonempty (s : jsstring) : Forall (fun c : jsstring => c <> []) (spread s).
Proof.
  induction s as [|c|c d tl IHtl IHd] using list_pair_ind.
  - constructor.
  - repeat constructor. discriminate.
  - change (spread (c :: d :: tl))
      with (if is_high_surrogate c && is_low_surrogate d
            then [c; d] :: spread tl else [c] :: spread (d :: tl)).
    destruct (is_high_surrogate c && is_low_surrogate d);
      constructor; try discriminate; assumption.
Qed.

Lemma spread_join (s : jsstring) : join (spread s) = s.
Proof.
  induction s as [|c|c d tl IHtl IHd] using list_pair_ind.
  - reflexivity.
  - reflexivity.
  - change (spread (c :: d :: tl))
      with (if is_high_surrogate c && is_low_surrogate d
            then [c; d] :: spread tl else [c] :: spread (d :: tl)).
    unfold join in *.
    destruct (is_high_surrogate c && is_low_surrogate d); cbn [concat app].
    + rewrite IHtl. reflexivity.
    + rewrite IHd. reflexivity.
Qed.

Lemma scalar_not_high (cp : Z) : is_scalar cp -> cp < 0x10000 -> is_high_surrogate cp = false.
Proof. unfold is_scalar, is_high_surrogate. intros [H|H] Hlt; lia. Qed.

(** The iterator undoes the encoding of one scalar value, whatever
    follows it. *)
Lemma spread_utf16 (cp : Z) (rest : jsstring) :
  is_scalar cp -> spread (utf16 cp ++ rest) = utf16 cp :: spread rest.
Proof.
  intros Hcp. unfold utf16. destruct (cp <? 0x10000) eqn:Hlt.
  - apply Z.ltb_lt in Hlt. pose proof (scalar_not_high cp Hcp Hlt) as Hh.
    destruct rest as [|d tl]; [reflexivity|].
    change (spread ([cp] ++ d :: tl)) with
      (if is_high_surrogate cp && is_low_surrogate d
       then [cp; d] :: spread tl else [cp] :: spread (d :: tl)).
    rewrite Hh. reflexivity.
  - apply Z.ltb_ge in Hlt.
    assert (Hrange : 0x10000 <= cp <= 0x10FFFF) by (unfold is_scalar in Hcp; lia).
    set (v := cp - 0x10000).
    assert (Hq : 0 <= v / 0x400 <= 0x3FF).
    { split; [apply Z.div_pos; subst v; lia|].
      apply Z.lt_succ_r. apply Z.div_lt_upper_bound; subst v; lia. }
    assert (Hr : 0 <= v mod 0x400 < 0x400) by (apply Z.mod_pos_bound; lia).
    change (spread ([0xD800 + v / 0x400; 0xDC00 + v mod 0x400] ++ rest)) with
      (if is_high_surrogate (0xD800 + v / 0x400) && is_low_surrogate (0xDC00 + v mod 0x400)
       then [0xD800 + v / 0x400; 0xDC00 + v mod 0x400] :: spread rest
       else [0xD800 + v / 0x400] :: spread ((0xDC00 + v mod 0x400) :: rest)).
    replace (is_high_surrogate (0xD800 + v / 0x400)) with true
      by (unfold is_high_surrogate; lia).
    replace (is_low_surrogate (0xDC00 + v mod 0x400)) with true
      by (unfold is_low_surrogate; lia).
    reflexivity.
Qed.

Lemma spread_utf16_string (cps : list Z) :
  Forall is_scalar cps -> spread (utf16_string cps) = map utf16 cps.
Proof.
  induction 1 as [|cp cps Hcp _ IH]; [reflexivity|].
  unfold utf16_string in *. simpl. rewrite spread_utf16 by assumption.
  rewrite IH. reflexivity.
Qed.

End Spread.

Section Replace.

Variable f : jsstring -> jsstring.

(** A one-class expression rewrites the string unit by unit. *)
Lemma replace_from_class (p : Z -> bool) (s : jsstring) :
  forall pos,
    replace_from [[Class p]] f pos O s
    = flat_map (fun c => if p c then f [c] else [c]) s.
Proof.
  induction s as [|c tl IH]; intros pos; [reflexivity|].
  simpl. destruct (p c); simpl; rewrite IH; reflexivity.
Qed.

(** Dropping the rest of a match. *)
Lemma replace_from_skip (re : regex) (s1 s2 : jsstring) :
  forall pos,
    replace_from re f pos (length s1) (s1 ++ s2)
    = replace_from re f (pos + length s1)%nat O s2.
Proof.
  induction s1 as [|c tl IH]; intros pos.
  - simpl. rewrite Nat.add_0_r. reflexivity.
  - simpl. rewrite IH. f_equal. lia.
Qed.

End Replace.

(** ** The trimming expression *)

Section Trim.

Variable p : Z -> bool.

Lemma class_run_le (s : jsstring) : (class_run p s <= length s)%nat.
Proof. induction s as [|c tl IH]; simpl; [lia|]. destruct (p c); simpl; lia. Qed.

Lemma class_run_all (s : jsstring) :
  Nat.eqb (class_run p s) (length s) = forallb p s.
Proof.
  induction s as [|c tl IH]; [reflexivity|].
  simpl. destruct (p c); simpl; [exact IH | reflexivity].
Qed.

Lemma class_run_drop (s : jsstring) : class_run p (drop (class_run p s) s) = O.
Proof.
  induction s as [|c tl IH]; [reflexivity|].
  simpl. destruct (p c) eqn:Hc; simpl; [exact IH | rewrite Hc; reflexivity].
Qed.

Lemma give_back_always (k : nat) :
  give_back (fun _ => Some O) k = match k with O => None | S _ => Some k end.
Proof. destruct k; simpl; [reflexivity | f_equal; lia]. Qed.

(** Before [$], a run that stops short of the end never matches, however
    many units it gives back. *)
Lemma give_back_eol_short (pos : nat) (rest : jsstring) (k : nat) :
  (k < length rest)%nat ->
  give_back (fun k => match_seq [Eol] (pos + k)%nat (drop k rest)) k = None.
Proof.
  induction k as [|k IH]; intros Hk; [reflexivity|].
  simpl give_back.
  destruct (drop (S k) rest) eqn:Hd.
  - apply (f_equal length) in Hd. rewrite length_drop in Hd. simpl in Hd. lia.
  - simpl. apply IH. lia.
Qed.

Lemma give_back_eol_full (pos : nat) (rest : jsstring) :
  rest <> [] ->
  give_back (fun k => match_seq [Eol] (pos + k)%nat (drop k rest)) (length rest)
  = Some (length rest).
Proof.
  intros Hne. destruct rest as [|c tl]; [congruence|].
  simpl length. simpl give_back. rewrite drop_all. simpl. f_equal. lia.
Qed.

(** The leading alternative matches a non-empty run at offset 0, the
    trailing one a non-empty run that reaches the end. *)
Lemma match_at_trim (pos : nat) (s : jsstring) :
  match_at (trim_re p) pos s
  = match class_run p s with
    | O => None
    | S n => if Nat.eqb pos 0 || forallb p s then Some (S n) else None
    end.
Proof.
  unfold trim_re.
  change (match_at [[Bol; ClassPlus p]; [ClassPlus p; Eol]] pos s) with
    (match (if Nat.eqb pos 0 then give_back (fun _ => Some O) (class_run p s) else None) with
     | Some m => Some m
     | None =>
         match give_back (fun k => match_seq [Eol] (pos + k)%nat (drop k s)) (class_run p s) with
         | Some m => Some m
         | None => None
         end
     end).
  rewrite give_back_always.
  destruct (class_run p s) as [|n] eqn:Hrun.
  - destruct (Nat.eqb pos 0); reflexivity.
  - destruct (Nat.eqb pos 0); [reflexivity|]. simpl orb.
    rewrite <- class_run_all, Hrun.
    destruct (Nat.eqb (S n) (length s)) eqn:Hall.
    + apply Nat.eqb_eq in Hall. rewrite Hall.
      rewrite give_back_eol_full; [reflexivity|].
      intros ->. simpl in Hall. lia.
    + apply Nat.eqb_neq in Hall. pose proof (class_run_le s) as Hle.
      rewrite give_back_eol_short by lia. reflexivity.
Qed.

Lemma replace_from_cons (re : list (list atom)) (f : jsstring -> jsstring)
  (pos : nat) (c : Z) (tl : jsstring) :
  replace_from re f pos O (c :: tl)
  = match match_at re pos (c :: tl) with
    | Some (S n) => f (take (S n) (c :: tl)) ++ replace_from re f (S pos) n tl
    | Some O => f [] ++ c :: replace_from re f (S pos) O tl
    | None => c :: replace_from re f (S pos) O tl
    end.
Proof. reflexivity. Qed.

Lemma strip_end_cons (c : Z) (tl : jsstring) :
  strip_end p (c :: tl) = if forallb p (c :: tl) then [] else c :: strip_end p tl.
Proof. reflexivity. Qed.

Lemma replace_from_trim_nil (pos : nat) :
  replace_from (trim_re p) (fun _ => []) pos O [] = [].
Proof.
  change (replace_from (trim_re p) (fun _ => []) pos O [])
    with (match match_at (trim_re p) pos [] with Some _ => @nil Z | None => [] end).
  destruct (match_at (trim_re p) pos []); reflexivity.
Qed.

(** Away from offset 0 only the trailing alternative can match. *)
Lemma replace_from_trim_inner (s : jsstring) :
  forall pos, pos <> O ->
    replace_from (trim_re p) (fun _ => []) pos O s = strip_end p s.
Proof.
  induction s as [|c tl IH]; intros pos Hpos; [apply replace_from_trim_nil|].
  rewrite replace_from_cons, match_at_trim.
  apply Nat.eqb_neq in Hpos. rewrite Hpos, orb_false_l.
  destruct (class_run p (c :: tl)) as [|n] eqn:Hrun.
  - assert (Hall : forallb p (c :: tl) = false).
    { rewrite <- class_run_all, Hrun. reflexivity. }
    rewrite strip_end_cons, Hall. rewrite IH by lia. reflexivity.
  - destruct (forallb p (c :: tl)) eqn:Hall.
    + rewrite strip_end_cons, Hall.
      rewrite <- class_run_all, Hrun in Hall. apply Nat.eqb_eq in Hall.
      simpl in Hall. injection Hall as ->.
      pose proof (replace_from_skip (fun _ => []) (trim_re p) tl [] (S pos)) as Hskip.
      rewrite app_nil_r in Hskip. rewrite Hskip.
      rewrite replace_from_trim_nil. reflexivity.
    + rewrite strip_end_cons, Hall. rewrite IH by lia. reflexivity.
Qed.

(** The whole replacement: drop the leading run, then the trailing one. *)
Lemma replace_global_trim (s : jsstring) :
  replace_global (trim_re p) (fun _ => []) s
  = strip_end p (drop (class_run p s) s).
Proof.
  unfold replace_global. destruct s as [|c tl]; [apply replace_from_trim_nil|].
  rewrite replace_from_cons, match_at_trim. simpl orb.
  destruct (class_run p (c :: tl)) as [|n] eqn:Hrun.
  - rewrite replace_from_trim_inner by lia.
    assert (Hall : forallb p (c :: tl) = false).
    { rewrite <- class_run_all, Hrun. reflexivity. }
    simpl drop. rewrite strip_end_cons, Hall. reflexivity.
  - simpl drop. simpl app.
    assert (Hn : (n <= length tl)%nat).
    { pose proof (class_run_le (c :: tl)) as Hle. rewrite Hrun in Hle. simpl in Hle. lia. }
    rewrite <- (take_drop n tl) at 1.
    replace n with (length (take n tl)) at 1 by (rewrite length_take; lia).
    rewrite replace_from_skip. apply replace_from_trim_inner. lia.
Qed.

Lemma strip_end_nil_inv (s : jsstring) : strip_end p s = [] -> forallb p s = true.
Proof.
  destruct s as [|c tl]; [reflexivity|].
  rewrite strip_end_cons. destruct (forallb p (c :: tl)); [reflexivity | discriminate].
Qed.

(** What is left after stripping ends with a unit outside the class. *)
Lemma strip_end_all_inv (s : jsstring) :
  forallb p (strip_end p s) = true -> strip_end p s = [].
Proof.
  induction s as [|c tl IH]; [reflexivity|].
  rewrite strip_end_cons. destruct (forallb p (c :: tl)) eqn:Hall; [reflexivity|].
  intros H. simpl in H. apply andb_true_iff in H as [Hc Htl].
  apply IH in Htl. apply strip_end_nil_inv in Htl.
  simpl in Hall. rewrite Hc, Htl in Hall. discriminate.
Qed.

Lemma strip_end_idem (s : jsstring) : strip_end p (strip_end p s) = strip_end p s.
Proof.
  induction s as [|c tl IH]; [reflexivity|].
  rewrite (strip_end_cons c tl). destruct (forallb p (c :: tl)) eqn:Hall; [reflexivity|].
  rewrite strip_end_cons. simpl forallb.
  destruct (p c && forallb p (strip_end p tl)) eqn:H.
  - apply andb_true_iff in H as [Hc Htl].
    apply strip_end_all_inv, strip_end_nil_inv in Htl.
    simpl in Hall. rewrite Hc, Htl in Hall. discriminate.
  - rewrite IH. reflexivity.
Qed.

Lemma strip_end_run (s : jsstring) :
  class_run p s = O -> class_run p (strip_end p s) = O.
Proof.
  destruct s as [|c tl]; [reflexivity|].
  simpl. destruct (p c) eqn:Hc; [discriminate|]. simpl. rewrite Hc. reflexivity.
Qed.

Lemma replace_global_trim_idem (s : jsstring) :
  replace_global (trim_re p) (fun _ => []) (replace_global (trim_re p) (fun _ => []) s)
  = replace_global (trim_re p) (fun _ => []) s.
Proof.
  rewrite !replace_global_trim.
  rewrite strip_end_run by apply class_run_drop.
  simpl drop. apply strip_end_idem.
Qed.

End Trim.

(** ** The loop of [halfToFullKatakana] *)

Section Katakana.

Lemma is_mark_next (d : Z) :
  is_char (Some d) DAKUTEN || is_char (Some d) HANDAKUTEN = is_mark d.
Proof. reflexivity. Qed.

Lemma lookup_next (pre : jsstring) (c : Z) (tl : jsstring) :
  (pre ++ c :: tl) !! (length pre + 1)%nat = tl !! O.
Proof.
  rewrite lookup_app_r by lia.
  replace (length pre + 1 - length pre)%nat with 1%nat by lia. reflexivity.
Qed.

(** The body at the last unit, at a unit before a mark and at a unit
    before another unit. *)
Lemma loop_body_last (pre : jsstring) (c : Z) (result : jsstring) :
  loop_body (pre ++ [c]) (length pre) c result
  = (length pre, result ++ [lookup_or halfToFull c]).
Proof. unfold loop_body. rewrite lookup_next. reflexivity. Qed.

Lemma loop_body_pair (pre : jsstring) (c d : Z) (tl result : jsstring) :
  loop_body (pre ++ c :: d :: tl) (length pre) c result
  = if is_mark d
    then ((length pre + 1)%nat, result ++ [combine c d])
    else (length pre, result ++ [lookup_or halfToFull c]).
Proof.
  unfold loop_body. rewrite lookup_next.
  change ((d :: tl) !! O) with (Some d). rewrite is_mark_next.
  destruct (is_mark d); [|reflexivity].
  unfold combine, is_char. destruct (d =? DAKUTEN); reflexivity.
Qed.

(** From cursor [length pre] the loop appends [scan rest], as soon as it
    may run once per unit still to be read. *)
Lemma halfToFullKatakana_loop_scan (fuel : nat) :
  forall (pre rest result : jsstring),
    (length rest <= fuel)%nat ->
    halfToFullKatakana_loop fuel (pre ++ rest) (length pre) result
    = Some (result ++ scan rest).
Proof.
  induction fuel as [|fuel IH]; intros pre rest result Hfuel.
  - destruct rest as [|c tl]; [|simpl in Hfuel; lia].
    simpl. rewrite !app_nil_r, lookup_ge_None_2 by lia. reflexivity.
  - destruct rest as [|c tl].
    + simpl. rewrite !app_nil_r, lookup_ge_None_2 by lia. reflexivity.
    + simpl halfToFullKatakana_loop. rewrite list_lookup_middle by reflexivity.
      simpl in Hfuel. destruct tl as [|d tl'].
      * rewrite loop_body_last.
        specialize (IH (pre ++ [c]) [] (result ++ [lookup_or halfToFull c])).
        rewrite length_app, app_nil_r in IH. simpl length in IH.
        rewrite IH by (simpl; lia). rewrite app_nil_r. reflexivity.
      * rewrite loop_body_pair.
        change (scan (c :: d :: tl')) with
          (if is_mark d then combine c d :: scan tl'
           else lookup_or halfToFull c :: scan (d :: tl')).
        destruct (is_mark d) eqn:Hmark.
        -- specialize (IH (pre ++ [c; d]) tl' (result ++ [combine c d])).
           rewrite length_app, <- app_assoc in IH. simpl in IH.
           replace (length pre + 1 + 1)%nat with (length pre + 2)%nat by lia.
           rewrite IH by (simpl in Hfuel; lia).
           rewrite <- app_assoc. reflexivity.
        -- specialize (IH (pre ++ [c]) (d :: tl') (result ++ [lookup_or halfToFull c])).
           rewrite length_app, <- app_assoc in IH. simpl in IH.
           rewrite IH by (simpl in Hfuel |- *; lia).
           rewrite <- app_assoc. reflexivity.
Qed.

(** One iteration per code unit is enough: the function returns, and its
    result is [scan] of the input. *)
Lemma halfToFullKatakana_scan (text : jsstring) :
  halfToFullKatakana text = Some (scan text).
Proof.
  unfold halfToFullKatakana.
  exact (halfToFullKatakana_loop_scan (length text) [] text [] (le_n _)).
Qed.

Lemma scan_cons2 (c d : Z) (tl : jsstring) :
  scan (c :: d :: tl)
  = if is_mark d then combine c d :: scan tl
    else lookup_or halfToFull c :: scan (d :: tl).
Proof. reflexivity. Qed.

Lemma cursor_at_cons2 (c d : Z) (tl : jsstring) (n : nat) :
  cursor_at (c :: d :: tl) (S n)
  = if is_mark d
    then match n with O => false | S n' => cursor_at tl n' end
    else cursor_at (d :: tl) n.
Proof. reflexivity. Qed.

(** The output splits at every offset the cursor takes: the loop is in
    state [(n, scan (take n text))] when the cursor is [n]. *)
Lemma scan_split_at_cursor (text : jsstring) :
  forall n, (n <= length text)%nat -> cursor_at text n = true ->
    scan text = scan (take n text) ++ scan (drop n text).
Proof.
  induction text as [|a|a b tl IHtl IHb] using list_pair_ind; intros n Hn Hcur.
  - destruct n; [reflexivity | simpl in Hn; lia].
  - destruct n as [|[|n]]; [reflexivity | reflexivity | simpl in Hn; lia].
  - destruct n as [|n]; [reflexivity|].
    rewrite cursor_at_cons2 in Hcur. rewrite scan_cons2.
    destruct (is_mark b) eqn:Hb.
    + destruct n as [|n]; [discriminate|].
      simpl take. simpl drop. rewrite scan_cons2, Hb.
      rewrite (IHtl n) at 1 by (simpl in Hn; (lia || assumption)).
      reflexivity.
    + rewrite (IHb n) at 1 by (simpl in Hn |- *; (lia || assumption)).
      destruct n as [|n]; [reflexivity|].
      simpl take. simpl drop. rewrite scan_cons2, Hb. reflexivity.
Qed.

Lemma loop_state_step (k : nat) (pre : jsstring) (c : Z) (tl result : jsstring) :
  loop_state (S k) (pre ++ c :: tl) (length pre) result
  = let '(i', result') := loop_body (pre ++ c :: tl) (length pre) c result in
    loop_state k (pre ++ c :: tl) (i' + 1)%nat result'.
Proof. simpl. rewrite list_lookup_middle by reflexivity. reflexivity. Qed.

(** [cursor_at] describes the loop: after any number of iterations the
    cursor is at an offset [n] with [cursor_at rest n], and the output
    built so far is the conversion of the [n] units read. *)
Lemma loop_state_cursor_at (k : nat) :
  forall (pre rest result : jsstring),
    exists n,
      loop_state k (pre ++ rest) (length pre) result
      = ((length pre + n)%nat, result ++ scan (take n rest)) /\
      cursor_at rest n = true /\ (n <= length rest)%nat.
Proof.
  induction k as [|k IH]; intros pre rest result.
  - exists O. simpl. rewrite Nat.add_0_r, app_nil_r. repeat split; lia.
  - destruct rest as [|c [|d tl]].
    + exists O. simpl. rewrite !app_nil_r, lookup_ge_None_2 by lia.
      rewrite Nat.add_0_r. repeat split; lia.
    + rewrite loop_state_step, loop_body_last.
      destruct (IH (pre ++ [c]) [] (result ++ [lookup_or halfToFull c]))
        as (n & Hst & _ & Hn).
      simpl in Hn. assert (n = O) by lia. subst n.
      rewrite app_nil_r, length_app in Hst. simpl in Hst.
      exists 1%nat. rewrite Hst. simpl.
      rewrite app_nil_r. repeat split; try lia. f_equal. lia.
    + rewrite loop_state_step, loop_body_pair.
      destruct (is_mark d) eqn:Hd.
      * destruct (IH (pre ++ [c; d]) tl (result ++ [combine c d]))
          as (n & Hst & Hcur & Hn).
        rewrite <- app_assoc, length_app in Hst. simpl in Hst.
        exists (S (S n)).
        replace (length pre + 1 + 1)%nat with (length pre + 2)%nat by lia.
        rewrite Hst, cursor_at_cons2, Hd.
        simpl take. rewrite scan_cons2, Hd, <- app_assoc. simpl.
        repeat split; try assumption; try lia. f_equal. lia.
      * destruct (IH (pre ++ [c]) (d :: tl) (result ++ [lookup_or halfToFull c]))
          as (n & Hst & Hcur & Hn).
        rewrite <- app_assoc, length_app in Hst. simpl in Hst.
        exists (S n). rewrite Hst, cursor_at_cons2, Hd, <- app_assoc.
        repeat split; try assumption; try (simpl in Hn |- *; lia).
        f_equal; [lia|]. f_equal.
        destruct n as [|n]; [reflexivity|].
        simpl take. rewrite scan_cons2, Hd. reflexivity.
Qed.

(** Conversely, the loop reaches every offset that [cursor_at] allows. *)
Lemma cursor_at_loop_state (rest : jsstring) :
  forall (n : nat) (pre result : jsstring),
    (n <= length rest)%nat -> cursor_at rest n = true ->
    exists k,
      loop_state k (pre ++ rest) (length pre) result
      = ((length pre + n)%nat, result ++ scan (take n rest)).
Proof.
  induction rest as [|a|a b tl IHtl IHb] using list_pair_ind;
    intros n pre result Hn Hcur.
  - exists O. simpl in Hn. assert (n = O) by lia. subst n.
    simpl. rewrite Nat.add_0_r, app_nil_r. reflexivity.
  - destruct n as [|n].
    + exists O. simpl. rewrite Nat.add_0_r, app_nil_r. reflexivity.
    + simpl in Hn. assert (n = O) by lia. subst n.
      exists 1%nat. rewrite loop_state_step, loop_body_last. reflexivity.
  - destruct n as [|n].
    + exists O. simpl. rewrite Nat.add_0_r, app_nil_r. reflexivity.
    + rewrite cursor_at_cons2 in Hcur.
      destruct (is_mark b) eqn:Hb.
      * destruct n as [|n]; [discriminate|].
        destruct (IHtl n (pre ++ [a; b]) (result ++ [combine a b])) as (k & Hst);
          [simpl in Hn; lia | assumption |].
        rewrite <- app_assoc, length_app in Hst. simpl in Hst.
        exists (S k). rewrite loop_state_step, loop_body_pair, Hb.
        replace (length pre + 1 + 1)%nat with (length pre + 2)%nat by lia.
        rewrite Hst. simpl take. rewrite scan_cons2, Hb, <- app_assoc. simpl.
        f_equal. lia.
      * destruct (IHb n (pre ++ [a]) (result ++ [lookup_or halfToFull a])) as (k & Hst);
          [simpl in Hn |- *; lia | assumption |].
        rewrite <- app_assoc, length_app in Hst. simpl in Hst.
        exists (S k). rewrite loop_state_step, loop_body_pair, Hb.
        rewrite Hst, <- app_assoc. f_equal; [lia|]. f_equal.
        destruct n as [|n]; [reflexivity|].
        simpl take. rewrite scan_cons2, Hb. reflexivity.
Qed.

(** A unit that is not a mark is never skipped. *)
Lemma cursor_at_non_mark (p : jsstring) :
  forall (c : Z) (rest : jsstring),
    is_mark c = false -> cursor_at (p ++ c :: rest) (length p) = true.
Proof.
  induction p as [|a|a b tl IHtl IHb] using list_pair_ind; intros c rest Hc.
  - reflexivity.
  - simpl app. simpl length. rewrite cursor_at_cons2, Hc. reflexivity.
  - simpl app. simpl length. rewrite cursor_at_cons2.
    destruct (is_mark b); [apply IHtl | apply (IHb c rest)]; assumption.
Qed.

(** A pair under the cursor is converted on its own. *)
Lemma scan_pair_at_cursor (p : jsstring) (c m : Z) (r : jsstring) :
  is_mark m = true ->
  cursor_at (p ++ c :: m :: r) (length p) = true ->
  scan (p ++ c :: m :: r) = scan p ++ combine c m :: scan r.
Proof.
  intros Hm Hcur.
  rewrite (scan_split_at_cursor _ (length p)); [|rewrite length_app; lia|assumption].
  rewrite take_app_length, drop_app_length, scan_cons2, Hm. reflexivity.
Qed.

Lemma pair_emits_at_cursor (p : jsstring) (c m : Z) (r : jsstring) :
  is_mark m = true ->
  cursor_at (p ++ c :: m :: r) (length p) = true ->
  pair_emits p c m r (combine c m).
Proof.
  intros Hm Hcur. exists (scan p), (scan r).
  rewrite !halfToFullKatakana_scan, scan_pair_at_cursor by assumption.
  split; reflexivity.
Qed.

(** A unit that has a voiced or semi-voiced form is not a mark. *)
Lemma combining_entry_non_mark (c m v : Z) :
  combining_entry m (lookup_or halfToFull c) = Some v -> is_mark c = false.
Proof.
  intros H. destruct (is_mark c) eqn:Hc; [|reflexivity].
  unfold is_mark in Hc. apply orb_true_iff in Hc as [Hc|Hc];
    apply Z.eqb_eq in Hc; subst c; unfold combining_entry in H;
    destruct (m =? DAKUTEN); vm_compute in H; discriminate.
Qed.

Lemma combine_entry (c m : Z) :
  combine c m = default (lookup_or halfToFull c) (combining_entry m (lookup_or halfToFull c)).
Proof.
  unfold combine, combining_entry, addDakuten, addHandakuten, lookup_or.
  destruct (m =? DAKUTEN); reflexivity.
Qed.

End Katakana.

(** ** Classification and counting *)

Section Classifier.

Lemma isHiragana_unit (u : Z) (tl : jsstring) :
  isHiragana (u :: tl) = true <-> 0x3040 <= u <= 0x309f.
Proof.
  unfold isHiragana. simpl. rewrite andb_true_iff, !Z.leb_le. tauto.
Qed.

Lemma isKatakana_unit (u : Z) (tl : jsstring) :
  isKatakana (u :: tl) = true <-> 0x30a0 <= u <= 0x30ff.
Proof.
  unfold isKatakana. simpl. rewrite andb_true_iff, !Z.leb_le. tauto.
Qed.

Lemma isKanji_unit (u : Z) (tl : jsstring) :
  isKanji (u :: tl) = true
  <-> 0x4e00 <= u <= 0x9faf \/ 0x3400 <= u <= 0x4dbf \/ 0x20000 <= u <= 0x2a6df.
Proof.
  unfold isKanji. simpl. rewrite !orb_true_iff, !andb_true_iff, !Z.leb_le. tauto.
Qed.

Lemma isFullWidth_unit (u : Z) (tl : jsstring) :
  isFullWidth (u :: tl) = true <-> 0xff < u.
Proof. unfold isFullWidth. simpl. apply Z.ltb_lt. Qed.

Lemma isHalfWidth_negb (c : jsstring) :
  c <> [] -> isHalfWidth c = negb (isFullWidth c).
Proof. destruct c; [congruence | reflexivity]. Qed.

(** Only the first code unit of the argument is looked at. *)
Lemma predicates_first_unit (u : Z) (tl : jsstring) :
  isHiragana (u :: tl) = isHiragana [u] /\
  isKatakana (u :: tl) = isKatakana [u] /\
  isKanji (u :: tl) = isKanji [u] /\
  isFullWidth (u :: tl) = isFullWidth [u] /\
  isHalfWidth (u :: tl) = isHalfWidth [u].
Proof. repeat split; reflexivity. Qed.

(** The three script ranges are pairwise disjoint. *)
Lemma scripts_disjoint (c : jsstring) :
  (Nat.b2n (isHiragana c) + Nat.b2n (isKatakana c) + Nat.b2n (isKanji c) <= 1)%nat.
Proof.
  destruct c as [|u tl]; [simpl; lia|].
  destruct (isHiragana (u :: tl)) eqn:Hh;
    destruct (isKatakana (u :: tl)) eqn:Hk;
    destruct (isKanji (u :: tl)) eqn:Hj; simpl; try lia;
    try apply isHiragana_unit in Hh;
    try apply isKatakana_unit in Hk;
    try apply isKanji_unit in Hj; lia.
Qed.

Lemma filter_length_b2n {A : Type} (f : A -> bool) (x : A) (l : list A) :
  length (List.filter f (x :: l)) = (Nat.b2n (f x) + length (List.filter f l))%nat.
Proof. simpl. destruct (f x); reflexivity. Qed.

Lemma scripts_count (chars : list jsstring) :
  (length (List.filter isHiragana chars)
   + length (List.filter isKatakana chars)
   + length (List.filter isKanji chars) <= length chars)%nat.
Proof.
  induction chars as [|c chars IH]; [simpl; lia|].
  rewrite !filter_length_b2n. pose proof (scripts_disjoint c). simpl length. lia.
Qed.

Lemma widths_count (chars : list jsstring) :
  Forall (fun c : jsstring => c <> []) chars ->
  (length (List.filter isFullWidth chars)
   + length (List.filter isHalfWidth chars) = length chars)%nat.
Proof.
  induction 1 as [|c chars Hc _ IH]; [reflexivity|].
  rewrite !filter_length_b2n, (isHalfWidth_negb c Hc). simpl length.
  destruct (isFullWidth c); simpl; lia.
Qed.

(** The reduction of [getDisplayWidth], from any starting width. *)
Lemma display_width_fold (chars : list jsstring) :
  Forall (fun c : jsstring => c <> []) chars ->
  forall width,
    fold_left (fun width char => (width + (if isFullWidth char then 2 else 1))%nat)
      chars width
    = (width + 2 * length (List.filter isFullWidth chars)
       + length (List.filter isHalfWidth chars))%nat.
Proof.
  induction 1 as [|c chars Hc _ IH]; intros width; [simpl; lia|].
  simpl fold_left. rewrite IH, !filter_length_b2n, (isHalfWidth_negb c Hc).
  destruct (isFullWidth c); simpl Nat.b2n; lia.
Qed.

(** On the Basic Multilingual Plane [isKanji] is the range test on the
    code point. *)
Lemma isKanji_bmp (cp : Z) :
  0 <= cp < 0x10000 ->
  (isKanji (utf16 cp) = true <-> 0x4e00 <= cp <= 0x9faf \/ 0x3400 <= cp <= 0x4dbf).
Proof.
  intros Hcp. unfold utf16. replace (cp <? 0x10000) with true by lia.
  rewrite isKanji_unit. lia.
Qed.

(** Above it, the first code unit is a high surrogate, which none of the
    three ranges contains. *)
Lemma isKanji_supplementary (cp : Z) :
  0x10000 <= cp <= 0x10FFFF -> isKanji (utf16 cp) = false.
Proof.
  intros Hcp. unfold utf16. replace (cp <? 0x10000) with false by lia.
  destruct (isKanji _) eqn:H; [|reflexivity].
  apply isKanji_unit in H.
  assert (Hq : 0 <= (cp - 0x10000) / 0x400 <= 0x3FF).
  { split; [apply Z.div_pos; lia|].
    apply Z.lt_succ_r. apply Z.div_lt_upper_bound; lia. }
  lia.
Qed.

End Classifier.

(** ** Conversions by a one-class expression *)

Section Conversions.

Lemma utf16_string_bmp (cps : list Z) :
  Forall (fun cp => cp < 0x10000) cps -> utf16_string cps = cps.
Proof.
  induction 1 as [|cp cps Hcp _ IH]; [reflexivity|].
  unfold utf16_string in *. simpl. rewrite IH. unfold utf16.
  replace (cp <? 0x10000) with true by lia. reflexivity.
Qed.

Lemma filter_idem {A : Type} (f : A -> bool) (l : list A) :
  List.filter f (List.filter f l) = List.filter f l.
Proof.
  induction l as [|x l IH]; [reflexivity|].
  simpl. destruct (f x) eqn:Hx; [simpl; rewrite Hx, IH; reflexivity | exact IH].
Qed.

(** Replacing each unit of a class by nothing is filtering. *)
Lemma replace_class_delete (p : Z -> bool) (s : jsstring) :
  replace_global [[Class p]] (fun _ => []) s = List.filter (fun u => negb (p u)) s.
Proof.
  unfold replace_global. rewrite replace_from_class.
  induction s as [|c tl IH]; [reflexivity|].
  simpl. destruct (p c); simpl; rewrite IH; reflexivity.
Qed.

Lemma kana_unit_round_trip (u : Z) :
  0x3041 <= u <= 0x3096 ->
  katakanaToHiragana (hiraganaToKatakana [u]) = [u].
Proof.
  intros Hu. unfold katakanaToHiragana, hiraganaToKatakana, replace_global.
  rewrite !replace_from_class. simpl flat_map at 2.
  replace (class_range 0x3041 0x3096 u) with true by (unfold class_range; lia).
  simpl. rewrite (Z.mod_small (u + 0x60)) by lia.
  replace (class_range 0x30a1 0x30f6 (u + 0x60)) with true by (unfold class_range; lia).
  simpl. f_equal. rewrite Z.mod_small; lia.
Qed.

Lemma hiraganaToKatakana_cons (u : Z) (s : jsstring) :
  hiraganaToKatakana (u :: s) = hiraganaToKatakana [u] ++ hiraganaToKatakana s.
Proof.
  unfold hiraganaToKatakana, replace_global. rewrite !replace_from_class.
  simpl. rewrite app_nil_r. reflexivity.
Qed.

Lemma katakanaToHiragana_app (s1 s2 : jsstring) :
  katakanaToHiragana (s1 ++ s2) = katakanaToHiragana s1 ++ katakanaToHiragana s2.
Proof.
  unfold katakanaToHiragana, replace_global. rewrite !replace_from_class.
  apply flat_map_app.
Qed.

End Conversions.

(** ** Code points against code units *)

Section Units.

Lemma isHiragana_first (c : jsstring) : isHiragana c = on_first hiragana_unit c.
Proof. destruct c; reflexivity. Qed.

Lemma isKatakana_first (c : jsstring) : isKatakana c = on_first katakana_unit c.
Proof. destruct c; reflexivity. Qed.

Lemma isKanji_first (c : jsstring) : isKanji c = on_first kanji_unit c.
Proof. destruct c; reflexivity. Qed.

Lemma isFullWidth_first (c : jsstring) : isFullWidth c = on_first (Z.ltb 0xff) c.
Proof. destruct c; reflexivity. Qed.

Lemma hiragana_unit_not_surrogate (u : Z) :
  hiragana_unit u = true -> is_surrogate u = false.
Proof.
  unfold hiragana_unit, class_range, is_surrogate, is_high_surrogate, is_low_surrogate.
  lia.
Qed.

Lemma katakana_unit_not_surrogate (u : Z) :
  katakana_unit u = true -> is_surrogate u = false.
Proof.
  unfold katakana_unit, class_range, is_surrogate, is_high_surrogate, is_low_surrogate.
  lia.
Qed.

Lemma kanji_unit_not_surrogate (u : Z) :
  kanji_unit u = true -> is_surrogate u = false.
Proof.
  unfold kanji_unit, class_range, is_surrogate, is_high_surrogate, is_low_surrogate.
  lia.
Qed.

Variable f : Z -> bool.
Hypothesis f_not_surrogate : forall u, f u = true -> is_surrogate u = false.

Lemma f_high (u : Z) : is_high_surrogate u = true -> f u = false.
Proof.
  intros Hu. destruct (f u) eqn:Hf; [|reflexivity].
  apply f_not_surrogate in Hf. unfold is_surrogate in Hf. rewrite Hu in Hf. discriminate.
Qed.

Lemma f_low (u : Z) : is_low_surrogate u = true -> f u = false.
Proof.
  intros Hu. destruct (f u) eqn:Hf; [|reflexivity].
  apply f_not_surrogate in Hf. unfold is_surrogate in Hf. rewrite Hu, orb_true_r in Hf.
  discriminate.
Qed.

Lemma spread_cons2 (c d : Z) (tl : jsstring) :
  spread (c :: d :: tl)
  = if is_high_surrogate c && is_low_surrogate d
    then [c; d] :: spread tl else [c] :: spread (d :: tl).
Proof. reflexivity. Qed.

(** Selecting code points by a predicate that no surrogate satisfies is
    selecting code units. *)
Lemma spread_filter_units (s : jsstring) :
  List.filter (on_first f) (spread s) = map (fun u => [u]) (List.filter f s).
Proof.
  induction s as [|c|c d tl IHtl IHd] using list_pair_ind.
  - reflexivity.
  - simpl. destruct (f c); reflexivity.
  - rewrite spread_cons2.
    destruct (is_high_surrogate c && is_low_surrogate d) eqn:Hpair.
    + apply andb_true_iff in Hpair as [Hc Hd].
      cbn [List.filter on_first]. rewrite (f_high c Hc), (f_low d Hd). exact IHtl.
    + cbn [List.filter on_first]. rewrite IHd.
      destruct (f c); reflexivity.
Qed.

Lemma concat_singletons (l : jsstring) : concat (map (fun u => [u]) l) = l.
Proof. induction l as [|u l IH]; [reflexivity | simpl; rewrite IH; reflexivity]. Qed.

Lemma spread_extract_units (s : jsstring) :
  join (List.filter (on_first f) (spread s)) = List.filter f s.
Proof. unfold join. rewrite spread_filter_units. apply concat_singletons. Qed.

Lemma spread_count_units (s : jsstring) :
  length (List.filter (on_first f) (spread s)) = length (List.filter f s).
Proof. rewrite spread_filter_units. apply length_map. Qed.

Lemma spread_forallb_units (s : jsstring) :
  forallb (on_first f) (spread s) = forallb f s.
Proof.
  induction s as [|c|c d tl IHtl IHd] using list_pair_ind.
  - reflexivity.
  - reflexivity.
  - rewrite spread_cons2.
    destruct (is_high_surrogate c && is_low_surrogate d) eqn:Hpair.
    + apply andb_true_iff in Hpair as [Hc Hd].
      cbn [forallb on_first]. rewrite (f_high c Hc). reflexivity.
    + cbn [forallb on_first]. rewrite IHd. reflexivity.
Qed.

End Units.

Lemma forallb_ext_eq {A : Type} (f g : A -> bool) (l : list A) :
  (forall a, f a = g a) -> forallb f l = forallb g l.
Proof.
  intros Hfg. induction l as [|x l IH]; [reflexivity|].
  simpl. rewrite Hfg, IH. reflexivity.
Qed.

(** ** Properties of the library *)

(** C1 (the code departs from this).  [isKanji] is specified, and
    commented in the source, to hold for every character of CJK
    Extension B, [0x20000, 0x2A6DF].  At U+20000, the string of the
    surrogate pair 0xD840 0xDC00, the function reads the first code unit
    only ([charCodeAt]), finds the high surrogate outside the three
    ranges and answers [false]; [isKanji_supplementary] shows the same
    for every code point above 0xFFFF. *)
Theorem isKanji_extension_B_rejected :
  utf16 0x20000 = [0xD840; 0xDC00] /\ isKanji (utf16 0x20000) = false.
Proof. split; reflexivity. Qed.

(** C2.  Dakuten and handakuten combining in [halfToFullKatakana]: a
    unit whose full-width image has a voiced (resp. semi-voiced) form in
    the combining table and that is directly followed by U+FF9E (resp.
    U+FF9F) is consumed together with the mark and replaced by that
    form, the text before and after the pair being converted as usual.
    The forms are those of Unicode.  For the half-width bases of the
    カ, サ, タ and ハ columns the voiced form is the code point after
    the full-width image, for those of the ハ column the semi-voiced
    form is the second code point after it; pair by pair,
    ｶﾞ ｷﾞ ｸﾞ ｹﾞ ｺﾞ become ガ ギ グ ゲ ゴ,
    ｻﾞ ｼﾞ ｽﾞ ｾﾞ ｿﾞ become ザ ジ ズ ゼ ゾ,
    ﾀﾞ ﾁﾞ ﾂﾞ ﾃﾞ ﾄﾞ become ダ ヂ ヅ デ ド,
    ﾊﾞ ﾋﾞ ﾌﾞ ﾍﾞ ﾎﾞ become バ ビ ブ ベ ボ and
    ﾊﾟ ﾋﾟ ﾌﾟ ﾍﾟ ﾎﾟ become パ ピ プ ペ ポ, wherever the pair stands.
    "ｶﾞｷﾞｸﾞ" becomes "ガギグ", "ﾊﾟﾋﾟﾌﾟ" becomes "パピプ". *)
Theorem halfToFullKatakana_combining :
  (forall (p : jsstring) (c m : Z) (r : jsstring) (v : Z),
      is_mark m = true ->
      combining_entry m (lookup_or halfToFull c) = Some v ->
      converts_around p c m r v) /\
  (forall c, 0xFF76 <= c <= 0xFF84 \/ 0xFF8A <= c <= 0xFF8E ->
      combining_entry DAKUTEN (lookup_or halfToFull c)
      = Some (lookup_or halfToFull c + 1)) /\
  (forall c, 0xFF8A <= c <= 0xFF8E ->
      combining_entry HANDAKUTEN (lookup_or halfToFull c)
      = Some (lookup_or halfToFull c + 2)) /\
  Forall (fun '(c, m, v) => forall p r : jsstring, converts_around p c m r v)
    [ (0xFF76, 0xFF9E, 0x30AC); (0xFF77, 0xFF9E, 0x30AE); (0xFF78, 0xFF9E, 0x30B0);
      (0xFF79, 0xFF9E, 0x30B2); (0xFF7A, 0xFF9E, 0x30B4);
      (0xFF7B, 0xFF9E, 0x30B6); (0xFF7C, 0xFF9E, 0x30B8); (0xFF7D, 0xFF9E, 0x30BA);
      (0xFF7E, 0xFF9E, 0x30BC); (0xFF7F, 0xFF9E, 0x30BE);
      (0xFF80, 0xFF9E, 0x30C0); (0xFF81, 0xFF9E, 0x30C2); (0xFF82, 0xFF9E, 0x30C5);
      (0xFF83, 0xFF9E, 0x30C7); (0xFF84, 0xFF9E, 0x30C9);
      (0xFF8A, 0xFF9E, 0x30D0); (0xFF8B, 0xFF9E, 0x30D3); (0xFF8C, 0xFF9E, 0x30D6);
      (0xFF8D, 0xFF9E, 0x30D9); (0xFF8E, 0xFF9E, 0x30DC);
      (0xFF8A, 0xFF9F, 0x30D1); (0xFF8B, 0xFF9F, 0x30D4); (0xFF8C, 0xFF9F, 0x30D7);
      (0xFF8D, 0xFF9F, 0x30DA); (0xFF8E, 0xFF9F, 0x30DD) ] /\
  halfToFullKatakana [0xFF76; 0xFF9E; 0xFF77; 0xFF9E; 0xFF78; 0xFF9E]
  = Some [0x30AC; 0x30AE; 0x30B0] /\
  halfToFullKatakana [0xFF8A; 0xFF9F; 0xFF8B; 0xFF9F; 0xFF8C; 0xFF9F]
  = Some [0x30D1; 0x30D4; 0x30D7].
Proof.
  assert (Hany : forall (p : jsstring) (c m : Z) (r : jsstring) (v : Z),
      is_mark m = true ->
      combining_entry m (lookup_or halfToFull c) = Some v ->
      converts_around p c m r v).
  { intros p c m r v Hm Hv.
    pose proof (combining_entry_non_mark c m v Hv) as Hc.
    exists (scan p), (scan r). rewrite !halfToFullKatakana_scan.
    rewrite scan_pair_at_cursor by (try apply cursor_at_non_mark; assumption).
    rewrite combine_entry, Hv. repeat split; reflexivity. }
  split; [exact Hany|]. split; [|split; [|split; [|split]]].
  - intros c Hc.
    assert (Hcases : In c [0xFF76; 0xFF77; 0xFF78; 0xFF79; 0xFF7A; 0xFF7B; 0xFF7C;
                           0xFF7D; 0xFF7E; 0xFF7F; 0xFF80; 0xFF81; 0xFF82; 0xFF83;
                           0xFF84; 0xFF8A; 0xFF8B; 0xFF8C; 0xFF8D; 0xFF8E])
      by (simpl; lia).
    simpl in Hcases.
    repeat (destruct Hcases as [<-|Hcases]; [vm_compute; reflexivity|]).
    contradiction.
  - intros c Hc.
    assert (Hcases : In c [0xFF8A; 0xFF8B; 0xFF8C; 0xFF8D; 0xFF8E]) by (simpl; lia).
    simpl in Hcases.
    repeat (destruct Hcases as [<-|Hcases]; [vm_compute; reflexivity|]).
    contradiction.
  - repeat (constructor; [intros p r; apply Hany; vm_compute; reflexivity|]).
    constructor.
  - vm_compute. reflexivity.
  - vm_compute. reflexivity.
Qed.

Lemma halfToFullKatakana_combining_witness :
  converts_around [0x41] 0xFF76 DAKUTEN [0xFF71] 0x30AC.
Proof.
  apply (proj1 halfToFullKatakana_combining); vm_compute; reflexivity.
Defined.

(** C3, as worded, fails.  In "ｶﾞﾟ" the character ﾞ is followed by
    U+FF9F and its image ゛ has no semi-voiced form, yet the mark is not
    absorbed: the ﾞ was consumed with ｶ, the cursor lands on ﾟ, and the
    output is "ガ゜", which does not end with the image of ﾞ. *)
Lemma mark_after_consumed_mark_kept :
  is_mark HANDAKUTEN = true /\
  combining_entry HANDAKUTEN (lookup_or halfToFull DAKUTEN) = None /\
  halfToFullKatakana [0xFF76; 0xFF9E; 0xFF9F] = Some [0x30AC; 0x309C] /\
  ~ pair_emits [0xFF76] DAKUTEN HANDAKUTEN [] (lookup_or halfToFull DAKUTEN).
Proof.
  assert (Hout : halfToFullKatakana [0xFF76; 0xFF9E; 0xFF9F] = Some [0x30AC; 0x309C])
    by (vm_compute; reflexivity).
  repeat split; try (vm_compute; reflexivity).
  intros (o_p & o_r & Hr & H).
  change ([0xFF76] ++ DAKUTEN :: HANDAKUTEN :: []) with [0xFF76; 0xFF9E; 0xFF9F] in H.
  rewrite Hout in H.
  replace (halfToFullKatakana []) with (Some (@nil Z)) in Hr by reflexivity.
  injection Hr as <-. injection H as H.
  replace (lookup_or halfToFull DAKUTEN) with 0x309B in H by (vm_compute; reflexivity).
  change [0x30AC; 0x309C] with ([0x30AC] ++ [0x309C]) in H.
  apply app_inj_tail in H as [_ H]. discriminate.
Qed.

(** C3, amended.  Whenever the cursor of the scan stands on a character
    that is followed by U+FF9E or U+FF9F and whose half-to-full image has
    no entry in the table of that mark, the mark is absorbed and the
    character is emitted as its image (itself when it has none), the text
    before and after the pair being converted as usual.  The cursor
    stands on the first character and on every character that is not
    itself one of the two marks; "ｱﾞ" becomes "ア". *)
Theorem halfToFullKatakana_absorbs_mark :
  (forall (p : jsstring) (c m : Z) (r : jsstring),
      is_mark m = true ->
      combining_entry m (lookup_or halfToFull c) = None ->
      cursor_at (p ++ c :: m :: r) (length p) = true ->
      converts_around p c m r (lookup_or halfToFull c)) /\
  (forall text : jsstring, cursor_at text O = true) /\
  (forall (p : jsstring) (c : Z) (rest : jsstring),
      is_mark c = false -> cursor_at (p ++ c :: rest) (length p) = true) /\
  halfToFullKatakana [0xFF71; 0xFF9E] = Some [0x30A2].
Proof.
  split; [|split; [|split]].
  - intros p c m r Hm Hnone Hcur.
    exists (scan p), (scan r). rewrite !halfToFullKatakana_scan.
    rewrite scan_pair_at_cursor by assumption.
    rewrite combine_entry, Hnone. repeat split; reflexivity.
  - reflexivity.
  - intros p c rest Hc. apply cursor_at_non_mark. exact Hc.
  - vm_compute. reflexivity.
Qed.

Lemma halfToFullKatakana_absorbs_mark_witness :
  converts_around [0xFF76; 0xFF9E] 0xFF71 DAKUTEN [0x41] (lookup_or halfToFull 0xFF71).
Proof.
  apply (proj1 halfToFullKatakana_absorbs_mark); vm_compute; reflexivity.
Defined.

(** C4, as worded, fails: the class [\s] is wider than ASCII
    whitespace.  The no-break space U+00A0 and the line separator U+2028
    are deleted, not kept. *)
Lemma removeAllWhitespace_deletes_unicode_space :
  removeAllWhitespace [0x61; 0x00A0; 0x62]
    <> List.filter (fun u => negb (spec_whitespace u)) [0x61; 0x00A0; 0x62] /\
  removeAllWhitespace [0x61; 0x2028; 0x62]
    <> List.filter (fun u => negb (spec_whitespace u)) [0x61; 0x2028; 0x62].
Proof. split; vm_compute; discriminate. Qed.

(** C4, amended.  [removeAllWhitespace] deletes exactly the characters
    of the class [[\s\u3000]] and keeps all others in their order.  The
    class holds TAB, LF, VT, FF, CR, space, U+00A0, U+1680, U+2000 to
    U+200A, U+2028, U+2029, U+202F, U+205F, U+3000 and U+FEFF; it
    contains the six ASCII whitespace characters and the full-width
    space. *)
Theorem removeAllWhitespace_filter :
  (forall s : jsstring,
      removeAllWhitespace s = List.filter (fun u => negb (class_space u)) s) /\
  (forall u : Z,
      class_space u = true <->
      0x09 <= u <= 0x0D \/ u = 0x20 \/ u = 0xA0 \/ u = 0x1680 \/
      0x2000 <= u <= 0x200A \/ u = 0x2028 \/ u = 0x2029 \/ u = 0x202F \/
      u = 0x205F \/ u = 0x3000 \/ u = 0xFEFF) /\
  (forall u : Z, spec_whitespace u = true -> class_space u = true).
Proof.
  assert (Hclass : forall u : Z,
      class_space u = true <->
      0x09 <= u <= 0x0D \/ u = 0x20 \/ u = 0xA0 \/ u = 0x1680 \/
      0x2000 <= u <= 0x200A \/ u = 0x2028 \/ u = 0x2029 \/ u = 0x202F \/
      u = 0x205F \/ u = 0x3000 \/ u = 0xFEFF).
  { intros u. unfold class_space, class_s.
    rewrite !orb_true_iff, !andb_true_iff, !Z.leb_le, !Z.eqb_eq. lia. }
  split; [|split].
  - intros s. apply replace_class_delete.
  - exact Hclass.
  - intros u Hu. apply Hclass. unfold spec_whitespace in Hu.
    rewrite !orb_true_iff, !Z.eqb_eq in Hu. lia.
Qed.

(** C5.  For every string [s] the record [r = getCharacterStats s]
    satisfies [fullWidth + halfWidth = total]; [total] is the number of
    Unicode scalar values of [s] (whenever [s] is the UTF-16 form of a
    sequence of scalar values); and [hiragana + katakana + kanji <= total],
    the three ranges being pairwise disjoint ([scripts_disjoint]). *)
Theorem getCharacterStats_invariants (s : jsstring) :
  let r := getCharacterStats s in
  (fullWidth r + halfWidth r = total r)%nat /\
  (forall cps : list Z,
      Forall is_scalar cps -> s = utf16_string cps -> total r = length cps) /\
  (hiragana r + katakana r + kanji r <= total r)%nat.
Proof.
  simpl. split; [|split].
  - apply widths_count, spread_nonempty.
  - intros cps Hcps ->. rewrite spread_utf16_string by assumption.
    apply length_map.
  - apply scripts_count.
Qed.

Lemma getCharacterStats_invariants_witness :
  let r := getCharacterStats [0x3042; 0x30A2; 0x41; 0x6F22; 0xD840; 0xDC00] in
  (fullWidth r + halfWidth r = total r)%nat /\
  total r = 5%nat /\
  (hiragana r + katakana r + kanji r <= total r)%nat.
Proof.
  destruct (getCharacterStats_invariants [0x3042; 0x30A2; 0x41; 0x6F22; 0xD840; 0xDC00])
    as (Hwidth & Htotal & Hscripts).
  split; [exact Hwidth | split; [|exact Hscripts]].
  apply (Htotal [0x3042; 0x30A2; 0x41; 0x6F22; 0x20000]).
  - repeat constructor; unfold is_scalar; lia.
  - reflexivity.
Defined.

(** C6.  Round trip: for every string [s] made only of characters with
    code points in [0x3041, 0x3096],
    [katakanaToHiragana (hiraganaToKatakana s) = s]. *)
Theorem kana_round_trip (cps : list Z) :
  Forall (fun cp => 0x3041 <= cp <= 0x3096) cps ->
  katakanaToHiragana (hiraganaToKatakana (utf16_string cps)) = utf16_string cps.
Proof.
  intros Hcps.
  rewrite utf16_string_bmp
    by (eapply Forall_impl; [exact Hcps | simpl; intros; lia]).
  induction Hcps as [|u s Hu _ IH]; [reflexivity|].
  rewrite hiraganaToKatakana_cons, katakanaToHiragana_app, IH.
  rewrite kana_unit_round_trip by exact Hu. reflexivity.
Qed.

Lemma kana_round_trip_witness :
  katakanaToHiragana (hiraganaToKatakana (utf16_string [0x306B; 0x307B; 0x3093; 0x3054]))
  = utf16_string [0x306B; 0x307B; 0x3093; 0x3054].
Proof.
  apply (kana_round_trip [0x306B; 0x307B; 0x3093; 0x3054]).
  repeat constructor; lia.
Defined.

(** C7.  [isAllHiragana s] is true if and only if [s] is not empty and
    every character of [s] satisfies [isHiragana]; likewise
    [isAllKatakana] with [isKatakana] and [isAllKanji] with [isKanji];
    all three are false on the empty string.  The characters of [s] are
    its Unicode scalar values, each tested as the one-character string
    [utf16 cp]; the same holds with the code units of [s] for
    characters, each tested as the one-unit string [[u]]. *)
Theorem isAll_iff :
  (forall cps : list Z,
      Forall is_scalar cps ->
      (isAllHiragana (utf16_string cps) = true <->
         cps <> [] /\ forall cp, In cp cps -> isHiragana (utf16 cp) = true) /\
      (isAllKatakana (utf16_string cps) = true <->
         cps <> [] /\ forall cp, In cp cps -> isKatakana (utf16 cp) = true) /\
      (isAllKanji (utf16_string cps) = true <->
         cps <> [] /\ forall cp, In cp cps -> isKanji (utf16 cp) = true)) /\
  (forall s : jsstring,
      (isAllHiragana s = true <->
         s <> [] /\ forall u, In u s -> isHiragana [u] = true) /\
      (isAllKatakana s = true <->
         s <> [] /\ forall u, In u s -> isKatakana [u] = true) /\
      (isAllKanji s = true <->
         s <> [] /\ forall u, In u s -> isKanji [u] = true)) /\
  isAllHiragana [] = false /\ isAllKatakana [] = false /\ isAllKanji [] = false.
Proof.
  split; [|split; [|repeat split; reflexivity]].
  - intros cps Hcps.
    assert (Hevery : forall f : jsstring -> bool,
      (if falsy (utf16_string cps) || Nat.eqb (length (utf16_string cps)) 0
       then false else forallb f (spread (utf16_string cps))) = true
      <-> cps <> [] /\ forall cp, In cp cps -> f (utf16 cp) = true).
    { intros f. rewrite spread_utf16_string by exact Hcps.
      destruct cps as [|cp cps'].
      - simpl. split; [discriminate | intros [H _]; congruence].
      - assert (Hne : exists u tl, utf16_string (cp :: cps') = u :: tl).
        { unfold utf16_string, utf16. cbn [map concat].
          destruct (cp <? 0x10000); cbn [app]; eauto. }
        destruct Hne as (u & tl & ->).
        change (falsy (u :: tl) || Nat.eqb (length (u :: tl)) 0) with false.
        cbv iota. rewrite forallb_forall. split.
        + intros H. split; [discriminate|]. intros c Hc.
          apply H, in_map, Hc.
        + intros [_ H] c Hc. apply in_map_iff in Hc as (c' & <- & Hc').
          apply H, Hc'. }
    split; [exact (Hevery isHiragana)|].
    split; [exact (Hevery isKatakana) | exact (Hevery isKanji)].
  - intros s.
    assert (Hevery : forall (f : jsstring -> bool) (g : Z -> bool),
      (forall c, f c = on_first g c) ->
      (forall u, g u = true -> is_surrogate u = false) ->
      (if falsy s || Nat.eqb (length s) 0 then false else forallb f (spread s)) = true
      <-> s <> [] /\ forall u, In u s -> f [u] = true).
    { intros f g Hfirst Hg.
      rewrite (forallb_ext_eq _ _ _ Hfirst), (spread_forallb_units g Hg).
      destruct s as [|u tl].
      - simpl. split; [discriminate | intros [H _]; congruence].
      - change (falsy (u :: tl) || Nat.eqb (length (u :: tl)) 0) with false.
        cbv iota. rewrite forallb_forall. split.
        + intros H. split; [discriminate|]. intros c Hc.
          rewrite Hfirst. apply H, Hc.
        + intros [_ H] c Hc. specialize (H c Hc). rewrite Hfirst in H. exact H. }
    split; [exact (Hevery _ _ isHiragana_first hiragana_unit_not_surrogate)|].
    split; [exact (Hevery _ _ isKatakana_first katakana_unit_not_surrogate)|].
    exact (Hevery _ _ isKanji_first kanji_unit_not_surrogate).
Qed.

Lemma isAll_iff_witness :
  isAllHiragana (utf16_string [0x3072; 0x3089; 0x304C; 0x306A]) = true /\
  isAllKanji (utf16_string [0x6F22; 0x20000]) = false.
Proof.
  destruct isAll_iff as (Hscalars & _).
  split.
  - apply (Hscalars [0x3072; 0x3089; 0x304C; 0x306A]).
    + repeat constructor; unfold is_scalar; lia.
    + split; [discriminate|].
      intros cp Hcp. simpl in Hcp.
      repeat (destruct Hcp as [<-|Hcp]; [reflexivity|]). contradiction.
  - apply not_true_is_false. intros Hall.
    apply (Hscalars [0x6F22; 0x20000]) in Hall.
    + destruct Hall as [_ Hall]. specialize (Hall 0x20000).
      assert (Hin : In 0x20000 [0x6F22; 0x20000]) by (simpl; tauto).
      apply Hall in Hin. vm_compute in Hin. discriminate.
    + repeat constructor; unfold is_scalar; lia.
Defined.

(** C8.  Idempotence: [trimJapanese (trimJapanese s) = trimJapanese s]
    and [removeAllWhitespace (removeAllWhitespace s) = removeAllWhitespace s]
    for every string [s]. *)
Theorem whitespace_idempotent (s : jsstring) :
  trimJapanese (trimJapanese s) = trimJapanese s /\
  removeAllWhitespace (removeAllWhitespace s) = removeAllWhitespace s.
Proof.
  split.
  - apply replace_global_trim_idem.
  - unfold removeAllWhitespace. rewrite !replace_class_delete. apply filter_idem.
Qed.

(** C9.  Totality.  Every exported function returns a value on every
    string.  The only loop, in [halfToFullKatakana], ends within one
    iteration per code unit; the reads that can yield [NaN] or
    [undefined] ([charCodeAt], [text[i + 1]], the table lookups) never
    leave a function undefined.  On degenerate input the predicates
    answer [false] (and look at the first code unit only when given
    more), the statistics are all zero and the transforms return the
    empty string. *)
Theorem library_total :
  (forall text : jsstring, exists out, halfToFullKatakana text = Some out) /\
  (isHiragana [] = false /\ isKatakana [] = false /\ isKanji [] = false /\
   isFullWidth [] = false /\ isHalfWidth [] = false /\
   isAllHiragana [] = false /\ isAllKatakana [] = false /\ isAllKanji [] = false) /\
  (forall (u : Z) (tl : jsstring),
      isHiragana (u :: tl) = isHiragana [u] /\
      isKatakana (u :: tl) = isKatakana [u] /\
      isKanji (u :: tl) = isKanji [u] /\
      isFullWidth (u :: tl) = isFullWidth [u] /\
      isHalfWidth (u :: tl) = isHalfWidth [u]) /\
  (getDisplayWidth [] = O /\
   getCharacterStats []
   = {| total := 0; hiragana := 0; katakana := 0; kanji := 0;
        fullWidth := 0; halfWidth := 0; displayWidth := 0 |}) /\
  (hiraganaToKatakana [] = [] /\ katakanaToHiragana [] = [] /\
   halfToFullKatakana [] = Some [] /\
   fullToHalfAlphanumeric [] = [] /\ halfToFullAlphanumeric [] = [] /\
   extractHiragana [] = [] /\ extractKatakana [] = [] /\ extractKanji [] = [] /\
   removeAllWhitespace [] = [] /\ normalizeWhitespace [] = [] /\
   trimJapanese [] = []).
Proof.
  split; [|split; [|split; [|split]]].
  - intros text. exists (scan text). apply halfToFullKatakana_scan.
  - repeat split; reflexivity.
  - apply predicates_first_unit.
  - split; reflexivity.
  - repeat split; reflexivity.
Qed.

(** C10.  For every string [s],
    [displayWidth = 2 * fullWidth + halfWidth] in [getCharacterStats s],
    and this is [getDisplayWidth s]. *)
Theorem displayWidth_from_counts (s : jsstring) :
  let r := getCharacterStats s in
  displayWidth r = (2 * fullWidth r + halfWidth r)%nat /\
  (2 * fullWidth r + halfWidth r)%nat = getDisplayWidth s.
Proof.
  simpl. unfold getDisplayWidth.
  rewrite display_width_fold by apply spread_nonempty. split; reflexivity.
Qed.

(** ** Further properties: code points against code units *)

Lemma filter_eq_iff {A : Type} (f : A -> bool) (l : list A) :
  List.filter f l = l <-> forallb f l = true.
Proof.
  induction l as [|x l IH]; [simpl; tauto|].
  simpl. destruct (f x) eqn:Hx; simpl.
  - rewrite <- IH. split; [intros H; injection H; trivial | intros ->; reflexivity].
  - split; [|discriminate]. intros H.
    assert (Hlen : (length (List.filter f l) <= length l)%nat) by apply List.filter_length_le.
    rewrite H in Hlen. simpl in Hlen. lia.
Qed.

Lemma extract_units_aux (s : jsstring) :
  extractHiragana s = List.filter hiragana_unit s /\
  extractKatakana s = List.filter katakana_unit s /\
  extractKanji s = List.filter kanji_unit s.
Proof.
  unfold extractHiragana, extractKatakana, extractKanji.
  rewrite (List.filter_ext _ _ isHiragana_first),
          (List.filter_ext _ _ isKatakana_first),
          (List.filter_ext _ _ isKanji_first).
  rewrite !spread_extract_units;
    auto using hiragana_unit_not_surrogate, katakana_unit_not_surrogate,
               kanji_unit_not_surrogate.
Qed.

(** X1.  The extractors select code units: [extractHiragana],
    [extractKatakana] and [extractKanji] return the code units of the
    input that lie in the range of the script, in their order.  In
    particular a surrogate pair is never part of the result. *)
Theorem extract_units (s : jsstring) :
  extractHiragana s = List.filter hiragana_unit s /\
  extractKatakana s = List.filter katakana_unit s /\
  extractKanji s = List.filter kanji_unit s.
Proof.
  unfold extractHiragana, extractKatakana, extractKanji.
  rewrite (List.filter_ext _ _ isHiragana_first),
          (List.filter_ext _ _ isKatakana_first),
          (List.filter_ext _ _ isKanji_first).
  rewrite !spread_extract_units;
    auto using hiragana_unit_not_surrogate, katakana_unit_not_surrogate,
               kanji_unit_not_surrogate.
Qed.

Lemma stats_count_extracts_aux (s : jsstring) :
  let r := getCharacterStats s in
  hiragana r = length (extractHiragana s) /\
  katakana r = length (extractKatakana s) /\
  kanji r = length (extractKanji s).
Proof.
  destruct (extract_units_aux s) as (-> & -> & ->). simpl.
  rewrite (List.filter_ext _ _ isHiragana_first),
          (List.filter_ext _ _ isKatakana_first),
          (List.filter_ext _ _ isKanji_first).
  rewrite !spread_count_units;
    auto using hiragana_unit_not_surrogate, katakana_unit_not_surrogate,
               kanji_unit_not_surrogate.
Qed.

(** X2.  The script counts of [getCharacterStats] are the lengths of the
    three extracts. *)
Theorem stats_count_extracts (s : jsstring) :
  let r := getCharacterStats s in
  hiragana r = length (extractHiragana s) /\
  katakana r = length (extractKatakana s) /\
  kanji r = length (extractKanji s).
Proof.
  destruct (extract_units_aux s) as (-> & -> & ->). simpl.
  rewrite (List.filter_ext _ _ isHiragana_first),
          (List.filter_ext _ _ isKatakana_first),
          (List.filter_ext _ _ isKanji_first).
  rewrite !spread_count_units;
    auto using hiragana_unit_not_surrogate, katakana_unit_not_surrogate,
               kanji_unit_not_surrogate.
Qed.

Lemma isAll_extract_aux (s : jsstring) :
  (isAllHiragana s = true <-> s <> [] /\ extractHiragana s = s) /\
  (isAllKatakana s = true <-> s <> [] /\ extractKatakana s = s) /\
  (isAllKanji s = true <-> s <> [] /\ extractKanji s = s).
Proof.
  destruct (extract_units_aux s) as (-> & -> & ->).
  unfold isAllHiragana, isAllKatakana, isAllKanji.
  rewrite (forallb_ext_eq _ _ _ isHiragana_first),
          (forallb_ext_eq _ _ _ isKatakana_first),
          (forallb_ext_eq _ _ _ isKanji_first).
  rewrite !spread_forallb_units
    by auto using hiragana_unit_not_surrogate, katakana_unit_not_surrogate,
                  kanji_unit_not_surrogate.
  rewrite !filter_eq_iff.
  destruct s as [|u tl].
  - simpl. repeat split; try discriminate; intros [H _]; congruence.
  - change (falsy (u :: tl) || Nat.eqb (length (u :: tl)) 0) with false. cbv iota.
    repeat split; try discriminate; tauto.
Qed.

(** X3.  A string is all hiragana (katakana, kanji) exactly when it is
    not empty and extracting that script returns it unchanged. *)
Theorem isAll_extract (s : jsstring) :
  (isAllHiragana s = true <-> s <> [] /\ extractHiragana s = s) /\
  (isAllKatakana s = true <-> s <> [] /\ extractKatakana s = s) /\
  (isAllKanji s = true <-> s <> [] /\ extractKanji s = s).
Proof.
  destruct (extract_units_aux s) as (-> & -> & ->).
  unfold isAllHiragana, isAllKatakana, isAllKanji.
  rewrite (forallb_ext_eq _ _ _ isHiragana_first),
          (forallb_ext_eq _ _ _ isKatakana_first),
          (forallb_ext_eq _ _ _ isKanji_first).
  rewrite !spread_forallb_units
    by auto using hiragana_unit_not_surrogate, katakana_unit_not_surrogate,
                  kanji_unit_not_surrogate.
  rewrite !filter_eq_iff.
  destruct s as [|u tl].
  - simpl. repeat split; try discriminate; intros [H _]; congruence.
  - change (falsy (u :: tl) || Nat.eqb (length (u :: tl)) 0) with false. cbv iota.
    repeat split; try discriminate; tauto.
Qed.

(** X4.  Extracting is idempotent, and the three extracts are disjoint:
    extracting one script from the extract of another gives the empty
    string. *)
Theorem extract_idempotent_disjoint (s : jsstring) :
  extractHiragana (extractHiragana s) = extractHiragana s /\
  extractKatakana (extractKatakana s) = extractKatakana s /\
  extractKanji (extractKanji s) = extractKanji s /\
  extractKatakana (extractHiragana s) = [] /\
  extractKanji (extractHiragana s) = [] /\
  extractHiragana (extractKatakana s) = [] /\
  extractKanji (extractKatakana s) = [] /\
  extractHiragana (extractKanji s) = [] /\
  extractKatakana (extractKanji s) = [].
Proof.
  assert (Hnone : forall (f g : Z -> bool) (l : jsstring),
             (forall u, f u = true -> g u = false) ->
             List.filter g (List.filter f l) = []).
  { intros f g l Hfg. induction l as [|u l IH]; [reflexivity|].
    simpl. destruct (f u) eqn:Hu; [simpl; rewrite (Hfg u Hu)|]; exact IH. }
  destruct (extract_units_aux s) as (-> & -> & ->).
  repeat split;
    match goal with
    | |- ?e (List.filter ?f s) = List.filter ?f s =>
        let H := fresh in
        pose proof (extract_units_aux (List.filter f s)) as H;
        (rewrite (proj1 H) || rewrite (proj1 (proj2 H)) || rewrite (proj2 (proj2 H)));
        apply filter_idem
    | |- ?e (List.filter ?f s) = [] =>
        let H := fresh in
        pose proof (extract_units_aux (List.filter f s)) as H;
        (rewrite (proj1 H) || rewrite (proj1 (proj2 H)) || rewrite (proj2 (proj2 H)));
        apply Hnone; intros u;
        unfold hiragana_unit, katakana_unit, kanji_unit, class_range; lia
    end.
Qed.

(** ** Further properties: classification and width *)

Lemma utf16_first_unit (cp : Z) :
  is_scalar cp ->
  exists u tl, utf16 cp = u :: tl /\
    (cp < 0x10000 -> u = cp) /\ (0x10000 <= cp -> 0xD800 <= u <= 0xDBFF).
Proof.
  intros Hcp. unfold utf16. destruct (cp <? 0x10000) eqn:Hlt.
  - exists cp, []. repeat split; lia.
  - eexists _, _. split; [reflexivity|]. split; [lia|]. intros _.
    assert (Hrange : 0x10000 <= cp <= 0x10FFFF) by (unfold is_scalar in Hcp; lia).
    assert (Hq : 0 <= (cp - 0x10000) / 0x400 <= 0x3FF).
    { split; [apply Z.div_pos; lia|].
      apply Z.lt_succ_r. apply Z.div_lt_upper_bound; lia. }
    lia.
Qed.

Lemma classify_scalar_aux (cp : Z) :
  is_scalar cp ->
  (isHiragana (utf16 cp) = true <-> 0x3040 <= cp <= 0x309f) /\
  (isKatakana (utf16 cp) = true <-> 0x30a0 <= cp <= 0x30ff) /\
  (isFullWidth (utf16 cp) = true <-> 0xff < cp) /\
  isHalfWidth (utf16 cp) = negb (isFullWidth (utf16 cp)).
Proof.
  intros Hcp. destruct (utf16_first_unit cp Hcp) as (u & tl & -> & Hbmp & Hsup).
  rewrite isHiragana_unit, isKatakana_unit, isFullWidth_unit.
  assert (Hu : cp < 0x10000 /\ u = cp \/ 0x10000 <= cp /\ 0xD800 <= u <= 0xDBFF).
  { destruct (Z.lt_ge_cases cp 0x10000); [left | right]; auto. }
  clear Hbmp Hsup. split; [|split; [|split]]; try reflexivity; lia.
Qed.

(** X5.  On every Unicode scalar value, in its UTF-16 form, [isHiragana]
    and [isKatakana] are the range tests on the code point, [isFullWidth]
    holds exactly above U+00FF and [isHalfWidth] is its negation: reading
    the first code unit only does no harm to these four. *)
Theorem classify_scalar (cp : Z) :
  is_scalar cp ->
  (isHiragana (utf16 cp) = true <-> 0x3040 <= cp <= 0x309f) /\
  (isKatakana (utf16 cp) = true <-> 0x30a0 <= cp <= 0x30ff) /\
  (isFullWidth (utf16 cp) = true <-> 0xff < cp) /\
  isHalfWidth (utf16 cp) = negb (isFullWidth (utf16 cp)).
Proof.
  intros Hcp. destruct (utf16_first_unit cp Hcp) as (u & tl & -> & Hbmp & Hsup).
  rewrite isHiragana_unit, isKatakana_unit, isFullWidth_unit.
  assert (Hu : cp < 0x10000 /\ u = cp \/ 0x10000 <= cp /\ 0xD800 <= u <= 0xDBFF).
  { destruct (Z.lt_ge_cases cp 0x10000); [left | right]; auto. }
  clear Hbmp Hsup. split; [|split; [|split]]; try reflexivity; lia.
Qed.

Lemma classify_scalar_witness :
  (isHiragana (utf16 0x1F600) = true <-> 0x3040 <= 0x1F600 <= 0x309f) /\
  (isKatakana (utf16 0x1F600) = true <-> 0x30a0 <= 0x1F600 <= 0x30ff) /\
  (isFullWidth (utf16 0x1F600) = true <-> 0xff < 0x1F600) /\
  isHalfWidth (utf16 0x1F600) = negb (isFullWidth (utf16 0x1F600)).
Proof. apply (classify_scalar 0x1F600). unfold is_scalar. lia. Defined.

Lemma fold_left_sum {A : Type} (g : A -> nat) (l : list A) :
  forall a, fold_left (fun w x => (w + g x)%nat) l a = (a + list_sum (map g l))%nat.
Proof.
  induction l as [|x l IH]; intros a; simpl; [lia|]. rewrite IH. lia.
Qed.

(** X6.  The display width of a string of scalar values is the sum,
    over its characters, of 2 above U+00FF and 1 otherwise. *)
Theorem getDisplayWidth_scalars (cps : list Z) :
  Forall is_scalar cps ->
  getDisplayWidth (utf16_string cps)
  = list_sum (map (fun cp : Z => if 0xff <? cp then 2%nat else 1%nat) cps).
Proof.
  intros Hcps. unfold getDisplayWidth.
  rewrite spread_utf16_string by assumption.
  rewrite (fold_left_sum (fun char => if isFullWidth char then 2%nat else 1%nat)).
  rewrite map_map. simpl. f_equal.
  induction Hcps as [|cp cps Hcp _ IH]; [reflexivity|].
  simpl. rewrite IH. f_equal.
  destruct (classify_scalar_aux cp Hcp) as (_ & _ & Hfull & _).
  destruct (isFullWidth (utf16 cp)) eqn:Hf.
  - replace (0xff <? cp) with true by (symmetry; apply Z.ltb_lt, Hfull; reflexivity).
    reflexivity.
  - destruct (0xff <? cp) eqn:Hlt; [|reflexivity].
    apply Z.ltb_lt, Hfull in Hlt. discriminate.
Qed.

Lemma getDisplayWidth_scalars_witness :
  getDisplayWidth (utf16_string [0x3042; 0x41; 0x1F600])
  = list_sum (map (fun cp : Z => if 0xff <? cp then 2%nat else 1%nat) [0x3042; 0x41; 0x1F600]).
Proof.
  apply (getDisplayWidth_scalars [0x3042; 0x41; 0x1F600]).
  repeat constructor; unfold is_scalar; lia.
Defined.

Lemma spread_length_le (s : jsstring) : (length (spread s) <= length s)%nat.
Proof.
  induction s as [|c|c d tl IHtl IHd] using list_pair_ind; [simpl; lia..|].
  rewrite spread_cons2.
  destruct (is_high_surrogate c && is_low_surrogate d); simpl in *; lia.
Qed.

(** X7.  The display width lies between the number of characters and
    twice that number, which is at most the number of code units. *)
Theorem getDisplayWidth_bounds (s : jsstring) :
  let r := getCharacterStats s in
  (total r <= getDisplayWidth s <= 2 * total r)%nat /\
  (total r <= length s)%nat.
Proof.
  pose proof (widths_count (spread s) (spread_nonempty s)) as Hc.
  pose proof (spread_length_le s) as Hl.
  simpl. unfold getDisplayWidth.
  rewrite display_width_fold by apply spread_nonempty. lia.
Qed.

(** ** Further properties: the conversions as unit maps *)

Section UnitMaps.

(** A one-class expression whose callback shifts the matched unit. *)
Lemma replace_class_shift (p : Z -> bool) (k : Z) (s : jsstring) :
  replace_global [[Class p]]
    (fun char => fromCharCode (num_add (charCodeAt char 0) k)) s
  = map (fun u => if p u then (u + k) mod 0x10000 else u) s.
Proof.
  unfold replace_global. rewrite replace_from_class.
  induction s as [|c tl IH]; [reflexivity|].
  cbn [flat_map map]. rewrite IH. destruct (p c); reflexivity.
Qed.

Lemma replace_class_const (p : Z -> bool) (v : Z) (s : jsstring) :
  replace_global [[Class p]] (fun _ => [v]) s
  = map (fun u => if p u then v else u) s.
Proof.
  unfold replace_global. rewrite replace_from_class.
  induction s as [|c tl IH]; [reflexivity|].
  cbn [flat_map map]. rewrite IH. destruct (p c); reflexivity.
Qed.

Lemma map_fixes_iff (g : Z -> Z) (s : jsstring) :
  map g s = s <-> forallb (fun u => g u =? u) s = true.
Proof.
  induction s as [|u s IH]; [simpl; tauto|].
  simpl. rewrite andb_true_iff, Z.eqb_eq, <- IH.
  split; [intros H; injection H; auto | intros [-> ->]; reflexivity].
Qed.

Lemma hiraganaToKatakana_map (s : jsstring) :
  hiraganaToKatakana s
  = map (fun u => if class_range 0x3041 0x3096 u then u + 0x60 else u) s.
Proof.
  unfold hiraganaToKatakana. rewrite replace_class_shift.
  apply map_ext. intros u. unfold class_range.
  destruct ((0x3041 <=? u) && (u <=? 0x3096)) eqn:H; [|reflexivity].
  apply Z.mod_small. lia.
Qed.

Lemma katakanaToHiragana_map (s : jsstring) :
  katakanaToHiragana s
  = map (fun u => if class_range 0x30a1 0x30f6 u then u - 0x60 else u) s.
Proof.
  unfold katakanaToHiragana. rewrite replace_class_shift.
  apply map_ext. intros u. unfold class_range.
  destruct ((0x30a1 <=? u) && (u <=? 0x30f6)) eqn:H; [|reflexivity].
  rewrite Z.mod_small; lia.
Qed.

Lemma halfToFullAlphanumeric_map (s : jsstring) :
  halfToFullAlphanumeric s
  = map (fun u => if class_ascii_alnum u then u + 0xfee0 else u) s.
Proof.
  unfold halfToFullAlphanumeric. rewrite replace_class_shift.
  apply map_ext. intros u. unfold class_ascii_alnum, class_range.
  destruct (((0x41 <=? u) && (u <=? 0x5A)) || ((0x61 <=? u) && (u <=? 0x7A))
            || ((0x30 <=? u) && (u <=? 0x39))) eqn:H; [|reflexivity].
  apply Z.mod_small. lia.
Qed.

Lemma fullToHalfAlphanumeric_map (s : jsstring) :
  fullToHalfAlphanumeric s
  = map (fun u => if class_fullwidth_alnum u then u - 0xfee0 else u) s.
Proof.
  unfold fullToHalfAlphanumeric. rewrite replace_class_shift.
  apply map_ext. intros u. unfold class_fullwidth_alnum, class_range.
  destruct (((0xFF21 <=? u) && (u <=? 0xFF3A)) || ((0xFF41 <=? u) && (u <=? 0xFF5A))
            || ((0xFF10 <=? u) && (u <=? 0xFF19))) eqn:H; [|reflexivity].
  rewrite Z.mod_small; lia.
Qed.

End UnitMaps.

Ltac unit_cases :=
  unfold class_ascii_alnum, class_fullwidth_alnum, class_range;
  repeat match goal with
         | |- context [if ?b then _ else _] => destruct b eqn:?
         end;
  lia.

(** X8.  The kana conversions work unit by unit and keep positions:
    [hiraganaToKatakana] adds 0x60 to the units in [0x3041, 0x3096],
    [katakanaToHiragana] subtracts 0x60 from those in [0x30a1, 0x30f6],
    and both leave every other unit, and the length, unchanged. *)
Theorem kana_pointwise (s : jsstring) :
  hiraganaToKatakana s
  = map (fun u => if class_range 0x3041 0x3096 u then u + 0x60 else u) s /\
  katakanaToHiragana s
  = map (fun u => if class_range 0x30a1 0x30f6 u then u - 0x60 else u) s /\
  length (hiraganaToKatakana s) = length s /\
  length (katakanaToHiragana s) = length s.
Proof.
  rewrite hiraganaToKatakana_map, katakanaToHiragana_map, !length_map.
  repeat split; reflexivity.
Qed.

(** X9.  Each kana conversion is idempotent and absorbs the other one
    applied first: converting to katakana and then to hiragana is
    converting to hiragana, and the other way round. *)
Theorem kana_compose (s : jsstring) :
  hiraganaToKatakana (hiraganaToKatakana s) = hiraganaToKatakana s /\
  katakanaToHiragana (katakanaToHiragana s) = katakanaToHiragana s /\
  katakanaToHiragana (hiraganaToKatakana s) = katakanaToHiragana s /\
  hiraganaToKatakana (katakanaToHiragana s) = hiraganaToKatakana s.
Proof.
  rewrite !hiraganaToKatakana_map, !katakanaToHiragana_map, !map_map.
  repeat split; apply map_ext; intros u; unit_cases.
Qed.

(** X10.  The kana round trips hold exactly for the strings the first
    conversion does not merge: hiragana to katakana and back returns [s]
    if and only if [s] has no unit in [0x30a1, 0x30f6], and katakana to
    hiragana and back returns [s] if and only if [s] has no unit in
    [0x3041, 0x3096]. *)
Theorem kana_round_trip_iff (s : jsstring) :
  (katakanaToHiragana (hiraganaToKatakana s) = s
   <-> forallb (fun u => negb (class_range 0x30a1 0x30f6 u)) s = true) /\
  (hiraganaToKatakana (katakanaToHiragana s) = s
   <-> forallb (fun u => negb (class_range 0x3041 0x3096 u)) s = true).
Proof.
  rewrite !hiraganaToKatakana_map, !katakanaToHiragana_map, !map_map.
  rewrite !map_fixes_iff.
  split; (erewrite forallb_ext_eq; [reflexivity|]); intros u; simpl;
    unfold class_range;
    repeat match goal with
           | |- context [if ?b then _ else _] => destruct b eqn:?
           end;
    lia.
Qed.

(** X11.  The alphanumeric conversions work unit by unit: they shift the
    ASCII letters and digits up by 0xfee0, resp. the full-width ones
    down, and leave every other unit, and the length, unchanged. *)
Theorem alphanumeric_pointwise (s : jsstring) :
  halfToFullAlphanumeric s
  = map (fun u => if class_ascii_alnum u then u + 0xfee0 else u) s /\
  fullToHalfAlphanumeric s
  = map (fun u => if class_fullwidth_alnum u then u - 0xfee0 else u) s /\
  length (halfToFullAlphanumeric s) = length s /\
  length (fullToHalfAlphanumeric s) = length s.
Proof.
  rewrite halfToFullAlphanumeric_map, fullToHalfAlphanumeric_map, !length_map.
  repeat split; reflexivity.
Qed.

(** X12.  Widening and then narrowing the alphanumerics returns [s] if
    and only if [s] has no full-width letter or digit, in particular for
    every ASCII string; narrowing and then widening returns [s] if and
    only if [s] has no ASCII letter or digit.  Each conversion is
    idempotent and absorbs the other one applied first. *)
Theorem alphanumeric_round_trip_iff (s : jsstring) :
  (fullToHalfAlphanumeric (halfToFullAlphanumeric s) = s
   <-> forallb (fun u => negb (class_fullwidth_alnum u)) s = true) /\
  (halfToFullAlphanumeric (fullToHalfAlphanumeric s) = s
   <-> forallb (fun u => negb (class_ascii_alnum u)) s = true) /\
  fullToHalfAlphanumeric (halfToFullAlphanumeric s) = fullToHalfAlphanumeric s /\
  halfToFullAlphanumeric (fullToHalfAlphanumeric s) = halfToFullAlphanumeric s /\
  fullToHalfAlphanumeric (fullToHalfAlphanumeric s) = fullToHalfAlphanumeric s /\
  halfToFullAlphanumeric (halfToFullAlphanumeric s) = halfToFullAlphanumeric s.
Proof.
  rewrite !halfToFullAlphanumeric_map, !fullToHalfAlphanumeric_map, !map_map.
  rewrite !map_fixes_iff.
  split; [|split; [|repeat split; apply map_ext; intros u; unit_cases]];
    (erewrite forallb_ext_eq; [reflexivity|]); intros u; simpl;
    unfold class_ascii_alnum, class_fullwidth_alnum, class_range;
    repeat match goal with
           | |- context [if ?b then _ else _] => destruct b eqn:?
           end;
    lia.
Qed.

(** ** Further properties: [halfToFullKatakana] *)

Section KatakanaTables.

Lemma halfToFull_entry (c v : Z) :
  halfToFull !! c = Some v -> 0xFF61 <= c <= 0xFF9F /\ 0x3001 <= v <= 0x30FC.
Proof.
  intros H. unfold halfToFull in H. apply elem_of_list_to_map_2 in H.
  repeat (apply elem_of_cons in H as [H|H]; [injection H as -> ->; lia|]).
  apply elem_of_nil in H. contradiction.
Qed.

Lemma dakutenMap_entry (c v : Z) :
  dakutenMap !! c = Some v -> 0x30AC <= v <= 0x30DC.
Proof.
  intros H. unfold dakutenMap in H. apply elem_of_list_to_map_2 in H.
  repeat (apply elem_of_cons in H as [H|H]; [injection H as -> ->; lia|]).
  apply elem_of_nil in H. contradiction.
Qed.

Lemma handakutenMap_entry (c v : Z) :
  handakutenMap !! c = Some v -> 0x30D1 <= v <= 0x30DD.
Proof.
  intros H. unfold handakutenMap in H. apply elem_of_list_to_map_2 in H.
  repeat (apply elem_of_cons in H as [H|H]; [injection H as -> ->; lia|]).
  apply elem_of_nil in H. contradiction.
Qed.

(** The table has an entry for every unit of the half-width block. *)
Lemma halfToFull_covers (c : Z) :
  0xFF61 <= c <= 0xFF9F -> exists v, halfToFull !! c = Some v.
Proof.
  intros Hc.
  assert (Hall : forallb (fun k => match halfToFull !! (0xFF61 + Z.of_nat k) with
                                   | Some _ => true
                                   | None => false
                                   end) (seq 0 63) = true)
    by (vm_compute; reflexivity).
  rewrite forallb_forall in Hall.
  specialize (Hall (Z.to_nat (c - 0xFF61))).
  replace (0xFF61 + Z.of_nat (Z.to_nat (c - 0xFF61))) with c in Hall by lia.
  destruct (halfToFull !! c) as [v|]; [exists v; reflexivity|].
  assert (false = true); [|discriminate].
  apply Hall. apply in_seq. lia.
Qed.

Lemma image_not_half_width (c : Z) :
  half_width_kana (lookup_or halfToFull c) = false.
Proof.
  unfold lookup_or, half_width_kana, class_range.
  destruct (halfToFull !! c) as [v|] eqn:Hc; cbn [from_option id].
  - apply halfToFull_entry in Hc. lia.
  - destruct ((0xFF61 <=? c) && (c <=? 0xFF9F)) eqn:Hr; [|reflexivity].
    destruct (halfToFull_covers c) as [v Hv]; [lia | congruence].
Qed.

Lemma combine_not_half_width (c m : Z) :
  half_width_kana (combine c m) = false.
Proof.
  rewrite combine_entry. unfold combining_entry.
  destruct (m =? DAKUTEN);
    match goal with
    | |- context [?map !! ?k] => destruct (map !! k) as [v|] eqn:Hv
    end; cbn [from_option id]; try apply image_not_half_width;
    [apply dakutenMap_entry in Hv | apply handakutenMap_entry in Hv];
    unfold half_width_kana, class_range; lia.
Qed.

Lemma image_fixed (c : Z) :
  half_width_kana c = false -> lookup_or halfToFull c = c.
Proof.
  intros Hc. unfold lookup_or.
  destruct (halfToFull !! c) as [v|] eqn:Hv; [|reflexivity].
  apply halfToFull_entry in Hv. unfold half_width_kana, class_range in Hc. lia.
Qed.

Lemma mark_half_width (c : Z) : is_mark c = true -> half_width_kana c = true.
Proof.
  unfold is_mark, half_width_kana, class_range, DAKUTEN, HANDAKUTEN. lia.
Qed.

Lemma scan_no_half_width (s : jsstring) :
  forallb (fun u => negb (half_width_kana u)) (scan s) = true.
Proof.
  induction s as [|c|c d tl IHtl IHd] using list_pair_ind.
  - reflexivity.
  - cbn [scan forallb]. rewrite image_not_half_width. reflexivity.
  - rewrite scan_cons2. destruct (is_mark d); cbn [forallb].
    + rewrite combine_not_half_width. exact IHtl.
    + rewrite image_not_half_width. exact IHd.
Qed.

Lemma scan_fixed (s : jsstring) :
  forallb (fun u => negb (half_width_kana u)) s = true -> scan s = s.
Proof.
  induction s as [|c tl IH]; [reflexivity|].
  intros H. cbn [forallb] in H. apply andb_true_iff in H as [Hc Htl].
  apply negb_true_iff in Hc. specialize (IH Htl).
  destruct tl as [|d tl'].
  - cbn [scan]. rewrite image_fixed by assumption. reflexivity.
  - rewrite scan_cons2. cbn [forallb] in Htl. apply andb_true_iff in Htl as [Hd _].
    apply negb_true_iff in Hd.
    destruct (is_mark d) eqn:Hm; [apply mark_half_width in Hm; congruence|].
    rewrite IH, image_fixed by assumption. reflexivity.
Qed.

Lemma scan_no_mark (s : jsstring) :
  forallb (fun u => negb (is_mark u)) s = true ->
  scan s = map (lookup_or halfToFull) s.
Proof.
  induction s as [|c tl IH]; [reflexivity|].
  intros H. cbn [forallb] in H. apply andb_true_iff in H as [_ Htl]. specialize (IH Htl).
  destruct tl as [|d tl']; [reflexivity|].
  rewrite scan_cons2. cbn [forallb] in Htl. apply andb_true_iff in Htl as [Hd _].
  apply negb_true_iff in Hd. rewrite Hd, IH. reflexivity.
Qed.

Lemma scan_length (s : jsstring) :
  (length (scan s) <= length s <= 2 * length (scan s))%nat.
Proof.
  induction s as [|c|c d tl IHtl IHd] using list_pair_ind;
    [cbn [scan length]; lia..|].
  rewrite scan_cons2. destruct (is_mark d); cbn [length] in *; lia.
Qed.

End KatakanaTables.

(** X13.  The result of [halfToFullKatakana] holds no unit of the
    half-width katakana block [0xFF61, 0xFF9F], marks and punctuation
    included, whatever the input. *)
Theorem halfToFullKatakana_no_half_width (text : jsstring) :
  exists out,
    halfToFullKatakana text = Some out /\
    forallb (fun u => negb (half_width_kana u)) out = true.
Proof.
  exists (scan text). split; [apply halfToFullKatakana_scan | apply scan_no_half_width].
Qed.

(** X14.  [halfToFullKatakana] is idempotent: converting a result again
    returns it unchanged. *)
Theorem halfToFullKatakana_idempotent (text out : jsstring) :
  halfToFullKatakana text = Some out -> halfToFullKatakana out = Some out.
Proof.
  rewrite !halfToFullKatakana_scan. intros H. injection H as <-.
  rewrite scan_fixed by apply scan_no_half_width. reflexivity.
Qed.

Lemma halfToFullKatakana_idempotent_witness :
  halfToFullKatakana [0x30AC; 0x30A2; 0x41] = Some [0x30AC; 0x30A2; 0x41].
Proof.
  apply (halfToFullKatakana_idempotent [0xFF76; 0xFF9E; 0xFF71; 0xFF9F; 0x41]).
  vm_compute. reflexivity.
Defined.

(** X15.  [halfToFullKatakana] never lengthens a string and at most
    halves it; without a mark U+FF9E or U+FF9F in the input it converts
    unit by unit through the table, and without any unit of the
    half-width block it returns the input. *)
Theorem halfToFullKatakana_length_passthrough (text : jsstring) :
  exists out,
    halfToFullKatakana text = Some out /\
    (length out <= length text <= 2 * length out)%nat /\
    (forallb (fun u => negb (is_mark u)) text = true ->
       out = map (lookup_or halfToFull) text) /\
    (forallb (fun u => negb (half_width_kana u)) text = true -> out = text).
Proof.
  exists (scan text). split; [apply halfToFullKatakana_scan|].
  split; [apply scan_length|]. split; [apply scan_no_mark | apply scan_fixed].
Qed.

Lemma halfToFullKatakana_length_passthrough_witness :
  exists out,
    halfToFullKatakana [0x41; 0x3042] = Some out /\ out = [0x41; 0x3042].
Proof.
  destruct (halfToFullKatakana_length_passthrough [0x41; 0x3042])
    as (out & Hout & _ & _ & Hsame).
  exists out. split; [exact Hout | apply Hsame; reflexivity].
Defined.

(** ** Further properties: whitespace *)

Section Whitespace.

Variable p : Z -> bool.

Lemma class_run_take (s : jsstring) : forallb p (take (class_run p s) s) = true.
Proof.
  induction s as [|c tl IH]; [reflexivity|].
  simpl. destruct (p c) eqn:Hc; simpl; [rewrite Hc; exact IH | reflexivity].
Qed.

Lemma strip_end_split (s : jsstring) :
  exists trail, s = strip_end p s ++ trail /\ forallb p trail = true.
Proof.
  induction s as [|c tl (trail & Heq & Htrail)]; [exists []; split; reflexivity|].
  rewrite strip_end_cons. destruct (forallb p (c :: tl)) eqn:Hall.
  - exists (c :: tl). split; [reflexivity | exact Hall].
  - exists trail. split; [simpl; rewrite <- Heq; reflexivity | exact Htrail].
Qed.

Lemma strip_end_last (s : jsstring) :
  on_first p (rev (strip_end p s)) = false.
Proof.
  induction s as [|c tl IH]; [reflexivity|].
  rewrite strip_end_cons. destruct (forallb p (c :: tl)) eqn:Hall; [reflexivity|].
  simpl rev. destruct (rev (strip_end p tl)) as [|x l] eqn:Hrev; [|exact IH].
  simpl. apply (f_equal (@rev Z)) in Hrev. rewrite rev_involutive in Hrev. simpl in Hrev.
  apply strip_end_nil_inv in Hrev.
  simpl in Hall. rewrite Hrev, andb_true_r in Hall. exact Hall.
Qed.

Lemma strip_end_first (s : jsstring) :
  class_run p s = O -> on_first p (strip_end p s) = false.
Proof.
  destruct s as [|c tl]; [reflexivity|].
  simpl class_run. destruct (p c) eqn:Hc; [discriminate|]. intros _.
  rewrite strip_end_cons. simpl forallb. rewrite Hc. simpl. exact Hc.
Qed.

Lemma strip_end_fixed (s : jsstring) :
  forallb (fun u => negb (p u)) s = true -> strip_end p s = s.
Proof.
  induction s as [|c tl IH]; [reflexivity|].
  intros H. simpl in H. apply andb_true_iff in H as [Hc Htl].
  apply negb_true_iff in Hc.
  rewrite strip_end_cons. simpl forallb. rewrite Hc. simpl. rewrite IH by assumption.
  reflexivity.
Qed.

Lemma filter_all_out (s : jsstring) :
  forallb p s = true -> List.filter (fun u => negb (p u)) s = [].
Proof.
  induction s as [|c tl IH]; [reflexivity|].
  simpl. intros H. apply andb_true_iff in H as [-> Htl]. simpl. exact (IH Htl).
Qed.

Lemma filter_out_forallb (s : jsstring) :
  forallb (fun u => negb (p u)) (List.filter (fun u => negb (p u)) s) = true.
Proof.
  induction s as [|c tl IH]; [reflexivity|].
  simpl. destruct (p c) eqn:Hc; simpl; [|rewrite Hc]; exact IH.
Qed.

Lemma class_run_none (s : jsstring) :
  forallb (fun u => negb (p u)) s = true -> class_run p s = O.
Proof.
  destruct s as [|c tl]; [reflexivity|].
  simpl. intros H. apply andb_true_iff in H as [Hc _].
  apply negb_true_iff in Hc. rewrite Hc. reflexivity.
Qed.

(** A string is its leading run, its trimmed part and its trailing run. *)
Lemma trim_split (s : jsstring) :
  exists lead trail,
    s = lead ++ replace_global (trim_re p) (fun _ => []) s ++ trail /\
    forallb p lead = true /\ forallb p trail = true.
Proof.
  rewrite replace_global_trim.
  destruct (strip_end_split (drop (class_run p s) s)) as (trail & Heq & Htrail).
  exists (take (class_run p s) s), trail.
  split; [|split; [apply class_run_take | exact Htrail]].
  rewrite <- Heq. symmetry. apply take_drop.
Qed.

Lemma trim_ends (s : jsstring) :
  on_first p (replace_global (trim_re p) (fun _ => []) s) = false /\
  on_first p (rev (replace_global (trim_re p) (fun _ => []) s)) = false.
Proof.
  rewrite replace_global_trim. split.
  - apply strip_end_first, class_run_drop.
  - apply strip_end_last.
Qed.

Lemma trim_fixed (s : jsstring) :
  forallb (fun u => negb (p u)) s = true ->
  replace_global (trim_re p) (fun _ => []) s = s.
Proof.
  intros H. rewrite replace_global_trim, class_run_none by assumption.
  simpl drop. apply strip_end_fixed. exact H.
Qed.

Lemma trim_empty_iff (s : jsstring) :
  replace_global (trim_re p) (fun _ => []) s = [] <-> forallb p s = true.
Proof.
  split.
  - intros H. destruct (trim_split s) as (lead & trail & Heq & Hlead & Htrail).
    rewrite H in Heq. rewrite Heq. simpl. rewrite forallb_app, Hlead, Htrail. reflexivity.
  - intros H. rewrite replace_global_trim.
    replace (class_run p s) with (length s)
      by (symmetry; apply Nat.eqb_eq; rewrite class_run_all; exact H).
    rewrite drop_all. reflexivity.
Qed.

End Whitespace.

Lemma filter_app_eq {A : Type} (f : A -> bool) (l1 l2 : list A) :
  List.filter f (l1 ++ l2) = List.filter f l1 ++ List.filter f l2.
Proof.
  induction l1 as [|x l1 IH]; [reflexivity|].
  simpl. destruct (f x); simpl; rewrite IH; reflexivity.
Qed.

(** X16.  [trimJapanese s] is the middle of [s]: [s] is a run of
    whitespace, then [trimJapanese s], then a run of whitespace, and
    [trimJapanese s] neither starts nor ends with a whitespace
    character.  It is empty exactly when [s] is all whitespace. *)
Theorem trimJapanese_middle (s : jsstring) :
  (exists lead trail,
      s = lead ++ trimJapanese s ++ trail /\
      forallb class_space lead = true /\ forallb class_space trail = true) /\
  on_first class_space (trimJapanese s) = false /\
  on_first class_space (rev (trimJapanese s)) = false /\
  (trimJapanese s = [] <-> forallb class_space s = true).
Proof.
  unfold trimJapanese. split; [apply trim_split|].
  split; [apply trim_ends|]. split; [apply trim_ends | apply trim_empty_iff].
Qed.

(** X17.  Removing all whitespace makes trimming redundant in either
    order, distributes over concatenation and leaves no whitespace
    character behind. *)
Theorem removeAllWhitespace_compose (s t : jsstring) :
  removeAllWhitespace (trimJapanese s) = removeAllWhitespace s /\
  trimJapanese (removeAllWhitespace s) = removeAllWhitespace s /\
  removeAllWhitespace (s ++ t) = removeAllWhitespace s ++ removeAllWhitespace t /\
  forallb (fun u => negb (class_space u)) (removeAllWhitespace s) = true.
Proof.
  unfold removeAllWhitespace. rewrite !replace_class_delete.
  split; [|split; [|split]].
  - destruct (trim_split class_space s) as (lead & trail & Heq & Hlead & Htrail).
    rewrite Heq at 2. rewrite !filter_app_eq.
    rewrite (filter_all_out class_space lead Hlead),
            (filter_all_out class_space trail Htrail), app_nil_r.
    reflexivity.
  - unfold trimJapanese. apply trim_fixed, filter_out_forallb.
  - apply filter_app_eq.
  - apply filter_out_forallb.
Qed.

Lemma normalizeWhitespace_map (s : jsstring) :
  normalizeWhitespace s = map (fun u => if u =? 0x3000 then 0x20 else u) s.
Proof. unfold normalizeWhitespace. apply replace_class_const. Qed.

(** X18.  [normalizeWhitespace] replaces each U+3000 by a space in place
    and changes nothing else; it is idempotent, its result holds no
    U+3000, and it does not change what [removeAllWhitespace] returns. *)
Theorem normalizeWhitespace_properties (s : jsstring) :
  normalizeWhitespace s = map (fun u => if u =? 0x3000 then 0x20 else u) s /\
  normalizeWhitespace (normalizeWhitespace s) = normalizeWhitespace s /\
  forallb (fun u => negb (u =? 0x3000)) (normalizeWhitespace s) = true /\
  removeAllWhitespace (normalizeWhitespace s) = removeAllWhitespace s.
Proof.
  unfold removeAllWhitespace. rewrite !replace_class_delete, !normalizeWhitespace_map.
  rewrite map_map. split; [reflexivity|]. split; [|split].
  - apply map_ext. intros u. destruct (u =? 0x3000) eqn:Hu; [reflexivity | rewrite Hu; reflexivity].
  - induction s as [|u tl IH]; [reflexivity|].
    simpl. rewrite IH. destruct (u =? 0x3000) eqn:Hu; [reflexivity | rewrite Hu; reflexivity].
  - induction s as [|u tl IH]; [reflexivity|].
    simpl. rewrite IH. destruct (u =? 0x3000) eqn:Hu; [|reflexivity].
    apply Z.eqb_eq in Hu. subst u. reflexivity.
Qed.

(** ** Facts about [test], anchors and [slice] *)

Section RegexFacts.

Lemma match_at_bol (atoms : list atom) (pos : nat) (s : jsstring) :
  match_at [Bol :: atoms] pos s
  = if Nat.eqb pos 0 then match_seq atoms pos s else None.
Proof.
  change (match_at [Bol :: atoms] pos s) with
    (match (if Nat.eqb pos 0 then match_seq atoms pos s else None) with
     | Some m => Some m
     | None => None
     end).
  destruct (Nat.eqb pos 0); [destruct (match_seq atoms pos s)|]; reflexivity.
Qed.

Lemma test_from_cons (re : list (list atom)) (pos : nat) (s : jsstring) :
  test_from re pos s
  = match match_at re pos s with
    | Some _ => true
    | None => match s with [] => false | _ :: tl => test_from re (S pos) tl end
    end.
Proof. destruct s; reflexivity. Qed.

(** An expression anchored by [^] can only match at offset 0. *)
Lemma test_from_bol_later (atoms : list atom) (s : jsstring) :
  forall pos, test_from [Bol :: atoms] (S pos) s = false.
Proof.
  induction s as [|c tl IH]; intros pos; rewrite test_from_cons, match_at_bol;
    [reflexivity | apply IH].
Qed.

Lemma test_bol (atoms : list atom) (s : jsstring) :
  test [Bol :: atoms] s
  = match match_seq atoms O s with Some _ => true | None => false end.
Proof.
  unfold test. rewrite test_from_cons, match_at_bol.
  change (Nat.eqb 0 0) with true. cbv iota.
  destruct (match_seq atoms O s); [reflexivity|].
  destruct s; [reflexivity | apply test_from_bol_later].
Qed.

Lemma match_seq_class (p : Z -> bool) (atoms : list atom) (pos : nat) (s : jsstring) :
  match_seq (Class p :: atoms) pos s
  = match s with
    | c :: tl =>
        if p c
        then match match_seq atoms (S pos) tl with
             | Some m => Some (S m)
             | None => None
             end
        else None
    | [] => None
    end.
Proof. reflexivity. Qed.

(** [[p]{n}$] matches exactly the strings of [n] units of the class. *)
Lemma match_seq_repeat_eol (p : Z -> bool) (n : nat) :
  forall (pos : nat) (s : jsstring),
    match_seq (repeat (Class p) n ++ [Eol]) pos s
    = if Nat.eqb (length s) n && forallb p s then Some n else None.
Proof.
  induction n as [|n IH]; intros pos s.
  - destruct s; reflexivity.
  - cbn [repeat app]. rewrite match_seq_class.
    destruct s as [|c tl]; [reflexivity|].
    rewrite IH. cbn [length forallb Nat.eqb].
    destruct (p c); [|rewrite andb_false_r; reflexivity].
    rewrite andb_true_l.
    destruct (Nat.eqb (length tl) n && forallb p tl); reflexivity.
Qed.

(** [^[p]+$] matches exactly the non-empty strings of units of the
    class. *)
Lemma test_all_of_class (p : Z -> bool) (s : jsstring) :
  test [[Bol; ClassPlus p; Eol]] s = negb (falsy s) && forallb p s.
Proof.
  rewrite test_bol.
  change (match_seq [ClassPlus p; Eol] O s) with
    (give_back (fun k => match_seq [Eol] (O + k)%nat (drop k s)) (class_run p s)).
  destruct s as [|c tl]; [reflexivity|].
  change (negb (falsy (c :: tl))) with true. rewrite andb_true_l.
  rewrite <- class_run_all.
  destruct (Nat.eqb (class_run p (c :: tl)) (length (c :: tl))) eqn:Hall.
  - apply Nat.eqb_eq in Hall. rewrite Hall, give_back_eol_full by discriminate.
    reflexivity.
  - apply Nat.eqb_neq in Hall. pose proof (class_run_le p (c :: tl)) as Hle.
    rewrite give_back_eol_short by lia. reflexivity.
Qed.

Lemma test_digits (n : nat) (s : jsstring) :
  test (digits_re n) s = Nat.eqb (length s) n && forallb class_d s.
Proof.
  unfold digits_re. rewrite test_bol, match_seq_repeat_eol.
  destruct (Nat.eqb (length s) n && forallb class_d s); reflexivity.
Qed.

Lemma slice_nat (s : jsstring) (a b : nat) :
  slice s (Z.of_nat a) (Some (Z.of_nat b)) = take (b - a) (drop a s).
Proof.
  unfold slice, slice_index.
  replace (Z.of_nat a <? 0) with false by (symmetry; apply Z.ltb_ge; lia).
  replace (Z.of_nat b <? 0) with false by (symmetry; apply Z.ltb_ge; lia).
  rewrite !Nat2Z.id.
  destruct (Nat.le_gt_cases (length s) a) as [Ha|Ha].
  - rewrite (Nat.min_r a) by lia. rewrite !drop_ge by lia. rewrite !take_nil. reflexivity.
  - rewrite (Nat.min_l a) by lia.
    destruct (Nat.le_gt_cases (length s) b) as [Hb|Hb].
    + rewrite (Nat.min_r b) by lia.
      rewrite !take_ge by (rewrite length_drop; lia). reflexivity.
    + rewrite (Nat.min_l b) by lia. reflexivity.
Qed.

Lemma slice_from_nat (s : jsstring) (a : nat) :
  slice s (Z.of_nat a) None = drop a s.
Proof.
  unfold slice, slice_index.
  replace (Z.of_nat a <? 0) with false by (symmetry; apply Z.ltb_ge; lia). rewrite Nat2Z.id.
  destruct (Nat.le_gt_cases (length s) a) as [Ha|Ha].
  - rewrite (Nat.min_r a) by lia. rewrite !drop_ge by lia. apply take_nil.
  - rewrite (Nat.min_l a) by lia. apply take_ge. rewrite length_drop. lia.
Qed.

End RegexFacts.

(** ** Further properties: postal codes *)

Section PostalCode.

Lemma postal_slices (cleaned : jsstring) :
  slice cleaned 0 (Some 3) ++ [0x2D] ++ slice cleaned 3 None
  = take 3 cleaned ++ [0x2D] ++ drop 3 cleaned.
Proof.
  change (slice cleaned 0 (Some 3))
    with (slice cleaned (Z.of_nat 0) (Some (Z.of_nat 3))).
  change (slice cleaned 3 None) with (slice cleaned (Z.of_nat 3) None).
  rewrite slice_nat, slice_from_nat. reflexivity.
Qed.

Lemma clean_dash_format (cleaned : jsstring) :
  forallb (fun u => negb (class_hyphen_space u)) cleaned = true ->
  List.filter (fun u => negb (class_hyphen_space u))
    (take 3 cleaned ++ [0x2D] ++ drop 3 cleaned) = cleaned.
Proof.
  intros H. rewrite !filter_app_eq.
  assert (Hfix : forall l, forallb (fun u => negb (class_hyphen_space u)) l = true ->
                           List.filter (fun u => negb (class_hyphen_space u)) l = l)
    by (intros l; apply filter_eq_iff).
  rewrite <- (take_drop 3 cleaned), forallb_app in H.
  apply andb_true_iff in H as [Ht Hd].
  rewrite (Hfix _ Ht), (Hfix _ Hd). simpl. apply take_drop.
Qed.

End PostalCode.

Lemma digit_not_hyphen_space (l : jsstring) :
  forallb class_d l = true ->
  forallb (fun u => negb (class_hyphen_space u)) l = true.
Proof.
  induction l as [|u l IH]; [reflexivity|].
  simpl. intros H. apply andb_true_iff in H as [Hu Hl]. rewrite (IH Hl), andb_true_r.
  unfold class_d, class_range in Hu. unfold class_hyphen_space, class_s. lia.
Qed.

(** X19.  [validatePostalCode] accepts exactly the inputs that, once
    hyphens and whitespace are removed, are seven ASCII digits.  It then
    returns them as three digits, a hyphen and four digits, and
    otherwise no formatted value and the error message. *)
Theorem validatePostalCode_spec (postalCode : jsstring) :
  let cleaned := List.filter (fun u => negb (class_hyphen_space u)) postalCode in
  let r := validatePostalCode postalCode in
  (PostalCodeResult.valid r = true
   <-> length cleaned = 7%nat /\ forallb class_d cleaned = true) /\
  (PostalCodeResult.valid r = true ->
   PostalCodeResult.formatted r = Some (take 3 cleaned ++ [0x2D] ++ drop 3 cleaned) /\
   PostalCodeResult.error r = None) /\
  (PostalCodeResult.valid r = false ->
   PostalCodeResult.formatted r = None /\
   PostalCodeResult.error r = Some "Postal code must be 7 digits"%string).
Proof.
  cbv zeta. unfold validatePostalCode.
  rewrite replace_class_delete, test_digits, postal_slices.
  set (cleaned := List.filter (fun u => negb (class_hyphen_space u)) postalCode).
  destruct (Nat.eqb (length cleaned) 7) eqn:Hlen;
    [apply Nat.eqb_eq in Hlen | apply Nat.eqb_neq in Hlen];
    destruct (forallb class_d cleaned) eqn:Hd; simpl;
    (split; [split; [first [discriminate | intros _; split; [exact Hlen | reflexivity]]
                    | intros [H1 H2]; first [reflexivity | congruence]]
            | split; first [discriminate | intros _; split; reflexivity]]).
Qed.

Lemma validatePostalCode_spec_witness :
  PostalCodeResult.formatted (validatePostalCode [0x31; 0x30; 0x30; 0x20; 0x30; 0x30; 0x30; 0x31])
  = Some [0x31; 0x30; 0x30; 0x2D; 0x30; 0x30; 0x30; 0x31].
Proof.
  apply (proj1 (proj2 (validatePostalCode_spec
                         [0x31; 0x30; 0x30; 0x20; 0x30; 0x30; 0x30; 0x31]))).
  reflexivity.
Defined.

(** X20.  A formatted postal code is a fixed point: validating it again
    gives the same result, [formatPostalCode] returns the same string
    for the original input and leaves the formatted one unchanged, and
    it has eight characters. *)
Theorem postal_code_round_trip (postalCode f : jsstring) :
  PostalCodeResult.formatted (validatePostalCode postalCode) = Some f ->
  validatePostalCode f = validatePostalCode postalCode /\
  formatPostalCode postalCode = f /\
  formatPostalCode f = f /\
  length f = 8%nat.
Proof.
  unfold validatePostalCode, formatPostalCode.
  rewrite !replace_class_delete, test_digits, !postal_slices.
  set (cleaned := List.filter (fun u => negb (class_hyphen_space u)) postalCode).
  destruct (Nat.eqb (length cleaned) 7) eqn:Hlen; [|discriminate].
  destruct (forallb class_d cleaned) eqn:Hd; [|discriminate].
  cbn [negb andb PostalCodeResult.formatted]. intros H. injection H as <-.
  change (take 3 cleaned ++ 0x2D :: drop 3 cleaned)
    with (take 3 cleaned ++ [0x2D] ++ drop 3 cleaned).
  rewrite (clean_dash_format cleaned (digit_not_hyphen_space cleaned Hd)).
  rewrite test_digits, !Hlen, Hd.
  cbn [negb andb]. apply Nat.eqb_eq in Hlen.
  repeat split.
  rewrite length_app. cbn [app length]. rewrite length_take, length_drop. lia.
Qed.

Lemma postal_code_round_trip_witness :
  formatPostalCode [0x31; 0x30; 0x30; 0x30; 0x30; 0x30; 0x31]
  = [0x31; 0x30; 0x30; 0x2D; 0x30; 0x30; 0x30; 0x31].
Proof.
  apply (postal_code_round_trip [0x31; 0x30; 0x30; 0x30; 0x30; 0x30; 0x31]).
  reflexivity.
Defined.

(** X21.  [formatPostalCode] is idempotent; it checks the length only,
    and returns its argument unchanged unless seven characters remain
    once hyphens and whitespace are removed. *)
Theorem formatPostalCode_idempotent (postalCode : jsstring) :
  formatPostalCode (formatPostalCode postalCode) = formatPostalCode postalCode /\
  (length (List.filter (fun u => negb (class_hyphen_space u)) postalCode) <> 7%nat ->
   formatPostalCode postalCode = postalCode).
Proof.
  unfold formatPostalCode.
  rewrite !replace_class_delete, !postal_slices.
  set (cleaned := List.filter (fun u => negb (class_hyphen_space u)) postalCode).
  destruct (Nat.eqb (length cleaned) 7) eqn:Hlen.
  - split; [|apply Nat.eqb_eq in Hlen; congruence].
    rewrite (clean_dash_format cleaned) by apply filter_out_forallb.
    rewrite Hlen. reflexivity.
  - split; [|reflexivity].
    fold cleaned. rewrite Hlen. reflexivity.
Qed.

Lemma formatPostalCode_idempotent_witness :
  formatPostalCode [0x31; 0x32; 0x33] = [0x31; 0x32; 0x33].
Proof.
  apply (proj2 (formatPostalCode_idempotent [0x31; 0x32; 0x33])).
  vm_compute. discriminate.
Defined.

(** ** Further properties: the validators *)

Section Validators.

Lemma trim_replace (s : jsstring) :
  trim s = replace_global (trim_re class_s) (fun _ => []) s.
Proof. unfold trim. symmetry. apply replace_global_trim. Qed.

Lemma trim_nonempty (u : Z) (tl : jsstring) :
  class_s u = false -> str_eqb (trim (u :: tl)) [] = false.
Proof.
  intros Hu. unfold str_eqb. apply bool_decide_eq_false. rewrite trim_replace.
  rewrite trim_empty_iff. simpl. rewrite Hu. discriminate.
Qed.

Lemma spread_no_high (s : jsstring) :
  forallb (fun u => negb (is_high_surrogate u)) s = true ->
  spread s = map (fun u => [u]) s.
Proof.
  induction s as [|c tl IH]; [reflexivity|].
  intros H. cbn [forallb] in H. apply andb_true_iff in H as [Hc Htl].
  apply negb_true_iff in Hc. specialize (IH Htl).
  destruct tl as [|d tl']; [reflexivity|].
  rewrite spread_cons2, Hc. cbn [andb map]. rewrite IH. reflexivity.
Qed.

Lemma full_width_sum (s : jsstring) :
  forallb (fun u => 0xff <? u) s = true ->
  list_sum (map (fun u => if isFullWidth [u] then 2%nat else 1%nat) s)
  = (2 * length s)%nat.
Proof.
  induction s as [|u tl IH]; [reflexivity|].
  intros H. cbn [forallb] in H. apply andb_true_iff in H as [Hu Htl].
  unfold list_sum in *. cbn [map fold_right length]. rewrite (IH Htl).
  replace (isFullWidth [u]) with true by (symmetry; apply isFullWidth_unit; lia).
  lia.
Qed.

(** A string of units above 0xFF without a high surrogate is two
    columns per unit. *)
Lemma getDisplayWidth_full (s : jsstring) :
  forallb (fun u => (0xff <? u) && negb (is_high_surrogate u)) s = true ->
  getDisplayWidth s = (2 * length s)%nat.
Proof.
  intros H. unfold getDisplayWidth.
  rewrite spread_no_high.
  - rewrite (fold_left_sum (fun char => if isFullWidth char then 2%nat else 1%nat)).
    rewrite map_map. apply full_width_sum.
    rewrite forallb_forall in H |- *. intros u Hu. specialize (H u Hu).
    apply andb_true_iff in H as [H _]. exact H.
  - rewrite forallb_forall in H |- *. intros u Hu. specialize (H u Hu).
    apply andb_true_iff in H as [_ H]. exact H.
Qed.

Lemma script_sum_b2n (c : jsstring) :
  (Nat.b2n (isHiragana c) + Nat.b2n (isKatakana c) + Nat.b2n (isKanji c))%nat
  = Nat.b2n (on_first japanese_unit c).
Proof.
  pose proof (scripts_disjoint c) as Hdis.
  rewrite isHiragana_first, isKatakana_first, isKanji_first in *.
  destruct c as [|u tl]; [reflexivity|]. unfold japanese_unit. simpl in *.
  destruct (hiragana_unit u), (katakana_unit u), (kanji_unit u); simpl in *; lia.
Qed.

(** The three counts add up to the total exactly when every character
    is of one of the three scripts. *)
Lemma script_sum_total (chars : list jsstring) :
  Nat.eqb (length (List.filter isHiragana chars)
           + length (List.filter isKatakana chars)
           + length (List.filter isKanji chars)) (length chars)
  = forallb (on_first japanese_unit) chars.
Proof.
  induction chars as [|c chars IH]; [reflexivity|].
  rewrite !filter_length_b2n. cbn [forallb length].
  pose proof (script_sum_b2n c) as Hc. pose proof (scripts_count chars) as Hle.
  destruct (on_first japanese_unit c); simpl in Hc.
  - rewrite andb_true_l, <- IH.
    replace (Nat.b2n (isHiragana c) + length (List.filter isHiragana chars)
             + (Nat.b2n (isKatakana c) + length (List.filter isKatakana chars))
             + (Nat.b2n (isKanji c) + length (List.filter isKanji chars)))%nat
      with (S (length (List.filter isHiragana chars)
               + length (List.filter isKatakana chars)
               + length (List.filter isKanji chars))) by lia.
    reflexivity.
  - rewrite andb_false_l. apply Nat.eqb_neq. lia.
Qed.

Lemma japanese_unit_facts (u : Z) :
  japanese_unit u = true ->
  is_surrogate u = false /\ (0xff <? u) = true /\ class_s u = false.
Proof.
  unfold japanese_unit, hiragana_unit, katakana_unit, kanji_unit, class_range,
    is_surrogate, is_high_surrogate, is_low_surrogate, class_s.
  intros H. repeat split; lia.
Qed.

Lemma katakana_name_unit_facts (u : Z) :
  class_katakana_name u = true ->
  is_high_surrogate u = false /\ (0xff <? u) = true /\ class_s u = false.
Proof.
  unfold class_katakana_name, class_range, is_high_surrogate, class_s.
  intros H. repeat split; lia.
Qed.

Lemma errors_empty (c1 c2 c3 c4 c5 c6 : bool) (m1 m2 m3 m4 m5 m6 : string) :
  Nat.eqb (length (push_if c6 m6 (push_if c5 m5 (push_if c4 m4
             (push_if c3 m3 (push_if c2 m2 (push_if c1 m1 []))))))) 0
  = negb c1 && negb c2 && negb c3 && negb c4 && negb c5 && negb c6.
Proof. destruct c1, c2, c3, c4, c5, c6; reflexivity. Qed.

(** What one name has to satisfy. *)
Lemma name_checks (name : jsstring) :
  negb (falsy name || str_eqb (trim name) [])
  && negb (negb (Nat.eqb (hiragana (getCharacterStats name)
                          + katakana (getCharacterStats name)
                          + kanji (getCharacterStats name))
                         (total (getCharacterStats name))))
  && negb (Nat.ltb 20 (getDisplayWidth name)) = true
  <-> name <> [] /\ forallb japanese_unit name = true /\ (length name <= 10)%nat.
Proof.
  cbn [hiragana katakana kanji total getCharacterStats].
  rewrite script_sum_total, negb_involutive.
  rewrite (spread_forallb_units japanese_unit)
    by (intros u Hu; apply japanese_unit_facts, Hu).
  destruct (forallb japanese_unit name) eqn:Hj.
  - assert (Hw : getDisplayWidth name = (2 * length name)%nat).
    { apply getDisplayWidth_full. rewrite forallb_forall in Hj |- *.
      intros u Hu. destruct (japanese_unit_facts u (Hj u Hu)) as (Hs & Hf & _).
      unfold is_surrogate in Hs. apply orb_false_iff in Hs as [Hs _].
      rewrite Hf, Hs. reflexivity. }
    rewrite Hw. destruct name as [|u tl].
    + simpl. split; [discriminate | intros [H _]; congruence].
    + cbn [forallb] in Hj. apply andb_true_iff in Hj as [Hu _].
      destruct (japanese_unit_facts u Hu) as (_ & _ & Hws).
      rewrite (trim_nonempty u tl Hws). cbn [falsy orb negb andb].
      destruct (Nat.ltb_spec 20 (2 * length (u :: tl))) as [Hlt|Hge]; cbn [negb].
      * split; [discriminate | intros (_ & _ & Hlen); lia].
      * split; [intros _; repeat split; [discriminate | lia] | reflexivity].
  - rewrite andb_false_r, andb_false_l.
    split; [discriminate | intros (_ & H & _); discriminate].
Qed.

End Validators.

(** X22.  [validateJapaneseName] accepts a pair of names exactly when
    each name is non-empty, has at most 10 code units, and consists only
    of code units in the hiragana, katakana or kanji ranges.  A name with
    a character outside the Basic Multilingual Plane, such as a kanji of
    Extension B, is therefore rejected. *)
Theorem validateJapaneseName_valid (familyName givenName : jsstring) :
  NameResult.valid (validateJapaneseName familyName givenName) = true
  <-> (familyName <> [] /\ forallb japanese_unit familyName = true
       /\ (length familyName <= 10)%nat)
      /\ (givenName <> [] /\ forallb japanese_unit givenName = true
          /\ (length givenName <= 10)%nat).
Proof.
  rewrite <- (name_checks familyName), <- (name_checks givenName).
  unfold validateJapaneseName. cbv zeta. cbn [NameResult.valid].
  rewrite errors_empty.
  rewrite !andb_true_iff. tauto.
Qed.

(** X23.  [validateKatakanaName] accepts exactly the non-empty names of
    at most 20 code units, all in U+30A1..U+30F4, U+30FB or U+30FC. *)
Theorem validateKatakanaName_valid (name : jsstring) :
  Result.valid (validateKatakanaName name) = true
  <-> name <> [] /\ forallb class_katakana_name name = true
      /\ (length name <= 20)%nat.
Proof.
  unfold validateKatakanaName. cbv zeta. rewrite test_all_of_class.
  destruct name as [|u tl].
  - simpl. split; [discriminate | intros [H _]; congruence].
  - cbn [falsy orb negb andb].
    destruct (forallb class_katakana_name (u :: tl)) eqn:Hk.
    + assert (Hw : getDisplayWidth (u :: tl) = (2 * length (u :: tl))%nat).
      { apply getDisplayWidth_full. rewrite forallb_forall in Hk |- *.
        intros v Hv. destruct (katakana_name_unit_facts v (Hk v Hv)) as (Hs & Hf & _).
        rewrite Hf, Hs. reflexivity. }
      cbn [forallb] in Hk. apply andb_true_iff in Hk as [Hu _].
      destruct (katakana_name_unit_facts u Hu) as (_ & _ & Hws).
      rewrite (trim_nonempty u tl Hws), Hw. cbn [negb].
      destruct (Nat.ltb_spec 40 (2 * length (u :: tl))) as [Hlt|Hge]; cbn [Result.valid].
      * split; [discriminate | intros (_ & _ & Hlen); lia].
      * split; [intros _; repeat split; [discriminate | lia] | reflexivity].
    + cbn [negb]. destruct (str_eqb (trim (u :: tl)) []); cbn [Result.valid];
        (split; [discriminate | intros (_ & H & _); discriminate]).
Qed.

(** X24.  [validateFurigana] accepts exactly when the reading is
    non-empty, made of code units in the hiragana range and at least as
    long, in code units, as the number of kanji code units of the
    text. *)
Theorem validateFurigana_valid (kanjiText furigana : jsstring) :
  Result.valid (validateFurigana kanjiText furigana) = true
  <-> furigana <> [] /\ forallb hiragana_unit furigana = true
      /\ (length (List.filter kanji_unit kanjiText) <= length furigana)%nat.
Proof.
  unfold validateFurigana. cbv zeta.
  destruct (stats_count_extracts_aux kanjiText) as (_ & _ & Hkanji). cbv zeta in Hkanji.
  rewrite Hkanji, (proj2 (proj2 (extract_units_aux kanjiText))).
  destruct (isAllHiragana furigana) eqn:Hall; cbn [negb].
  - apply (proj1 (isAll_extract_aux furigana)) in Hall as [Hne Hex].
    rewrite (proj1 (extract_units_aux furigana)) in Hex. apply filter_eq_iff in Hex.
    destruct (Nat.ltb_spec (length furigana) (length (List.filter kanji_unit kanjiText)));
      cbn [Result.valid].
    + split; [discriminate | intros (_ & _ & Hlen); lia].
    + split; [intros _; repeat split; assumption | reflexivity].
  - cbn [Result.valid]. split; [discriminate|]. intros (Hne & Hh & _).
    assert (isAllHiragana furigana = true); [|congruence].
    apply (proj1 (isAll_extract_aux furigana)). split; [exact Hne|].
    rewrite (proj1 (extract_units_aux furigana)). apply filter_eq_iff. exact Hh.
Qed.

(** ** Further properties: [sanitizeInput] and [truncateText] *)

Section Sanitize.

Lemma forallb_trim (P : Z -> bool) (s : jsstring) :
  forallb P s = true -> forallb P (trim s) = true.
Proof.
  rewrite trim_replace.
  destruct (trim_split class_s s) as (lead & trail & Heq & _ & _).
  intros H. rewrite Heq, !forallb_app in H.
  apply andb_true_iff in H as [_ H]. apply andb_true_iff in H as [H _]. exact H.
Qed.

Lemma trim_idempotent (s : jsstring) : trim (trim s) = trim s.
Proof. rewrite !trim_replace. apply replace_global_trim_idem. Qed.

Lemma sanitize_steps (input : jsstring) :
  forallb sanitized_unit
    (map (fun u => if class_char 0x3000 u then 0x20 else u)
       (List.filter (fun u => negb (class_control u)) input)) = true.
Proof.
  induction input as [|u tl IH]; [reflexivity|].
  cbn [List.filter]. destruct (class_control u) eqn:Hc; cbn [negb]; [exact IH|].
  cbn [map forallb]. rewrite IH, andb_true_r.
  unfold sanitized_unit, class_char.
  destruct (u =? 0x3000) eqn:Hu; [reflexivity|].
  rewrite Hc, Hu. reflexivity.
Qed.

Lemma sanitized_fixed (s : jsstring) :
  forallb sanitized_unit s = true ->
  map (fun u => if class_char 0x3000 u then 0x20 else u)
    (List.filter (fun u => negb (class_control u)) s) = s.
Proof.
  induction s as [|u tl IH]; [reflexivity|].
  cbn [forallb]. intros H. apply andb_true_iff in H as [Hu Htl].
  unfold sanitized_unit in Hu. apply andb_true_iff in Hu as [Hc H3].
  cbn [List.filter]. rewrite Hc. cbn [map]. rewrite (IH Htl).
  unfold class_char. apply negb_true_iff in H3. rewrite H3. reflexivity.
Qed.

End Sanitize.

(** X25.  [sanitizeInput] is idempotent.  Its result holds none of the
    control characters it removes and no U+3000, and neither starts nor
    ends with a whitespace character. *)
Theorem sanitizeInput_properties (input : jsstring) :
  sanitizeInput (sanitizeInput input) = sanitizeInput input /\
  forallb (fun u => negb (class_control u) && negb (u =? 0x3000))
    (sanitizeInput input) = true /\
  on_first class_s (sanitizeInput input) = false /\
  on_first class_s (rev (sanitizeInput input)) = false.
Proof.
  unfold sanitizeInput. cbv zeta.
  rewrite !replace_class_delete, !replace_class_const.
  pose proof (forallb_trim sanitized_unit _ (sanitize_steps input)) as Hout.
  split; [|split; [exact Hout | rewrite trim_replace; apply trim_ends]].
  rewrite (sanitized_fixed _ Hout). apply trim_idempotent.
Qed.

(** X26.  [truncateText] returns a text of at most [maxLength] code
    units unchanged.  A longer text is cut to exactly [maxLength] units,
    ellipsis included, provided the ellipsis itself fits; when the
    ellipsis is longer than [maxLength] the result is longer than
    [maxLength]. *)
Theorem truncateText_length (text : jsstring) (maxLength : Z)
  (ellipsis : option jsstring) :
  let e := default [0x2E; 0x2E; 0x2E] ellipsis in
  (Z.of_nat (length text) <= maxLength ->
   truncateText text maxLength ellipsis = text) /\
  (maxLength < Z.of_nat (length text) -> Z.of_nat (length e) <= maxLength ->
   truncateText text maxLength ellipsis
   = take (Z.to_nat (maxLength - Z.of_nat (length e))) text ++ e /\
   Z.of_nat (length (truncateText text maxLength ellipsis)) = maxLength) /\
  (maxLength < Z.of_nat (length text) -> maxLength < Z.of_nat (length e) ->
   maxLength < Z.of_nat (length (truncateText text maxLength ellipsis))).
Proof.
  cbv zeta. unfold truncateText.
  set (e := default [0x2E; 0x2E; 0x2E] ellipsis).
  assert (Hslice : forall k,
             slice text 0 (Some k) = take (slice_index (length text) k) text).
  { intros k. unfold slice. change (slice_index (length text) 0) with (Nat.min 0 (length text)).
    rewrite Nat.min_0_l, Nat.sub_0_r. reflexivity. }
  rewrite Hslice.
  destruct (Z.leb_spec (Z.of_nat (length text)) maxLength) as [Hle|Hgt].
  - split; [reflexivity|]. split; intros; lia.
  - split; [intros; lia|]. split; intros Hlong He.
    + unfold slice_index.
      replace (maxLength - Z.of_nat (length e) <? 0) with false
        by (symmetry; apply Z.ltb_ge; lia).
      rewrite Nat.min_l by lia. split; [reflexivity|].
      rewrite length_app, length_take. lia.
    + unfold slice_index.
      replace (maxLength - Z.of_nat (length e) <? 0) with true
        by (symmetry; apply Z.ltb_lt; lia).
      rewrite length_app, length_take. lia.
Qed.

Lemma truncateText_length_witness :
  2 < Z.of_nat (length (truncateText [0x61; 0x62; 0x63; 0x64; 0x65; 0x66] 2 None)).
Proof.
  apply (proj2 (proj2 (truncateText_length [0x61; 0x62; 0x63; 0x64; 0x65; 0x66] 2 None)));
    simpl; lia.
Defined.

(** ** Further properties: phone numbers *)

Section PhoneNumber.

Lemma test_mobile (s : jsstring) : test mobile_re s = mobile_shape s.
Proof.
  unfold mobile_re. rewrite test_bol, match_seq_class.
  destruct s as [|a s]; [reflexivity|].
  unfold class_char at 1. unfold mobile_shape.
  destruct (a =? 0x30); [|destruct s as [|? [|? ?]]; reflexivity].
  rewrite match_seq_class. destruct s as [|b s]; [reflexivity|].
  destruct (class_789 b); [|destruct s; reflexivity].
  rewrite match_seq_class. destruct s as [|c rest]; [reflexivity|].
  unfold class_char. destruct (c =? 0x30); [|reflexivity].
  rewrite match_seq_repeat_eol. cbn [andb].
  destruct (Nat.eqb (length rest) 8 && forallb class_d rest); reflexivity.
Qed.

Lemma test_landline (s : jsstring) : test landline_re s = landline_shape s.
Proof.
  unfold landline_re. rewrite test_bol.
  destruct s as [|a rest]; [reflexivity|].
  rewrite match_seq_class. unfold class_char, landline_shape.
  destruct (a =? 0x30); [|reflexivity].
  rewrite match_seq_repeat_eol. cbn [andb].
  destruct (Nat.eqb (length rest) 9 && forallb class_d rest); reflexivity.
Qed.

Lemma test_prefix3 (p1 p2 p3 : Z -> bool) (s : jsstring) :
  test [[Bol; Class p1; Class p2; Class p3]] s
  = match s with
    | a :: b :: c :: _ => p1 a && p2 b && p3 c
    | _ => false
    end.
Proof.
  rewrite test_bol.
  destruct s as [|a [|b [|c rest]]]; cbn [match_seq];
    repeat match goal with
           | |- context [if ?p ?x then _ else _] => destruct (p x)
           end; reflexivity.
Qed.

Lemma test_prefix2 (p1 p2 : Z -> bool) (s : jsstring) :
  test [[Bol; Class p1; Class p2]] s
  = match s with
    | a :: b :: _ => p1 a && p2 b
    | _ => false
    end.
Proof.
  rewrite test_bol.
  destruct s as [|a [|b rest]]; cbn [match_seq];
    repeat match goal with
           | |- context [if ?p ?x then _ else _] => destruct (p x)
           end; reflexivity.
Qed.

Lemma mobile_shape_facts (s : jsstring) :
  mobile_shape s = true ->
  length s = 11%nat /\ forallb class_d s = true /\
  test [[Bol; Class (class_char 0x30); Class class_789; Class (class_char 0x30)]] s = true.
Proof.
  rewrite test_prefix3.
  destruct s as [|a [|b [|c rest]]]; try discriminate.
  unfold mobile_shape, class_char. intros H.
  rewrite !andb_true_iff in H. destruct H as ((((Ha & Hb) & Hc) & Hlen) & Hd).
  apply Nat.eqb_eq in Hlen. cbn [length forallb]. rewrite Ha, Hb, Hc, Hd.
  repeat split; [lia|].
  unfold class_d, class_789, class_range in *. apply andb_true_iff.
  split; [lia|]. apply andb_true_iff. split; [lia|]. apply andb_true_iff.
  split; [lia | reflexivity].
Qed.

Lemma landline_shape_facts (s : jsstring) :
  landline_shape s = true ->
  length s = 10%nat /\ forallb class_d s = true /\
  test [[Bol; Class (class_char 0x30); Class class_d]] s = true.
Proof.
  rewrite test_prefix2.
  destruct s as [|a rest]; try discriminate.
  unfold landline_shape, class_char. intros H.
  rewrite !andb_true_iff in H. destruct H as ((Ha & Hlen) & Hd).
  apply Nat.eqb_eq in Hlen.
  destruct rest as [|b rest]; [discriminate|].
  cbn [length forallb] in *. rewrite Ha, Hd.
  apply andb_true_iff in Hd as [Hb _]. rewrite Hb.
  repeat split; [lia|].
  unfold class_d, class_range in *. apply andb_true_iff. split; [lia | reflexivity].
Qed.

Lemma digit_not_hyphen_space_paren (l : jsstring) :
  forallb class_d l = true ->
  forallb (fun u => negb (class_hyphen_space_paren u)) l = true.
Proof.
  induction l as [|u l IH]; [reflexivity|].
  simpl. intros H. apply andb_true_iff in H as [Hu Hl]. rewrite (IH Hl), andb_true_r.
  unfold class_d, class_range in Hu. unfold class_hyphen_space_paren, class_s. lia.
Qed.

(** Removing the separators of [hyphenated] gives the string back. *)
Lemma clean_hyphenated (cleaned : jsstring) (i j : nat) :
  (i <= j)%nat ->
  forallb (fun u => negb (class_hyphen_space_paren u)) cleaned = true ->
  List.filter (fun u => negb (class_hyphen_space_paren u)) (hyphenated i j cleaned)
  = cleaned.
Proof.
  intros Hij H. unfold hyphenated.
  assert (Hfix : forall l,
             forallb (fun u => negb (class_hyphen_space_paren u)) l = true ->
             List.filter (fun u => negb (class_hyphen_space_paren u)) l = l)
    by (intros l; apply filter_eq_iff).
  assert (Hsub : forall l1 l2,
             forallb (fun u => negb (class_hyphen_space_paren u)) (l1 ++ l2) = true ->
             forallb (fun u => negb (class_hyphen_space_paren u)) l1 = true /\
             forallb (fun u => negb (class_hyphen_space_paren u)) l2 = true)
    by (intros l1 l2 Hl; rewrite forallb_app in Hl; apply andb_true_iff in Hl; exact Hl).
  assert (Hparts : cleaned = take i cleaned ++ take (j - i) (drop i cleaned) ++ drop j cleaned).
  { rewrite <- (take_drop i cleaned) at 1. f_equal.
    rewrite <- (take_drop (j - i) (drop i cleaned)) at 1. f_equal.
    rewrite drop_drop. f_equal. lia. }
  rewrite Hparts in H. apply Hsub in H as [H1 H]. apply Hsub in H as [H2 H3].
  rewrite !filter_app_eq, (Hfix _ H1), (Hfix _ H2), (Hfix _ H3).
  cbn [List.filter]. change (negb (class_hyphen_space_paren 0x2D)) with false.
  cbv iota. cbn [app]. symmetry. exact Hparts.
Qed.

Lemma phone_slices (cleaned : jsstring) (i j : nat) :
  slice cleaned (Z.of_nat 0) (Some (Z.of_nat i)) ++ [0x2D]
  ++ slice cleaned (Z.of_nat i) (Some (Z.of_nat j)) ++ [0x2D]
  ++ slice cleaned (Z.of_nat j) None
  = hyphenated i j cleaned.
Proof.
  rewrite !slice_nat, slice_from_nat. unfold hyphenated.
  rewrite Nat.sub_0_r, drop_0. reflexivity.
Qed.

Lemma slices_3_7 (c : jsstring) :
  slice c 0 (Some 3) ++ [0x2D] ++ slice c 3 (Some 7) ++ [0x2D] ++ slice c 7 None
  = hyphenated 3 7 c.
Proof. exact (phone_slices c 3 7). Qed.

Lemma slices_2_6 (c : jsstring) :
  slice c 0 (Some 2) ++ [0x2D] ++ slice c 2 (Some 6) ++ [0x2D] ++ slice c 6 None
  = hyphenated 2 6 c.
Proof. exact (phone_slices c 2 6). Qed.

Lemma slices_3_6 (c : jsstring) :
  slice c 0 (Some 3) ++ [0x2D] ++ slice c 3 (Some 6) ++ [0x2D] ++ slice c 6 None
  = hyphenated 3 6 c.
Proof. exact (phone_slices c 3 6). Qed.

Lemma shapes_need_digits (c : jsstring) :
  negb (falsy c) && forallb class_d c = false ->
  mobile_shape c = false /\ landline_shape c = false.
Proof.
  intros H. split.
  - destruct (mobile_shape c) eqn:Hm; [|reflexivity].
    destruct (mobile_shape_facts c Hm) as (Hlen & Hd & _).
    destruct c; [discriminate|]. rewrite Hd in H. discriminate.
  - destruct (landline_shape c) eqn:Hl; [|reflexivity].
    destruct (landline_shape_facts c Hl) as (Hlen & Hd & _).
    destruct c; [discriminate|]. rewrite Hd in H. discriminate.
Qed.

(** The result of [validatePhoneNumber] in terms of the two shapes. *)
Lemma validatePhoneNumber_shapes (phoneNumber : jsstring) :
  let c := List.filter (fun u => negb (class_hyphen_space_paren u)) phoneNumber in
  validatePhoneNumber phoneNumber
  = if mobile_shape c then
      {| PhoneNumberResult.valid := true;
         PhoneNumberResult.formatted := Some (hyphenated 3 7 c);
         PhoneNumberResult.type := Some mobile;
         PhoneNumberResult.error := None |}
    else if landline_shape c then
      {| PhoneNumberResult.valid := true;
         PhoneNumberResult.formatted :=
           Some (if includes short_area_codes (take 2 c)
                 then hyphenated 2 6 c else hyphenated 3 6 c);
         PhoneNumberResult.type := Some landline;
         PhoneNumberResult.error := None |}
    else
      {| PhoneNumberResult.valid := false;
         PhoneNumberResult.formatted := None;
         PhoneNumberResult.type := None;
         PhoneNumberResult.error :=
           Some (if negb (falsy c) && forallb class_d c
                 then "Invalid phone number format"%string
                 else "Phone number must contain only digits"%string) |}.
Proof.
  cbv zeta. unfold validatePhoneNumber.
  rewrite replace_class_delete, test_all_of_class, test_mobile, test_landline.
  rewrite slices_3_7, slices_2_6, slices_3_6.
  change (slice ?c 0 (Some 2)) with (slice c (Z.of_nat 0) (Some (Z.of_nat 2))).
  rewrite slice_nat, Nat.sub_0_r, drop_0.
  set (c := List.filter (fun u => negb (class_hyphen_space_paren u)) phoneNumber).
  destruct (negb (falsy c) && forallb class_d c) eqn:Hd; cbn [negb].
  - destruct (mobile_shape c); [reflexivity|].
    destruct (landline_shape c); [|reflexivity].
    destruct (includes short_area_codes (take 2 c)); reflexivity.
  - destruct (shapes_need_digits c Hd) as [-> ->]. reflexivity.
Qed.

Lemma mobile_shape_iff (c : jsstring) :
  mobile_shape c = true
  <-> forallb class_d c = true /\ c !! O = Some 0x30 /\ length c = 11%nat /\
      (exists b, c !! 1%nat = Some b /\ class_789 b = true) /\
      c !! 2%nat = Some 0x30.
Proof.
  split.
  - intros H. destruct (mobile_shape_facts c H) as (Hlen & Hd & _).
    destruct c as [|a [|b [|c' rest]]]; try discriminate.
    unfold mobile_shape in H. rewrite !andb_true_iff, !Z.eqb_eq in H.
    destruct H as ((((-> & Hb) & ->) & _) & _).
    repeat split; try assumption; try reflexivity.
    exists b. split; [reflexivity | exact Hb].
  - intros (Hd & H0 & Hlen & (b & H1 & Hb) & H2).
    destruct c as [|a [|b' [|c' rest]]]; try discriminate.
    cbn in H0, H1, H2. injection H0 as ->. injection H1 as ->. injection H2 as ->.
    cbn [forallb] in Hd. rewrite !andb_true_iff in Hd. destruct Hd as (_ & _ & _ & Hd).
    unfold mobile_shape. rewrite Hb, Hd. cbn [length] in Hlen.
    replace (Nat.eqb (length rest) 8) with true by (symmetry; apply Nat.eqb_eq; lia).
    reflexivity.
Qed.

Lemma landline_shape_iff (c : jsstring) :
  landline_shape c = true
  <-> forallb class_d c = true /\ c !! O = Some 0x30 /\ length c = 10%nat.
Proof.
  split.
  - intros H. destruct (landline_shape_facts c H) as (Hlen & Hd & _).
    destruct c as [|a rest]; try discriminate.
    unfold landline_shape in H. rewrite !andb_true_iff, !Z.eqb_eq in H.
    destruct H as ((-> & _) & _). repeat split; assumption || reflexivity.
  - intros (Hd & H0 & Hlen).
    destruct c as [|a rest]; try discriminate.
    cbn in H0. injection H0 as ->.
    cbn [forallb] in Hd. apply andb_true_iff in Hd as [_ Hd].
    unfold landline_shape. rewrite Hd. cbn [length] in Hlen.
    replace (Nat.eqb (length rest) 9) with true by (symmetry; apply Nat.eqb_eq; lia).
    reflexivity.
Qed.

(** [formatPhoneNumber] with the default [type]. *)
Lemma formatPhoneNumber_auto (phoneNumber : jsstring) :
  let c := List.filter (fun u => negb (class_hyphen_space_paren u)) phoneNumber in
  formatPhoneNumber phoneNumber PhoneFormat.auto
  = if test [[Bol; Class (class_char 0x30); Class class_789; Class (class_char 0x30)]] c
       && Nat.eqb (length c) 11
    then hyphenated 3 7 c
    else if test [[Bol; Class (class_char 0x30); Class class_d]] c
            && Nat.eqb (length c) 10
         then if includes short_area_codes (take 2 c)
              then hyphenated 2 6 c else hyphenated 3 6 c
         else phoneNumber.
Proof.
  cbv zeta. unfold formatPhoneNumber.
  rewrite replace_class_delete, slices_3_7, slices_2_6, slices_3_6.
  change (slice ?c 0 (Some 2)) with (slice c (Z.of_nat 0) (Some (Z.of_nat 2))).
  rewrite slice_nat, Nat.sub_0_r, drop_0.
  set (c := List.filter (fun u => negb (class_hyphen_space_paren u)) phoneNumber).
  cbn [PhoneFormat.eqb orb andb].
  destruct (test [[Bol; Class (class_char 0x30); Class class_789;
                   Class (class_char 0x30)]] c);
    destruct (Nat.eqb (length c) 11);
    destruct (test [[Bol; Class (class_char 0x30); Class class_d]] c);
    destruct (Nat.eqb (length c) 10);
    cbn [andb]; try reflexivity;
    destruct (includes short_area_codes (take 2 c)); reflexivity.
Qed.

End PhoneNumber.

(** X27.  [validatePhoneNumber] accepts exactly the inputs that, once
    hyphens, whitespace and parentheses are removed, are digits starting
    with 0 and either 10 of them, or 11 of them with 7, 8 or 9 second
    and 0 third.  The 11-digit numbers are typed [mobile], the 10-digit
    ones [landline]; the type [unknown] is never returned. *)
Theorem validatePhoneNumber_valid (phoneNumber : jsstring) :
  let c := List.filter (fun u => negb (class_hyphen_space_paren u)) phoneNumber in
  let r := validatePhoneNumber phoneNumber in
  (PhoneNumberResult.valid r = true
   <-> forallb class_d c = true /\ c !! O = Some 0x30 /\
       (length c = 10%nat \/
        length c = 11%nat /\ (exists b, c !! 1%nat = Some b /\ class_789 b = true)
        /\ c !! 2%nat = Some 0x30)) /\
  (PhoneNumberResult.type r = Some mobile
   <-> PhoneNumberResult.valid r = true /\ length c = 11%nat) /\
  (PhoneNumberResult.type r = Some landline
   <-> PhoneNumberResult.valid r = true /\ length c = 10%nat) /\
  PhoneNumberResult.type r <> Some unknown.
Proof.
  cbv zeta. rewrite validatePhoneNumber_shapes. cbv zeta.
  set (c := List.filter (fun u => negb (class_hyphen_space_paren u)) phoneNumber).
  pose proof (mobile_shape_iff c) as Hm. pose proof (landline_shape_iff c) as Hl.
  destruct (mobile_shape c); [|destruct (landline_shape c)];
    cbn [PhoneNumberResult.valid PhoneNumberResult.type].
  - destruct (proj1 Hm eq_refl) as (Hd & H0 & Hlen & Hb & H2).
    split; [split; [intros _; tauto | reflexivity]|].
    split; [split; [intros _; split; [reflexivity | exact Hlen] | reflexivity]|].
    split; [split; [discriminate | intros [_ H]; lia] | discriminate].
  - destruct (proj1 Hl eq_refl) as (Hd & H0 & Hlen).
    split; [split; [intros _; tauto | reflexivity]|].
    split; [split; [discriminate | intros [_ H]; lia]|].
    split; [split; [intros _; split; [reflexivity | exact Hlen] | reflexivity]
           | discriminate].
  - split.
    + split; [discriminate|].
      intros (Hd & H0 & [Hlen | (Hlen & Hb & H2)]); [apply Hl | apply Hm]; tauto.
    + split; [split; [discriminate | intros [H _]; discriminate]|].
      split; [split; [discriminate | intros [H _]; discriminate] | discriminate].
Qed.

(** X28.  A formatted phone number is a fixed point: removing its
    separators gives the digits of the input, validating it again gives
    the same result, and [formatPhoneNumber] with the default type
    returns it both for the original input and for itself. *)
Theorem phone_number_round_trip (phoneNumber f : jsstring) :
  PhoneNumberResult.formatted (validatePhoneNumber phoneNumber) = Some f ->
  List.filter (fun u => negb (class_hyphen_space_paren u)) f
  = List.filter (fun u => negb (class_hyphen_space_paren u)) phoneNumber /\
  validatePhoneNumber f = validatePhoneNumber phoneNumber /\
  formatPhoneNumber phoneNumber PhoneFormat.auto = f /\
  formatPhoneNumber f PhoneFormat.auto = f.
Proof.
  intros H.
  assert (Hclean : List.filter (fun u => negb (class_hyphen_space_paren u)) f
                   = List.filter (fun u => negb (class_hyphen_space_paren u)) phoneNumber
                   /\ formatPhoneNumber phoneNumber PhoneFormat.auto = f).
  { rewrite validatePhoneNumber_shapes in H. cbv zeta in H.
    rewrite formatPhoneNumber_auto. cbv zeta.
    set (c := List.filter (fun u => negb (class_hyphen_space_paren u)) phoneNumber) in *.
    set (short := includes short_area_codes (take 2 c)) in *.
    destruct (mobile_shape c) eqn:Hm; [|destruct (landline_shape c) eqn:Hl];
      cbn [PhoneNumberResult.formatted] in H; [| |discriminate]; injection H as <-.
    - destruct (mobile_shape_facts c Hm) as (Hlen & Hd & Hpre).
      rewrite Hpre, Hlen. cbn [Nat.eqb andb]. split; [|reflexivity].
      apply clean_hyphenated; [lia | apply digit_not_hyphen_space_paren, Hd].
    - destruct (landline_shape_facts c Hl) as (Hlen & Hd & Hpre).
      rewrite Hpre, Hlen.
      destruct short;
        cbn [Nat.eqb andb]; rewrite andb_false_r;
        (split; [|reflexivity]);
        (apply clean_hyphenated; [lia | apply digit_not_hyphen_space_paren, Hd]). }
  destruct Hclean as [Hclean Hfmt].
  split; [exact Hclean|]. split; [|split; [exact Hfmt|]].
  - rewrite !validatePhoneNumber_shapes. cbv zeta. rewrite Hclean. reflexivity.
  - rewrite <- Hfmt at 2. rewrite !formatPhoneNumber_auto. cbv zeta. rewrite Hclean.
    rewrite validatePhoneNumber_shapes in H. cbv zeta in H.
    set (c := List.filter (fun u => negb (class_hyphen_space_paren u)) phoneNumber) in *.
    set (short := includes short_area_codes (take 2 c)) in *.
    destruct (mobile_shape c) eqn:Hm; [|destruct (landline_shape c) eqn:Hl];
      cbn [PhoneNumberResult.formatted] in H; [| |discriminate].
    + destruct (mobile_shape_facts c Hm) as (Hlen & _ & Hpre).
      rewrite Hpre, Hlen. reflexivity.
    + destruct (landline_shape_facts c Hl) as (Hlen & _ & Hpre).
      rewrite Hpre, Hlen. cbn [Nat.eqb andb]. rewrite andb_false_r. reflexivity.
Qed.

Lemma phone_number_round_trip_witness :
  formatPhoneNumber [0x30; 0x39; 0x30; 0x31; 0x32; 0x33; 0x34; 0x35; 0x36; 0x37; 0x38]
    PhoneFormat.auto
  = [0x30; 0x39; 0x30; 0x2D; 0x31; 0x32; 0x33; 0x34; 0x2D; 0x35; 0x36; 0x37; 0x38].
Proof.
  apply (phone_number_round_trip
           [0x30; 0x39; 0x30; 0x31; 0x32; 0x33; 0x34; 0x35; 0x36; 0x37; 0x38]).
  vm_compute. reflexivity.
Defined.

(** ** Further properties: [normalizeForStorage] *)

Section Storage.

Variable p : Z -> bool.
Hypothesis p_space : p 0x20 = true.

Lemma match_at_plus (pos : nat) (s : jsstring) :
  match_at [[ClassPlus p]] pos s
  = match class_run p s with O => None | S n => Some (S n) end.
Proof.
  change (match_at [[ClassPlus p]] pos s) with
    (match give_back (fun _ => Some O) (class_run p s) with
     | Some m => Some m
     | None => None
     end).
  rewrite give_back_always. destruct (class_run p s); reflexivity.
Qed.

(** Replacing [/[p]+/g] by a space collapses the runs. *)
Lemma replace_plus_collapse_from (s : jsstring) :
  forall pos,
    replace_from [[ClassPlus p]] (fun _ => [0x20]) pos O s = collapse p false s /\
    replace_from [[ClassPlus p]] (fun _ => [0x20]) pos (class_run p s) s
    = collapse p true s.
Proof.
  induction s as [|c tl IH]; intros pos.
  - split; reflexivity.
  - assert (Hfirst : replace_from [[ClassPlus p]] (fun _ => [0x20]) pos O (c :: tl)
                     = collapse p false (c :: tl)).
    { rewrite replace_from_cons, match_at_plus. cbn [class_run collapse].
      destruct (p c).
      - rewrite (proj2 (IH (S pos))). reflexivity.
      - rewrite (proj1 (IH (S pos))). reflexivity. }
    split; [exact Hfirst|].
    cbn [class_run]. destruct (p c) eqn:Hc.
    + cbn [replace_from collapse]. rewrite Hc. apply IH.
    + rewrite Hfirst. cbn [collapse]. rewrite Hc. reflexivity.
Qed.

Lemma replace_plus_collapse (s : jsstring) :
  replace_global [[ClassPlus p]] (fun _ => [0x20]) s = collapse p false s.
Proof. apply replace_plus_collapse_from. Qed.

Lemma collapse_idem (s : jsstring) :
  forall b, collapse p b (collapse p b s) = collapse p b s.
Proof.
  induction s as [|c tl IH]; intros b; [reflexivity|].
  cbn [collapse]. destruct (p c) eqn:Hc.
  - destruct b; [apply IH|]. cbn [collapse]. rewrite p_space, IH. reflexivity.
  - cbn [collapse]. rewrite Hc, IH. reflexivity.
Qed.

Lemma collapse_units (s : jsstring) :
  forall b, forallb (fun u => (u =? 0x20) || negb (p u)) (collapse p b s) = true.
Proof.
  induction s as [|c tl IH]; intros b; [reflexivity|].
  cbn [collapse]. destruct (p c) eqn:Hc.
  - destruct b; [apply IH|]. cbn [forallb]. rewrite IH. reflexivity.
  - cbn [forallb]. rewrite Hc, IH, orb_true_r. reflexivity.
Qed.

Lemma collapse_not_all (s : jsstring) :
  forall b, forallb p s = false -> forallb p (collapse p b s) = false.
Proof.
  induction s as [|c tl IH]; intros b H; [discriminate|].
  cbn [forallb] in H. cbn [collapse]. destruct (p c) eqn:Hc.
  - cbn [andb] in H. destruct b; [apply IH, H|].
    cbn [forallb]. rewrite (IH true H). apply andb_false_r.
  - cbn [forallb]. rewrite Hc. reflexivity.
Qed.

Lemma strip_end_fixed_inv (c : Z) (tl : jsstring) :
  strip_end p (c :: tl) = c :: tl ->
  forallb p (c :: tl) = false /\ strip_end p tl = tl.
Proof.
  rewrite strip_end_cons. destruct (forallb p (c :: tl)); [discriminate|].
  intros H. injection H as H. split; [reflexivity | exact H].
Qed.

Lemma collapse_strip_end (s : jsstring) :
  forall b, strip_end p s = s -> strip_end p (collapse p b s) = collapse p b s.
Proof.
  induction s as [|c tl IH]; intros b H; [reflexivity|].
  apply strip_end_fixed_inv in H as [Hall Htl].
  cbn [collapse]. cbn [forallb] in Hall. destruct (p c) eqn:Hc.
  - cbn [andb] in Hall. destruct b; [apply IH, Htl|].
    rewrite strip_end_cons. cbn [forallb].
    rewrite (collapse_not_all tl true Hall), andb_false_r, (IH true Htl).
    reflexivity.
  - rewrite strip_end_cons. cbn [forallb]. rewrite Hc. cbn [andb].
    rewrite (IH false Htl). reflexivity.
Qed.

Lemma collapse_first (s : jsstring) :
  on_first p (collapse p true s) = false /\
  (on_first p s = false -> on_first p (collapse p false s) = false).
Proof.
  induction s as [|c tl [IH _]]; [split; reflexivity|].
  cbn [collapse on_first]. destruct (p c) eqn:Hc.
  - split; [exact IH | discriminate].
  - cbn [on_first]. split; [exact Hc | intros _; exact Hc].
Qed.

Lemma collapse_no_adjacent (s : jsstring) :
  forall b, no_adjacent p (collapse p b s) = true.
Proof.
  induction s as [|c tl IH]; intros b; [reflexivity|].
  cbn [collapse]. destruct (p c) eqn:Hc.
  - destruct b; [apply IH|]. cbn [no_adjacent].
    rewrite (proj1 (collapse_first tl)), andb_false_r, IH. reflexivity.
  - cbn [no_adjacent]. rewrite Hc, IH. reflexivity.
Qed.

(** Replacing units by units of the same kind commutes with trimming
    the end. *)
Lemma strip_end_map (g : Z -> Z) (s : jsstring) :
  (forall u, p (g u) = p u) -> strip_end p (map g s) = map g (strip_end p s).
Proof.
  intros Hg. induction s as [|c tl IH]; [reflexivity|].
  cbn [map]. rewrite !strip_end_cons.
  replace (forallb p (g c :: map g tl)) with (forallb p (c :: tl)).
  - destruct (forallb p (c :: tl)); [reflexivity|]. cbn [map]. rewrite IH. reflexivity.
  - cbn [forallb]. rewrite Hg. f_equal.
    clear IH. induction tl as [|d tl IH]; [reflexivity|].
    cbn [map forallb]. rewrite Hg, IH. reflexivity.
Qed.

End Storage.

Lemma class_space_s (u : Z) : class_space u = class_s u.
Proof. unfold class_space, class_s. lia. Qed.

Lemma class_run_ext (p q : Z -> bool) (s : jsstring) :
  (forall u, p u = q u) -> class_run p s = class_run q s.
Proof.
  intros H. induction s as [|c tl IH]; [reflexivity|].
  cbn [class_run]. rewrite H, IH. reflexivity.
Qed.

Lemma strip_end_ext (p q : Z -> bool) (s : jsstring) :
  (forall u, p u = q u) -> strip_end p s = strip_end q s.
Proof.
  intros H. induction s as [|c tl IH]; [reflexivity|].
  rewrite !strip_end_cons, (forallb_ext_eq p q _ H), IH. reflexivity.
Qed.

(** [trimJapanese] removes what [trim] removes: U+3000 is in [\s]. *)
Lemma trimJapanese_trim (s : jsstring) : trimJapanese s = trim s.
Proof.
  unfold trimJapanese, trim. rewrite replace_global_trim.
  rewrite (class_run_ext class_space class_s _ class_space_s).
  apply strip_end_ext, class_space_s.
Qed.

Lemma trim_fixed_ends (s : jsstring) :
  on_first class_s s = false -> strip_end class_s s = s -> trim s = s.
Proof.
  intros Hfirst Hlast. unfold trim.
  replace (class_run class_s s) with O; [rewrite drop_0; exact Hlast|].
  destruct s as [|c tl]; [reflexivity|].
  cbn [on_first] in Hfirst. cbn [class_run]. rewrite Hfirst. reflexivity.
Qed.

Lemma trim_strip_end (s : jsstring) : strip_end class_s (trim s) = trim s.
Proof. unfold trim. apply strip_end_idem. Qed.

Lemma to_space_kind (u : Z) :
  class_s (if class_char 0x3000 u then 0x20 else u) = class_s u.
Proof.
  unfold class_char. destruct (u =? 0x3000) eqn:Hu; [|reflexivity].
  apply Z.eqb_eq in Hu. subst u. reflexivity.
Qed.

(** X29.  [normalizeForStorage] is idempotent.  In its result every
    whitespace character is an ASCII space, no two spaces are adjacent,
    and the first and the last character are not whitespace. *)
Theorem normalizeForStorage_properties (text : jsstring) :
  let out := normalizeForStorage text in
  normalizeForStorage out = out /\
  forallb (fun u => (u =? 0x20) || negb (class_s u)) out = true /\
  no_adjacent class_s out = true /\
  on_first class_s out = false /\
  on_first class_s (rev out) = false.
Proof.
  cbv zeta. unfold normalizeForStorage. cbv zeta.
  rewrite !replace_plus_collapse, !replace_class_const, !trimJapanese_trim.
  set (m := map (fun u => if class_char 0x3000 u then 0x20 else u)).
  set (t := m (trim text)).
  assert (Hfirst_t : on_first class_s t = false).
  { subst t m. pose proof (proj1 (trim_ends class_s text)) as H.
    rewrite <- trim_replace in H.
    destruct (trim text) as [|c tl]; [reflexivity|].
    cbn [map on_first] in *. rewrite to_space_kind. exact H. }
  assert (Hstrip_t : strip_end class_s t = t).
  { subst t m. rewrite strip_end_map by apply to_space_kind.
    rewrite trim_strip_end. reflexivity. }
  assert (Hfirst : on_first class_s (collapse class_s false t) = false)
    by (apply collapse_first; exact Hfirst_t).
  assert (Hstrip : strip_end class_s (collapse class_s false t) = collapse class_s false t)
    by (apply collapse_strip_end; exact Hstrip_t).
  assert (Hunits := collapse_units class_s t false).
  split; [|split; [exact Hunits|split; [apply collapse_no_adjacent; reflexivity|split]]].
  - rewrite (trim_fixed_ends _ Hfirst Hstrip).
    replace (m (collapse class_s false t)) with (collapse class_s false t).
    + apply collapse_idem. reflexivity.
    + subst m. symmetry. apply map_fixes_iff.
      rewrite forallb_forall in Hunits |- *. intros u Hu. specialize (Hunits u Hu).
      unfold class_char. destruct (u =? 0x3000) eqn:H3; [|apply Z.eqb_refl].
      apply Z.eqb_eq in H3. subst u. discriminate.
  - exact Hfirst.
  - rewrite <- Hstrip. apply strip_end_last.
Qed.

(** ** Further properties: [toJapaneseNumerals] *)

Section JapaneseNumerals.

Import Numerals.

Lemma place_0 (b : Z) : place b O = 1.
Proof. reflexivity. Qed.

Lemma place_S (b : Z) (k : nat) : place b (S k) = b * place b k.
Proof. unfold place. rewrite Nat2Z.inj_succ. apply Z.pow_succ_r. lia. Qed.

Lemma place_pos (b : Z) (k : nat) : 0 < b -> 0 < place b k.
Proof. intros Hb. unfold place. apply Z.pow_pos_nonneg; lia. Qed.

Lemma loop_bound_enough (n : Z) : 0 < n -> n < 2 ^ Z.of_nat (loop_bound n).
Proof.
  intros Hn. unfold loop_bound.
  rewrite Nat2Z.inj_succ, Z2Nat.id by apply Z.log2_nonneg.
  apply Z.log2_spec. exact Hn.
Qed.

(** Rounding moves a quotient by at most one half. *)
Lemma round_half_even_near (n d : Z) :
  0 < d ->
  2 * n - d <= 2 * d * round_half_even n d <= 2 * n + d.
Proof.
  intros Hd. unfold round_half_even.
  pose proof (Z.div_mod n d ltac:(lia)) as Hdm.
  pose proof (Z.mod_pos_bound n d Hd) as Hm.
  set (q := n / d) in *. set (r := n mod d) in *.
  destruct (2 * r <? d) eqn:H1; [nia|].
  destruct (d <? 2 * r) eqn:H2; [nia|].
  destruct (Z.even q); nia.
Qed.

(** Below 2^53 the rounding of the quotient does not reach the next
    integer: [Math.floor(a / b)] is the integer quotient. *)
Lemma floor_div_exact (a b : Z) :
  0 < a < 2 ^ 53 -> 2 <= b -> floor_div a b = a / b.
Proof.
  intros Ha Hb. unfold floor_div.
  set (e := quotient_exponent a b).
  assert (Hla : Z.log2 a < 53) by (apply Z.log2_lt_pow2; lia).
  assert (Hlb : 1 <= Z.log2 b) by (apply (Z.log2_le_mono 2 b); lia).
  assert (He : e <= 52 - Z.log2 b).
  { unfold e, quotient_exponent.
    destruct (_ <? _); lia. }
  set (k := 52 - e).
  assert (Hk : Z.log2 b <= k) by (unfold k; lia).
  replace (e - 52) with (- k) by (unfold k; lia).
  replace (0 <=? - k) with false by lia.
  rewrite Z.opp_involutive.
  rewrite (Z.max_r 0 k), (Z.max_l 0 (- k)) by lia.
  rewrite Z.pow_0_r, Z.mul_1_r.
  set (P := 2 ^ k).
  assert (HP : 0 < P) by (apply Z.pow_pos_nonneg; lia).
  assert (HPb : b < 2 * P).
  { pose proof (Z.log2_spec b ltac:(lia)) as [_ Hspec].
    assert (Hpow : 2 ^ Z.succ (Z.log2 b) <= 2 ^ Z.succ k)
      by (apply Z.pow_le_mono_r; lia).
    rewrite (Z.pow_succ_r 2 k) in Hpow by lia. unfold P. lia. }
  pose proof (round_half_even_near (a * P) b ltac:(lia)) as [Hlo Hhi].
  set (m := round_half_even (a * P) b) in *.
  pose proof (Z.div_mod a b ltac:(lia)) as Hdm.
  pose proof (Z.mod_pos_bound a b ltac:(lia)) as Hm.
  set (Q := a / b) in *. set (R := a mod b) in *.
  symmetry. apply (Z.div_unique m P Q (m - P * Q)); [|lia].
  left. split.
  - assert (2 * b * (P * Q) - b <= 2 * b * m) by nia.
    assert (P * Q - 1 < m) by nia. lia.
  - assert (2 * b * m <= 2 * b * (P * Q) + 2 * (b - 1) * P + b) by nia.
    assert (2 * b * m < 2 * b * (P * Q + P)) by nia.
    assert (m < P * Q + P) by nia. lia.
Qed.

Lemma numeral_read_app (s1 s2 : jsstring) :
  forall st,
    numeral_read (s1 ++ s2) st
    = match numeral_read s1 st with
      | Some st' => numeral_read s2 st'
      | None => None
      end.
Proof.
  induction s1 as [|u s1 IH]; intros st; [reflexivity|].
  cbn [app numeral_read]. destruct (numeral_step st u); [apply IH | reflexivity].
Qed.

Lemma digit_char (d : Z) :
  1 <= d <= 9 ->
  exists ch, index digits (Z.to_nat d) = [ch] /\ ch <> 0x3007 /\
             forall closed big group small,
               numeral_step (closed, big, group, small, 0) ch
               = Some (closed, big, group, small, d).
Proof.
  intros Hd.
  assert (Hcases : d = 1 \/ d = 2 \/ d = 3 \/ d = 4 \/ d = 5 \/ d = 6 \/ d = 7
                   \/ d = 8 \/ d = 9) by lia.
  repeat (destruct Hcases as [->|Hcases];
          [eexists; split; [reflexivity|]; split; [discriminate | reflexivity]|]).
  subst d. eexists; split; [reflexivity|]; split; [discriminate | reflexivity].
Qed.

Lemma unit_char (l : nat) :
  (1 <= l <= 3)%nat ->
  exists ch, index units l = [ch] /\
             forall closed big group small pending,
               (l < small)%nat -> pending <> 1 ->
               numeral_step (closed, big, group, small, pending) ch
               = Some (closed, big,
                       group + (if pending =? 0 then 1 else pending) * place 10 l,
                       l, 0).
Proof.
  intros Hl. destruct l as [|[|[|[|l]]]]; try lia;
    eexists; (split; [reflexivity|]);
    intros closed big group small pending Hsmall Hpending;
    unfold numeral_step;
    match goal with
    | |- context [digit_value ?u] => change (digit_value u) with (@None Z)
    end;
    match goal with
    | |- context [unit_index ?u] =>
        let r := eval vm_compute in (unit_index u) in change (unit_index u) with r
    end;
    cbv iota beta;
    apply Nat.ltb_lt in Hsmall; rewrite Hsmall;
    apply Z.eqb_neq in Hpending; rewrite Hpending; reflexivity.
Qed.

Lemma big_unit_char (i : nat) :
  (1 <= i <= 3)%nat ->
  exists ch, index bigUnits i = [ch] /\
             forall closed big group small pending,
               (i < big)%nat -> 0 < group + pending ->
               numeral_step (closed, big, group, small, pending) ch
               = Some (closed + (group + pending) * place 10000 i, i, 0, 4%nat, 0).
Proof.
  intros Hi. destruct i as [|[|[|[|i]]]]; try lia;
    eexists; (split; [reflexivity|]);
    intros closed big group small pending Hbig Hsum;
    unfold numeral_step;
    match goal with
    | |- context [digit_value ?u] => change (digit_value u) with (@None Z)
    end;
    match goal with
    | |- context [unit_index ?u] => change (unit_index u) with (@None nat)
    end;
    match goal with
    | |- context [big_unit_index ?u] =>
        let r := eval vm_compute in (big_unit_index u) in
        change (big_unit_index u) with r
    end;
    cbv iota beta;
    apply Nat.ltb_lt in Hbig; rewrite Hbig;
    apply Z.ltb_lt in Hsum; rewrite Hsum; reflexivity.
Qed.

Lemma place_bound (b t : Z) (l : nat) :
  1 < b -> 1 <= t -> t * place b l < place b 4 -> (l <= 3)%nat.
Proof.
  intros Hb Ht H. destruct l as [|[|[|[|l]]]]; try lia.
  exfalso. rewrite !place_S in H. pose proof (place_pos b l) as Hp.
  assert (H0 : 0 < place b l) by (apply Hp; lia). rewrite place_0 in H.
  assert (Hb4 : 0 < b * (b * (b * b))) by nia.
  assert (HX : 1 <= t * place b l) by nia.
  replace (t * (b * (b * (b * (b * place b l)))))
    with ((b * (b * (b * b))) * (t * place b l)) in H by ring.
  replace (b * (b * (b * (b * 1)))) with (b * (b * (b * b))) in H by ring.
  nia.
Qed.

Lemma place_small (b t : Z) (l : nat) :
  1 < b -> 1 <= t -> t * place b l < place b 4 -> t < place b 4.
Proof.
  intros Hb Ht H. pose proof (place_pos b l ltac:(lia)). nia.
Qed.

Lemma reads_group_nil (v : Z) (l : nat) : reads_group [] v l -> v = 0.
Proof.
  intros (hi & lo & Hsum & Hread).
  destruct (Hread 0 O 0 l (Nat.le_refl l)) as (small' & Hst).
  simpl in Hst. injection Hst as Hhi _ Hlo. lia.
Qed.

Lemma reads_group_mono (str : jsstring) (v : Z) (l l' : nat) :
  (l <= l')%nat -> reads_group str v l -> reads_group str v l'.
Proof.
  intros Hl (hi & lo & Hsum & Hread). exists hi, lo. split; [exact Hsum|].
  intros closed big group small Hsmall. apply Hread. lia.
Qed.

Lemma reads_number_nil (v : Z) (i : nat) : reads_number [] v i -> v = 0.
Proof.
  intros H. destruct (H 0 i (Nat.le_refl i)) as (st & Hst & Hsum).
  simpl in Hst. injection Hst as <-. simpl in Hsum. lia.
Qed.

Lemma reads_number_mono (str : jsstring) (v : Z) (i i' : nat) :
  (i <= i')%nat -> reads_number str v i -> reads_number str v i'.
Proof. intros Hi H closed big Hbig. apply H. lia. Qed.

(** One iteration of the inner loop keeps the reading. *)
Lemma segment_step_reads (digit : Z) (l : nat) (str : jsstring) (v : Z) :
  1 <= digit <= 9 -> (l <= 3)%nat -> (l = O -> str = []) ->
  reads_group str v l ->
  reads_group
    (if (digit =? 1) && Nat.ltb 0 l
     then index units l ++ str
     else index digits (Z.to_nat digit) ++ index units l ++ str)
    (digit * place 10 l + v) (S l).
Proof.
  intros Hd Hl Hfirst Hstr.
  destruct (digit_char digit Hd) as (dch & Hdch & _ & Hdstep).
  destruct l as [|l'].
  - rewrite (Hfirst eq_refl) in *. apply reads_group_nil in Hstr. subst v.
    rewrite andb_false_r, Hdch. exists 0, digit. rewrite place_0.
    split; [lia|]. intros closed big group small Hsmall. exists small.
    change (index units 0) with (@nil Z). cbn [app numeral_read].
    rewrite Hdstep. do 4 f_equal; lia.
  - destruct (unit_char (S l')) as (uch & Huch & Hustep); [lia|].
    destruct Hstr as (hi & lo & Hsum & Hread).
    exists (digit * place 10 (S l') + hi), lo. split; [lia|].
    intros closed big group small Hsmall. rewrite Huch, Hdch.
    change (Nat.ltb 0 (S l')) with true. rewrite andb_true_r.
    destruct (digit =? 1) eqn:H1.
    + apply Z.eqb_eq in H1. subst digit. cbn [app numeral_read].
      rewrite Hustep by lia.
      destruct (Hread closed big (group + (if 0 =? 0 then 1 else 0) * place 10 (S l'))
                  (S l') (Nat.le_refl _)) as (small' & ->).
      exists small'. cbn [Z.eqb]. do 4 f_equal; lia.
    + apply Z.eqb_neq in H1. cbn [app numeral_read].
      rewrite Hdstep. rewrite Hustep by lia.
      destruct (Hread closed big
                  (group + (if digit =? 0 then 1 else digit) * place 10 (S l'))
                  (S l') (Nat.le_refl _)) as (small' & ->).
      exists small'. replace (digit =? 0) with false by lia.
      do 4 f_equal; lia.
Qed.

Lemma segment_loop_reads (fuel : nat) :
  forall (t : Z) (l : nat) (str : jsstring) (v : Z),
    0 <= t < 2 ^ Z.of_nat fuel ->
    t * place 10 l < place 10 4 ->
    (l <= 4)%nat ->
    (l = O -> str = []) ->
    reads_group str v l ->
    exists out,
      segment_loop fuel t l str = Some out /\
      reads_group out (t * place 10 l + v) 4.
Proof.
  induction fuel as [|fuel IH]; intros t l str v Ht Hbound Hl4 Hfirst Hstr.
  - assert (t = 0) by (simpl in Ht; lia). subst t.
    exists str. split; [reflexivity | apply (reads_group_mono str v l); assumption].
  - destruct (0 <? t) eqn:Hpos.
    2:{ assert (t = 0) by lia. subst t. exists str.
        split; [simpl; reflexivity | apply (reads_group_mono str v l); assumption]. }
    apply Z.ltb_lt in Hpos.
    assert (Hl : (l <= 3)%nat) by (apply (place_bound 10 t l); lia).
    assert (Hsmall : t < place 10 4) by (apply (place_small 10 t l); lia).
    change (place 10 4) with 10000 in Hsmall.
    assert (Hdiv : floor_div t 10 = t / 10)
      by (apply floor_div_exact; [change (2 ^ 53) with 9007199254740992|]; lia).
    pose proof (Z.div_mod t 10 ltac:(lia)) as Hdm.
    pose proof (Z.mod_pos_bound t 10 ltac:(lia)) as Hm.
    assert (Hq : 0 <= t / 10) by (apply Z.div_pos; lia).
    set (digit := t mod 10) in *. set (t' := t / 10) in *.
    assert (Hstep : exists str' v',
               (if 0 <? digit then
                  if (digit =? 1) && Nat.ltb 0 l
                  then index units l ++ str
                  else index digits (Z.to_nat digit) ++ index units l ++ str
                else str) = str' /\
               reads_group str' v' (S l) /\ v' = digit * place 10 l + v).
    { destruct (0 <? digit) eqn:Hd.
      - eexists _, _. split; [reflexivity|]. split; [|reflexivity].
        apply segment_step_reads; try assumption. lia.
      - exists str, v. split; [reflexivity|].
        split; [apply (reads_group_mono str v l); [lia | exact Hstr]|].
        assert (digit = 0) by lia. lia. }
    destruct Hstep as (str' & v' & Hstr'eq & Hstr' & Hv').
    destruct (IH t' (S l) str' v') as (out & Hout & Hreads).
    + rewrite Nat2Z.inj_succ, Z.pow_succ_r in Ht by lia. lia.
    + rewrite place_S. pose proof (place_pos 10 l ltac:(lia)). nia.
    + lia.
    + discriminate.
    + exact Hstr'.
    + exists out. split.
      * cbn [segment_loop]. replace (0 <? t) with true by lia.
        rewrite Hdiv. fold digit t'. rewrite Hstr'eq. exact Hout.
      * replace (t * place 10 l + v) with (t' * place 10 (S l) + v'); [exact Hreads|].
        rewrite place_S, Hv'. nia.
Qed.

Lemma number_loop_reads (fuel : nat) :
  forall (n : Z) (i : nat) (res : jsstring) (v : Z),
    0 <= n < 2 ^ Z.of_nat fuel ->
    n < 2 ^ 53 ->
    n * place 10000 i < place 10000 4 ->
    (i <= 4)%nat ->
    (i = O -> res = []) ->
    reads_number res v i ->
    exists out,
      number_loop fuel n i res = Some out /\
      reads_number out (n * place 10000 i + v) 4.
Proof.
  induction fuel as [|fuel IH]; intros n i res v Hn Hsafe Hbound Hi4 Hfirst Hres.
  - assert (n = 0) by (simpl in Hn; lia). subst n.
    exists res. split; [reflexivity | apply (reads_number_mono res v i); assumption].
  - destruct (0 <? n) eqn:Hpos.
    2:{ assert (n = 0) by lia. subst n. exists res.
        split; [simpl; reflexivity | apply (reads_number_mono res v i); assumption]. }
    apply Z.ltb_lt in Hpos.
    assert (Hi : (i <= 3)%nat) by (apply (place_bound 10000 n i); lia).
    assert (Hdiv : floor_div n 10000 = n / 10000)
      by (apply floor_div_exact; lia).
    pose proof (Z.div_mod n 10000 ltac:(lia)) as Hdm.
    pose proof (Z.mod_pos_bound n 10000 ltac:(lia)) as Hm.
    assert (Hq : 0 <= n / 10000) by (apply Z.div_pos; lia).
    set (segment := n mod 10000) in *. set (n' := n / 10000) in *.
    assert (Hstep : exists res' v',
               (if 0 <? segment then
                  match segment_loop (loop_bound segment) segment O [] with
                  | Some segmentStr => Some (segmentStr ++ index bigUnits i ++ res)
                  | None => None
                  end
                else Some res) = Some res' /\
               reads_number res' v' (S i) /\ v' = segment * place 10000 i + v).
    { destruct (0 <? segment) eqn:Hs.
      - apply Z.ltb_lt in Hs.
        destruct (segment_loop_reads (loop_bound segment) segment O [] 0)
          as (seg & Hseg & hi & lo & Hsum & Hread).
        + split; [lia | apply loop_bound_enough, Hs].
        + rewrite place_0. change (place 10 4) with 10000. lia.
        + lia.
        + reflexivity.
        + exists 0, 0. split; [reflexivity|].
          intros closed big group small _. exists small.
          simpl. do 4 f_equal; lia.
        + rewrite Hseg. eexists _, _. split; [reflexivity|]. split; [|reflexivity].
          rewrite place_0 in Hsum.
          intros closed big Hbig. rewrite numeral_read_app.
          destruct (Hread closed big 0 4%nat (Nat.le_refl 4)) as (small' & ->).
          destruct i as [|i'].
          * rewrite (Hfirst eq_refl). change (index bigUnits 0) with (@nil Z).
            cbn [app numeral_read].
            rewrite (Hfirst eq_refl) in Hres. apply reads_number_nil in Hres.
            eexists. split; [reflexivity|]. cbn [numeral_sum].
            rewrite place_0. lia.
          * destruct (big_unit_char (S i')) as (bch & Hbch & Hbstep); [lia|].
            rewrite Hbch. cbn [app numeral_read]. rewrite Hbstep by lia.
            destruct (Hres (closed + (0 + hi + lo) * place 10000 (S i')) (S i')
                        (Nat.le_refl _)) as (st & Hst & Hstsum).
            rewrite Hst. exists st. split; [reflexivity|]. rewrite Hstsum. nia.
      - exists res, v. split; [reflexivity|].
        split; [apply (reads_number_mono res v i); [lia | exact Hres]|].
        assert (segment = 0) by lia. lia. }
    destruct Hstep as (res' & v' & Hres'eq & Hres' & Hv').
    destruct (IH n' (S i) res' v') as (out & Hout & Hreads).
    + rewrite Nat2Z.inj_succ, Z.pow_succ_r in Hn by lia. lia.
    + change (2 ^ 53) with 9007199254740992 in *. lia.
    + rewrite place_S. pose proof (place_pos 10000 i ltac:(lia)). nia.
    + lia.
    + discriminate.
    + exact Hres'.
    + exists out. split.
      * cbn [number_loop]. replace (0 <? n) with true by lia.
        rewrite Hdiv. fold segment n'. rewrite Hres'eq. exact Hout.
      * replace (n * place 10000 i + v) with (n' * place 10000 (S i) + v');
          [exact Hreads|].
        rewrite place_S, Hv'. nia.
Qed.

Lemma positive_value (n : Z) :
  0 < n < 2 ^ 53 ->
  exists out, positive n = Some out /\ numeral_value out = Some n.
Proof.
  intros Hn. change (2 ^ 53) with 9007199254740992 in Hn.
  unfold positive. destruct (n <? 10) eqn:Hsmall.
  - destruct (digit_char n) as (ch & Hch & Hne & Hstep); [lia|].
    exists [ch]. rewrite Hch. split; [reflexivity|].
    unfold numeral_value.
    replace (str_eqb [ch] [0x3007]) with false
      by (symmetry; apply bool_decide_eq_false; congruence).
    cbn [falsy numeral_read]. rewrite Hstep. cbn [option_map numeral_sum].
    f_equal; lia.
  - destruct (number_loop_reads (loop_bound n) n O [] 0) as (out & Hout & Hreads).
    + split; [lia | apply loop_bound_enough; lia].
    + change (2 ^ 53) with 9007199254740992. lia.
    + rewrite place_0. change (place 10000 4) with 10000000000000000. lia.
    + lia.
    + reflexivity.
    + intros closed big _. eexists. split; [reflexivity|]. simpl. lia.
    + exists out. split; [exact Hout|].
      destruct (Hreads 0 4%nat (Nat.le_refl 4)) as (st & Hst & Hsum).
      rewrite place_0 in Hsum.
      unfold numeral_value. destruct (str_eqb out [0x3007]) eqn:Hzero.
      * apply bool_decide_eq_true in Hzero. subst out. discriminate Hst.
      * destruct out as [|u tl].
        -- simpl in Hst. injection Hst as <-. simpl in Hsum. lia.
        -- cbn [falsy]. rewrite Hst. cbn [option_map]. f_equal; lia.
Qed.

End JapaneseNumerals.

(** X30.  For every integer of absolute value below 2^53,
    [toJapaneseNumerals] returns a numeral that denotes the number:
    [numeral_value], which accepts only well-formed numerals (groups
    closed by 兆, 億, 万 in this order and never empty; 千, 百, 十 in
    this order within a group, alone or after a digit 二 to 九; one
    digit for the ones; 〇 only on its own), reads the number back.  A
    negative number gives a minus sign followed by the numeral of its
    opposite. *)
Theorem toJapaneseNumerals_value (n : Z) :
  - 2 ^ 53 < n < 2 ^ 53 ->
  exists out,
    toJapaneseNumerals n = Some out /\
    (0 <= n -> numeral_value out = Some n) /\
    (n < 0 ->
     exists numeral, out = 0x2D :: numeral /\ numeral_value numeral = Some (- n)).
Proof.
  intros Hn.
  unfold toJapaneseNumerals. destruct (n =? 0) eqn:H0.
  - apply Z.eqb_eq in H0. subst n. exists [0x3007].
    split; [reflexivity|]. split; [reflexivity | lia].
  - apply Z.eqb_neq in H0. destruct (n <? 0) eqn:Hneg.
    + apply Z.ltb_lt in Hneg.
      destruct (positive_value (- n)) as (out & Hout & Hval); [lia|].
      rewrite Hout. exists (0x2D :: out). split; [reflexivity|].
      split; [lia|]. intros _. exists out. split; [reflexivity | exact Hval].
    + apply Z.ltb_ge in Hneg.
      destruct (positive_value n) as (out & Hout & Hval); [lia|].
      exists out. split; [exact Hout|]. split; [intros _; exact Hval | lia].
Qed.

Lemma toJapaneseNumerals_value_witness :
  exists out, toJapaneseNumerals 2024 = Some out /\ numeral_value out = Some 2024.
Proof.
  destruct (toJapaneseNumerals_value 2024) as (out & Hout & Hval & _).
  - change (2 ^ 53) with 9007199254740992. lia.
  - exists out. split; [exact Hout | apply Hval; lia].
Defined.
